(** * goBreaker: a circuit breaker over a rolling window of buckets

    A shallow embedding of [circuitBreaker.go] (the [Breaker] state machine
    and the [window] container) together with the properties that the design
    document states about them.

    Conventions of the embedding.
    - Go's [int64], [time.Duration] and (on the 64-bit targets this models)
      [int] are integers of [Z] with the two's-complement wrap-around
      written out by [wrap64].
    - A [time.Time] is an instant: the number of nanoseconds since the Unix
      epoch, an unbounded [Z]; [t.Add(d)] is [t + d], [t.After(u)] is
      [u < t] and [t.UnixNano()] is [wrap64 t].
    - [time.Now()] is an effect.  The world carries the system clock as the
      sequence [wall] of its successive readings and the number [ticks] of
      readings made so far.
    - Methods run in a state-and-fault monad: a method on receiver type [S]
      maps the receiver and the world to a result, a new receiver and a new
      world, or stops with a run-time panic or on a lock that is never
      released.
    - [*bucket] pointers are slot numbers of the [buckets] slice: the slice
      is filled once, at construction, with distinct buckets that are never
      replaced.
    - Callbacks ([TripFunc], [StateChangeHandler]) are programs over the
      [Container] interface, the only access they are handed; they return
      and do not panic.
    - Calls are sequential: every method body is one critical section.  The
      locks show in one place only, a trip predicate that calls a method
      which takes the breaker's lock again, and never returns.
    - A slice of any length can be made: memory is not bounded.
    - [DEFAULT_BREAKER_RATE] and [DEFAULT_BREAKER_MINSAMPLES], which no
      source file at hand declares, are parameters of [NewBreaker]. *)

From Stdlib Require Import ZArith List Bool Lia String Floats.
Import ListNotations.
Open Scope Z_scope.

(** ** Machine integers *)

Definition wrap64 (z : Z) : Z := (z + 2 ^ 63) mod 2 ^ 64 - 2 ^ 63.

Definition in_int64 (z : Z) : Prop := - 2 ^ 63 <= z < 2 ^ 63.

(** [float64(x)] for an [int64] [x]: round to nearest. *)
Definition float64_of_int64 (z : Z) : float :=
  if z =? - 2 ^ 63 then (-0x1p63)%float
  else if z <? 0 then PrimFloat.opp (PrimFloat.of_uint63 (Uint63.of_Z (- z)))
  else PrimFloat.of_uint63 (Uint63.of_Z z).

(** ** Durations and instants *)

Definition Millisecond : Z := 1000000.
Definition Second : Z := 1000 * Millisecond.

(** The zero [time.Time]: January 1, year 1, 00:00:00 UTC. *)
Definition zero_Time : Z := - 62135596800 * Second.

Definition Time_Add (t d : Z) : Z := t + d.
Definition Time_After (t u : Z) : bool := u <? t.
Definition Time_UnixNano (t : Z) : Z := wrap64 t.

(** ** States of the breaker *)

Inductive State : Type := OPEN | HALFOPEN | CLOSED.

Definition State_String (s : State) : string :=
  match s with
  | OPEN => "OPEN"
  | HALFOPEN => "HALFOPEN"
  | CLOSED => "CLOSED"
  end.

(** ** The world and the monad of methods *)

Record World : Type := mkWorld {
  wall : nat -> Z;                    (* successive readings of the system clock *)
  ticks : nat;                        (* readings made so far *)
  notified : list (State * State)     (* handler invocations, latest first *)
}.

Inductive fault : Type :=
| IndexOutOfRange
| NilFuncCall
| Deadlock.

Inductive Res (X : Type) : Type :=
| Ok (x : X)
| Fault (f : fault).
Arguments Ok {X} x.
Arguments Fault {X} f.

Definition M (S A : Type) : Type := S -> World -> Res (A * S * World).

Definition ret {S A} (a : A) : M S A := fun s wd => Ok (a, s, wd).

Definition bind {S A B} (m : M S A) (k : A -> M S B) : M S B :=
  fun s wd =>
    match m s wd with
    | Ok (a, s', wd') => k a s' wd'
    | Fault f => Fault f
    end.

Definition panic {S A} (f : fault) : M S A := fun _ _ => Fault f.

Definition gets {S A} (f : S -> A) : M S A := fun s wd => Ok (f s, s, wd).
Definition modify {S} (f : S -> S) : M S unit := fun s wd => Ok (tt, f s, wd).

Declare Scope go_scope.
Delimit Scope go_scope with go.
Notation "x <- m ;; k" := (bind m (fun x => k))
  (at level 61, m at next level, right associativity) : go_scope.
Notation "' pat <- m ;; k" := (bind m (fun x => match x with pat => k end))
  (at level 61, pat pattern, m at next level, right associativity) : go_scope.
Notation "m ;; k" := (bind m (fun _ => k))
  (at level 61, right associativity) : go_scope.
Open Scope go_scope.

(** [time.Now()]: the next reading of the system clock. *)
Definition time_Now {S} : M S Z :=
  fun s wd =>
    Ok (wall wd (ticks wd), s,
        mkWorld (wall wd) (Datatypes.S (ticks wd)) (notified wd)).

(** Running a method of a component [C] held inside a receiver [S]. *)
Definition within {S C A} (proj : S -> C) (upd : S -> C -> S) (m : M C A)
  : M S A :=
  fun s wd =>
    match m (proj s) wd with
    | Ok (a, c', wd') => Ok (a, upd s c', wd')
    | Fault f => Fault f
    end.

(** ** Slices *)

(** [s[i]]: Go panics when [i] is negative or not below [len(s)]. *)
Definition index {A} (l : list A) (i : Z) : option A :=
  if i <? 0 then None else nth_error l (Z.to_nat i).

Fixpoint store_nat {A} (l : list A) (n : nat) (x : A) : list A :=
  match l, n with
  | [], _ => []
  | _ :: t, O => x :: t
  | h :: t, Datatypes.S n' => h :: store_nat t n' x
  end.

Definition store {A} (l : list A) (i : Z) (x : A) : list A :=
  if i <? 0 then l else store_nat l (Z.to_nat i) x.

Definition len {A} (l : list A) : Z := Z.of_nat (List.length l).

(** ** Buckets *)

Record bucket : Type := mkBucket {
  failure : Z;
  success : Z;
  timeout : Z;
  timeStamp : Z       (* unix nano time when the bucket was created *)
}.

Definition new_bucket : bucket := mkBucket 0 0 0 0.

Definition bucket_Reset : M bucket unit :=
  modify (fun b => mkBucket 0 (success b) (timeout b) (timeStamp b));;
  modify (fun b => mkBucket (failure b) 0 (timeout b) (timeStamp b));;
  modify (fun b => mkBucket (failure b) (success b) 0 (timeStamp b));;
  t <- time_Now;;
  modify (fun b => mkBucket (failure b) (success b) (timeout b) (Time_UnixNano t)).

Definition bucket_Fail : M bucket unit :=
  modify (fun b => mkBucket (wrap64 (failure b + 1)) (success b) (timeout b) (timeStamp b)).

Definition bucket_Succeed : M bucket unit :=
  modify (fun b => mkBucket (failure b) (wrap64 (success b + 1)) (timeout b) (timeStamp b)).

Definition bucket_Timeout : M bucket unit :=
  modify (fun b => mkBucket (failure b) (success b) (wrap64 (timeout b + 1)) (timeStamp b)).

Definition bucket_Failures : M bucket Z := gets failure.
Definition bucket_Successes : M bucket Z := gets success.
Definition bucket_Timeouts : M bucket Z := gets timeout.
Definition bucket_TimeStamp : M bucket Z := gets timeStamp.

(** ** The window *)

Record window : Type := mkWindow {
  oldest : Z;              (* oldest bucket index *)
  latest : Z;              (* latest bucket index *)
  buckets : list bucket;   (* buckets this window has *)
  bucketTime : Z;          (* time each bucket holds *)
  bucketNums : Z;          (* the largest number of buckets of window could have *)
  expireTime : Z;          (* expire time of this window, equals to window size *)
  inWindow : Z;            (* the number of buckets in the window currently *)
  conseErr : Z             (* consecutive errors *)
}.

Definition set_oldest (x : Z) (w : window) : window :=
  mkWindow x (latest w) (buckets w) (bucketTime w) (bucketNums w)
           (expireTime w) (inWindow w) (conseErr w).
Definition set_latest (x : Z) (w : window) : window :=
  mkWindow (oldest w) x (buckets w) (bucketTime w) (bucketNums w)
           (expireTime w) (inWindow w) (conseErr w).
Definition set_buckets (x : list bucket) (w : window) : window :=
  mkWindow (oldest w) (latest w) x (bucketTime w) (bucketNums w)
           (expireTime w) (inWindow w) (conseErr w).
Definition set_inWindow (x : Z) (w : window) : window :=
  mkWindow (oldest w) (latest w) (buckets w) (bucketTime w) (bucketNums w)
           (expireTime w) x (conseErr w).
Definition set_conseErr (x : Z) (w : window) : window :=
  mkWindow (oldest w) (latest w) (buckets w) (bucketTime w) (bucketNums w)
           (expireTime w) (inWindow w) x.

(** A method called on [w.buckets[i]]; the slot is a pointer, so what the
    method writes lands in the slice. *)
Definition at_bucket {A} (i : Z) (m : M bucket A) : M window A :=
  fun w wd =>
    match index (buckets w) i with
    | None => Fault IndexOutOfRange
    | Some b =>
        match m b wd with
        | Ok (a, b', wd') => Ok (a, set_buckets (store (buckets w) i b') w, wd')
        | Fault f => Fault f
        end
    end.

Definition window_Reset : M window unit :=
  modify (set_oldest 0);;
  modify (set_latest 0);;
  modify (set_inWindow 1);;
  modify (set_conseErr 0);;
  l <- gets latest;;
  at_bucket l bucket_Reset.

(** The loop of [expire]: every turn that does not break takes one bucket
    out of the window, so [inWindow] turns are all the loop can make; [n]
    counts them down. *)
Fixpoint expire_loop (now : Z) (n : nat) : M window unit :=
  match n with
  | O => ret tt
  | Datatypes.S n' =>
      iw <- gets inWindow;;
      if iw >? 0 then
        o <- gets oldest;;
        stamp <- at_bucket o bucket_TimeStamp;;
        et <- gets expireTime;;
        if wrap64 (stamp + et) <=? now then
          modify (fun w => set_oldest (wrap64 (oldest w + 1)) w);;
          o' <- gets oldest;;
          bn <- gets bucketNums;;
          (if o' =? bn then modify (set_oldest 0) else ret tt);;
          modify (fun w => set_inWindow (wrap64 (inWindow w - 1)) w);;
          expire_loop now n'
        else ret tt
      else ret tt
  end.

(** [expire] removes expired buckets's affect. *)
Definition window_expire : M window (Z * Z) :=
  t <- time_Now;;
  let now := Time_UnixNano t in
  iw <- gets inWindow;;
  expire_loop now (Z.to_nat iw);;
  o <- gets oldest;;
  iw' <- gets inWindow;;
  ret (o, iw').

(** [latestBucket] returns the latest bucket (its slot). *)
Definition window_latestBucket : M window Z :=
  l <- gets latest;;
  stamp <- at_bucket l bucket_TimeStamp;;
  t <- time_Now;;
  let now := Time_UnixNano t in
  bt <- gets bucketTime;;
  (if wrap64 (stamp + bt) <=? now then
     modify (fun w => set_latest (wrap64 (latest w + 1)) w);;
     l' <- gets latest;;
     bn <- gets bucketNums;;
     (if l' >=? bn then modify (set_latest 0) else ret tt);;
     iw <- gets inWindow;;
     (if iw =? bn then
        modify (fun w => set_oldest (wrap64 (oldest w + 1)) w);;
        o' <- gets oldest;;
        (if o' >=? bn then modify (set_oldest 0) else ret tt)
      else
        modify (fun w => set_inWindow (wrap64 (inWindow w + 1)) w));;
     l'' <- gets latest;;
     at_bucket l'' bucket_Reset
   else ret tt);;
  l <- gets latest;;
  _ <- at_bucket l (ret tt);;
  ret l.

Definition window_Fail : M window unit :=
  b <- window_latestBucket;;
  modify (fun w => set_conseErr (wrap64 (conseErr w + 1)) w);;
  at_bucket b bucket_Fail.

Definition window_Succeed : M window unit :=
  b <- window_latestBucket;;
  modify (set_conseErr 0);;
  at_bucket b bucket_Succeed.

Definition window_Timeout : M window unit :=
  b <- window_latestBucket;;
  modify (fun w => set_conseErr (wrap64 (conseErr w + 1)) w);;
  at_bucket b bucket_Timeout.

(** The summing loop of [Counts]: it makes [remain] turns. *)
Fixpoint Counts_loop (n : nat) (o : Z) (acc : Z * Z * Z) : M window (Z * Z * Z) :=
  match n with
  | O => ret acc
  | Datatypes.S n' =>
      let '(successes, failures, timeouts) := acc in
      t <- at_bucket o bucket_Timeouts;;
      s <- at_bucket o bucket_Successes;;
      f <- at_bucket o bucket_Failures;;
      bn <- gets bucketNums;;
      let o1 := wrap64 (o + 1) in
      let o2 := if o1 >=? bn then 0 else o1 in
      Counts_loop n' o2 (wrap64 (successes + s), wrap64 (failures + f),
                         wrap64 (timeouts + t))
  end.

Definition window_Counts : M window (Z * Z * Z) :=
  '(o, remain) <- window_expire;;
  Counts_loop (Z.to_nat remain) o (0, 0, 0).

Definition window_Successes : M window Z :=
  '(successes, _, _) <- window_Counts;; ret successes.

Definition window_Failures : M window Z :=
  '(_, failures, _) <- window_Counts;; ret failures.

Definition window_Timeouts : M window Z :=
  '(_, _, timeouts) <- window_Counts;; ret timeouts.

Definition window_ConsecutiveErrors : M window Z := gets conseErr.

Definition window_ErrorRate : M window float :=
  '(successes, failures, timeouts) <- window_Counts;;
  if wrap64 (wrap64 (successes + failures) + timeouts) =? 0 then ret 0%float
  else ret (PrimFloat.div
              (float64_of_int64 (wrap64 (failures + timeouts)))
              (float64_of_int64 (wrap64 (wrap64 (successes + failures) + timeouts)))).

Definition window_Samples : M window Z :=
  '(successes, failures, timeouts) <- window_Counts;;
  ret (wrap64 (wrap64 (successes + failures) + timeouts)).

Inductive or_error (A : Type) : Type :=
| Value (a : A)
| Error (msg : string).
Arguments Value {A} a.
Arguments Error {A} msg.

(** [NewWindowWithOptions] creates a new window. *)
Definition NewWindowWithOptions (bucketTime bucketNums : Z)
  : M unit (or_error window) :=
  if bucketNums <? 100 then ret (Error "BucketNums can't be less than 100")
  else
    let w := mkWindow 0 0 (repeat new_bucket (Z.to_nat bucketNums))
                      bucketTime bucketNums
                      (wrap64 (bucketTime * bucketNums)) 0 0 in
    fun _ wd =>
      match window_Reset w wd with
      | Ok (_, w', wd') => Ok (Value w', tt, wd')
      | Fault f => Fault f
      end.

(** ** The Container interface and the callbacks *)

Inductive method : Type -> Type :=
| mFail : method unit
| mSucceed : method unit
| mTimeout : method unit
| mFailures : method Z
| mSuccesses : method Z
| mTimeouts : method Z
| mConsecutiveErrors : method Z
| mErrorRate : method float
| mSamples : method Z
| mCounts : method (Z * Z * Z)
| mReset : method unit.

(** A callback: a program that calls methods of the [Container] it is
    handed and computes with what they return. *)
Inductive Prog (A : Type) : Type :=
| Return (a : A)
| Call (R : Type) (m : method R) (k : R -> Prog A).
Arguments Return {A} a.
Arguments Call {A R} m k.

Fixpoint run_prog {S A} (call : forall R, method R -> M S R) (p : Prog A)
  : M S A :=
  match p with
  | Return a => ret a
  | Call m k => r <- call _ m;; run_prog call (k r)
  end.

(** [*window] as a [Container]. *)
Definition window_call (R : Type) (m : method R) : M window R :=
  match m in method R return M window R with
  | mFail => window_Fail
  | mSucceed => window_Succeed
  | mTimeout => window_Timeout
  | mFailures => window_Failures
  | mSuccesses => window_Successes
  | mTimeouts => window_Timeouts
  | mConsecutiveErrors => window_ConsecutiveErrors
  | mErrorRate => window_ErrorRate
  | mSamples => window_Samples
  | mCounts => window_Counts
  | mReset => window_Reset
  end.

(** [TripFunc] is a function called by a Breaker when error appears and
    determines whether the breaker should trip; [None] is the nil func. *)
Definition TripFunc : Type := option (Prog bool).

Definition StateChangeHandler_t : Type := option (State -> State -> Prog unit).

Definition Clock : Type := option (M unit Z).

Definition is_nil {A} (f : option A) : bool :=
  match f with None => true | Some _ => false end.

(** ThresholdTripFunc *)
Definition ThresholdTripFunc (threshold : Z) : TripFunc :=
  Some (Call mFailures (fun f =>
        Call mTimeouts (fun t =>
        Return (wrap64 (f + t) >=? threshold)))).

(** ConsecutiveTripFunc *)
Definition ConsecutiveTripFunc (threshold : Z) : TripFunc :=
  Some (Call mConsecutiveErrors (fun c => Return (c >=? threshold))).

(** RateTripFunc *)
Definition RateTripFunc (rate : float) (minSamples : Z) : TripFunc :=
  Some (Call mSamples (fun samples =>
        if samples >=? minSamples
        then Call mErrorRate (fun r => Return (PrimFloat.leb rate r))
        else Return false)).

(** ** Options and the breaker *)

Record Options : Type := mkOptions {
  BucketTime : Z;          (* the time each bucket holds *)
  BucketNums : Z;          (* the number of buckets the breaker have *)
  BreakerRate : float;
  BreakerMinQPS : Z;
  BreakerMinSamples : Z;
  CoolingTimeout : Z;
  DetectTimeout : Z;
  HalfOpenSuccess : Z;
  ShouldTrip : TripFunc;
  StateChangeHandler : StateChangeHandler_t;
  now : Clock
}.

Record Breaker : Type := mkBreaker {
  Container : window;      (* contains all success, error and timeout *)
  state : State;
  openTime : Z;            (* the time when the breaker become OPEN *)
  lastRetryTime : Z;       (* last retry time when in HALFOPEN state *)
  halfopenSuccess : Z;     (* consecutive successes when HALFOPEN *)
  options : Options;
  Breaker_now : Clock
}.

Definition set_Container (b : Breaker) (c : window) : Breaker :=
  mkBreaker c (state b) (openTime b) (lastRetryTime b) (halfopenSuccess b)
            (options b) (Breaker_now b).
Definition set_state (x : State) (b : Breaker) : Breaker :=
  mkBreaker (Container b) x (openTime b) (lastRetryTime b) (halfopenSuccess b)
            (options b) (Breaker_now b).
Definition set_openTime (x : Z) (b : Breaker) : Breaker :=
  mkBreaker (Container b) (state b) x (lastRetryTime b) (halfopenSuccess b)
            (options b) (Breaker_now b).
Definition set_lastRetryTime (x : Z) (b : Breaker) : Breaker :=
  mkBreaker (Container b) (state b) (openTime b) x (halfopenSuccess b)
            (options b) (Breaker_now b).
Definition set_halfopenSuccess (x : Z) (b : Breaker) : Breaker :=
  mkBreaker (Container b) (state b) (openTime b) (lastRetryTime b) x
            (options b) (Breaker_now b).

(** A method of the embedded [Container], called on the breaker's own. *)
Definition on_Container {A} (m : M window A) : M Breaker A :=
  within Container set_Container m.

(** [*Breaker] as a [Container], the value [error] hands to [trip]: the
    methods [*Breaker] defines itself shadow the embedded ones and take the
    breaker's lock, which [error] is holding; the others are promoted from
    the embedded [Container]. *)
Definition Breaker_call (R : Type) (m : method R) : M Breaker R :=
  match m in method R return M Breaker R with
  | mFail => panic Deadlock
  | mSucceed => panic Deadlock
  | mTimeout => panic Deadlock
  | mReset => panic Deadlock
  | mFailures => on_Container window_Failures
  | mSuccesses => on_Container window_Successes
  | mTimeouts => on_Container window_Timeouts
  | mConsecutiveErrors => on_Container window_ConsecutiveErrors
  | mErrorRate => on_Container window_ErrorRate
  | mSamples => on_Container window_Samples
  | mCounts => on_Container window_Counts
  end.

(** Calling a func value; calling the nil func panics. *)
Definition invoke_trip (trip : TripFunc) : M Breaker bool :=
  match trip with
  | None => panic NilFuncCall
  | Some p => run_prog Breaker_call p
  end.

Definition invoke_handler (h : StateChangeHandler_t) (oldState newState : State)
  : M Breaker unit :=
  match h with
  | None => panic NilFuncCall
  | Some f =>
      (fun b wd => Ok (tt, b, mkWorld (wall wd) (ticks wd)
                                      ((oldState, newState) :: notified wd)));;
      on_Container (run_prog window_call (f oldState newState))
  end.

(** [if b.options.StateChangeHandler != nil { b.options.StateChangeHandler(...) }] *)
Definition notify (oldState newState : State) : M Breaker unit :=
  h <- gets (fun b => StateChangeHandler (options b));;
  if negb (is_nil h) then invoke_handler h oldState newState else ret tt.

(** [Succeed] records a success. *)
Definition Breaker_Succeed : M Breaker unit :=
  s <- gets state;;
  match s with
  | OPEN => ret tt (* do nothing *)
  | HALFOPEN =>
      modify (fun b => set_halfopenSuccess (wrap64 (halfopenSuccess b + 1)) b);;
      hs <- gets halfopenSuccess;;
      th <- gets (fun b => HalfOpenSuccess (options b));;
      if hs =? th then
        notify HALFOPEN CLOSED;;
        on_Container window_Reset;;
        modify (set_state CLOSED)
      else ret tt
  | CLOSED => on_Container window_Succeed
  end.

Definition Breaker_error (isTimeout : bool) (trip : TripFunc) : M Breaker unit :=
  (if isTimeout then on_Container window_Timeout
   else on_Container window_Fail);;
  s <- gets state;;
  match s with
  | OPEN => ret tt (* do nothing *)
  | HALFOPEN => (* become OPEN *)
      notify HALFOPEN OPEN;;
      t <- time_Now;;
      modify (set_openTime t);;
      modify (set_state OPEN)
  | CLOSED => (* call ShouldTrip *)
      tripped <- (if negb (is_nil trip) then invoke_trip trip else ret false);;
      if tripped then
        (* become OPEN and set the open time *)
        notify CLOSED OPEN;;
        t <- time_Now;;
        modify (set_openTime t);;
        modify (set_state OPEN)
      else ret tt
  end.

Definition Breaker_Fail : M Breaker unit :=
  trip <- gets (fun b => ShouldTrip (options b));;
  Breaker_error false trip.

Definition Breaker_FailWithTrip (trip : TripFunc) : M Breaker unit :=
  Breaker_error false trip.

Definition Breaker_Timeout : M Breaker unit :=
  trip <- gets (fun b => ShouldTrip (options b));;
  Breaker_error true trip.

Definition Breaker_TimeoutWithTrip (trip : TripFunc) : M Breaker unit :=
  Breaker_error true trip.

Definition Breaker_isAllowed : M Breaker bool :=
  s <- gets state;;
  match s with
  | OPEN =>
      now <- time_Now;;
      ot <- gets openTime;;
      ct <- gets (fun b => CoolingTimeout (options b));;
      if Time_After (Time_Add ot ct) now then ret false
      else
        (* cooling timeout, then become HALFOPEN *)
        modify (set_state HALFOPEN);;
        modify (set_halfopenSuccess 0);;
        modify (set_lastRetryTime now);;
        ret true
  | HALFOPEN =>
      now <- time_Now;;
      lrt <- gets lastRetryTime;;
      dt <- gets (fun b => DetectTimeout (options b));;
      if Time_After (Time_Add lrt dt) now then ret false
      else
        modify (set_lastRetryTime now);;
        ret true
  | CLOSED => ret true
  end.

Definition Breaker_IsAllowed : M Breaker bool := Breaker_isAllowed.

(** returns the breaker's state now *)
Definition Breaker_State : M Breaker State := gets state.

(** resets this breaker *)
Definition Breaker_Reset : M Breaker unit :=
  on_Container window_Reset;;
  modify (set_state CLOSED).

(** The methods of the embedded [Container] that [*Breaker] does not
    shadow. *)
Definition Breaker_Failures : M Breaker Z := on_Container window_Failures.
Definition Breaker_Successes : M Breaker Z := on_Container window_Successes.
Definition Breaker_Timeouts : M Breaker Z := on_Container window_Timeouts.
Definition Breaker_ConsecutiveErrors : M Breaker Z :=
  on_Container window_ConsecutiveErrors.
Definition Breaker_ErrorRate : M Breaker float := on_Container window_ErrorRate.
Definition Breaker_Samples : M Breaker Z := on_Container window_Samples.
Definition Breaker_Counts : M Breaker (Z * Z * Z) := on_Container window_Counts.

(** ** Construction *)

Definition DEFAULT_BUCKET_TIME : Z := Millisecond * 100.
Definition DEFAULT_BUCKET_NUMS : Z := 100.
Definition DEFAULT_COOLING_TIMEOUT : Z := Second * 5.
Definition DEFAULT_DETECT_TIMEOUT : Z := Millisecond * 200.
Definition DEFAULT_HALFOPEN_SUCCESSES : Z := 2.

Section Construction.

(** [DEFAULT_BREAKER_RATE] and [DEFAULT_BREAKER_MINSAMPLES] are named by
    [NewBreaker]; the file that declares them is not part of the sources
    at hand, so their values stay open. *)
Variable DEFAULT_BREAKER_RATE : float.
Variable DEFAULT_BREAKER_MINSAMPLES : Z.

Definition default_now (o : Options) : Options :=
  if is_nil (now o) then
    mkOptions (BucketTime o) (BucketNums o) (BreakerRate o) (BreakerMinQPS o)
              (BreakerMinSamples o) (CoolingTimeout o) (DetectTimeout o)
              (HalfOpenSuccess o) (ShouldTrip o) (StateChangeHandler o)
              (Some time_Now)
  else o.

Definition default_BucketTime (o : Options) : Options :=
  if BucketTime o <=? 0 then
    mkOptions DEFAULT_BUCKET_TIME (BucketNums o) (BreakerRate o) (BreakerMinQPS o)
              (BreakerMinSamples o) (CoolingTimeout o) (DetectTimeout o)
              (HalfOpenSuccess o) (ShouldTrip o) (StateChangeHandler o) (now o)
  else o.

Definition default_BucketNums (o : Options) : Options :=
  if BucketNums o <=? 0 then
    mkOptions (BucketTime o) DEFAULT_BUCKET_NUMS (BreakerRate o) (BreakerMinQPS o)
              (BreakerMinSamples o) (CoolingTimeout o) (DetectTimeout o)
              (HalfOpenSuccess o) (ShouldTrip o) (StateChangeHandler o) (now o)
  else o.

Definition default_CoolingTimeout (o : Options) : Options :=
  if CoolingTimeout o <=? 0 then
    mkOptions (BucketTime o) (BucketNums o) (BreakerRate o) (BreakerMinQPS o)
              (BreakerMinSamples o) DEFAULT_COOLING_TIMEOUT (DetectTimeout o)
              (HalfOpenSuccess o) (ShouldTrip o) (StateChangeHandler o) (now o)
  else o.

Definition default_DetectTimeout (o : Options) : Options :=
  if DetectTimeout o <=? 0 then
    mkOptions (BucketTime o) (BucketNums o) (BreakerRate o) (BreakerMinQPS o)
              (BreakerMinSamples o) (CoolingTimeout o) DEFAULT_DETECT_TIMEOUT
              (HalfOpenSuccess o) (ShouldTrip o) (StateChangeHandler o) (now o)
  else o.

Definition default_HalfOpenSuccess (o : Options) : Options :=
  if HalfOpenSuccess o <=? 0 then
    mkOptions (BucketTime o) (BucketNums o) (BreakerRate o) (BreakerMinQPS o)
              (BreakerMinSamples o) (CoolingTimeout o) (DetectTimeout o)
              DEFAULT_HALFOPEN_SUCCESSES (ShouldTrip o) (StateChangeHandler o)
              (now o)
  else o.

Definition default_BreakerRate (o : Options) : Options :=
  if PrimFloat.leb (BreakerRate o) 0 then
    mkOptions (BucketTime o) (BucketNums o) DEFAULT_BREAKER_RATE (BreakerMinQPS o)
              (BreakerMinSamples o) (CoolingTimeout o) (DetectTimeout o)
              (HalfOpenSuccess o) (ShouldTrip o) (StateChangeHandler o) (now o)
  else o.

Definition default_BreakerMinSamples (o : Options) : Options :=
  if BreakerMinSamples o <=? 0 then
    mkOptions (BucketTime o) (BucketNums o) (BreakerRate o) (BreakerMinQPS o)
              DEFAULT_BREAKER_MINSAMPLES (CoolingTimeout o) (DetectTimeout o)
              (HalfOpenSuccess o) (ShouldTrip o) (StateChangeHandler o) (now o)
  else o.

Definition default_ShouldTrip (o : Options) : Options :=
  if is_nil (ShouldTrip o) then
    mkOptions (BucketTime o) (BucketNums o) (BreakerRate o) (BreakerMinQPS o)
              (BreakerMinSamples o) (CoolingTimeout o) (DetectTimeout o)
              (HalfOpenSuccess o)
              (RateTripFunc (BreakerRate o) (BreakerMinSamples o))
              (StateChangeHandler o) (now o)
  else o.

(** The options after the tests that open [NewBreaker], in their order. *)
Definition with_defaults (o : Options) : Options :=
  default_ShouldTrip
    (default_BreakerMinSamples
       (default_BreakerRate
          (default_HalfOpenSuccess
             (default_DetectTimeout
                (default_CoolingTimeout
                   (default_BucketNums
                      (default_BucketTime (default_now o)))))))).

(** [NewBreaker] creates a base breaker with a specified options. *)
Definition NewBreaker (options0 : Options) : M unit (or_error Breaker) :=
  let o := with_defaults options0 in
  r <- NewWindowWithOptions (BucketTime o) (BucketNums o);;
  match r with
  | Error err => ret (Error err)
  | Value container =>
      let breaker :=
        mkBreaker container CLOSED zero_Time zero_Time 0
                  (mkOptions (BucketTime o) (BucketNums o) (BreakerRate o)
                             0 (BreakerMinSamples o) (CoolingTimeout o)
                             (DetectTimeout o) (HalfOpenSuccess o)
                             (ShouldTrip o) (StateChangeHandler o) (now o))
                  (now o) in
      ret (Value breaker)
  end.

End Construction.

(** ** Driving a window or a breaker through a history of calls *)

Inductive any_method : Type :=
| AnyMethod (R : Type) (m : method R).
Arguments AnyMethod {R} m.

Fixpoint run_methods (ms : list any_method) : M window unit :=
  match ms with
  | [] => ret tt
  | AnyMethod m :: ms' => _ <- window_call _ m;; run_methods ms'
  end.

Inductive call : Type :=
| CIsAllowed
| CSucceed
| CFail
| CFailWithTrip (trip : TripFunc)
| CTimeout
| CTimeoutWithTrip (trip : TripFunc)
| CState
| CReset
| CFailures
| CSuccesses
| CTimeouts
| CConsecutiveErrors
| CErrorRate
| CSamples
| CCounts.

Definition do_call (c : call) : M Breaker unit :=
  match c with
  | CIsAllowed => _ <- Breaker_IsAllowed;; ret tt
  | CSucceed => Breaker_Succeed
  | CFail => Breaker_Fail
  | CFailWithTrip trip => Breaker_FailWithTrip trip
  | CTimeout => Breaker_Timeout
  | CTimeoutWithTrip trip => Breaker_TimeoutWithTrip trip
  | CState => _ <- Breaker_State;; ret tt
  | CReset => Breaker_Reset
  | CFailures => _ <- Breaker_Failures;; ret tt
  | CSuccesses => _ <- Breaker_Successes;; ret tt
  | CTimeouts => _ <- Breaker_Timeouts;; ret tt
  | CConsecutiveErrors => _ <- Breaker_ConsecutiveErrors;; ret tt
  | CErrorRate => _ <- Breaker_ErrorRate;; ret tt
  | CSamples => _ <- Breaker_Samples;; ret tt
  | CCounts => _ <- Breaker_Counts;; ret tt
  end.

Fixpoint run_calls (cs : list call) : M Breaker unit :=
  match cs with
  | [] => ret tt
  | c :: cs' => do_call c;; run_calls cs'
  end.

(** A method run on what a constructor returned. *)
Definition and_then {S A} (r : Res (or_error S * unit * World)) (m : M S A)
  : Res (A * S * World) :=
  match r with
  | Ok (Value s, _, wd) => m s wd
  | Ok (Error _, _, _) => Fault NilFuncCall
  | Fault f => Fault f
  end.

(** ** What one call does, in closed form *)

(** The world after one reading of the clock. *)
Definition tick (wd : World) : World :=
  mkWorld (wall wd) (Datatypes.S (ticks wd)) (notified wd).

(** The slot after [i] in a ring of [bn] slots, as [latestBucket] steps. *)
Definition next (bn i : Z) : Z :=
  if wrap64 (i + 1) >=? bn then 0 else wrap64 (i + 1).

(** The same step as [expire] writes it, with [==]. *)
Definition next_eq (bn i : Z) : Z :=
  if wrap64 (i + 1) =? bn then 0 else wrap64 (i + 1).

(** The window after [latestBucket] found the latest bucket too old and
    opened the next slot, stamped [stamp]. *)
Definition advance (stamp : Z) (w : window) : window :=
  let l' := next (bucketNums w) (latest w) in
  mkWindow (if inWindow w =? bucketNums w then next (bucketNums w) (oldest w)
            else oldest w)
           l'
           (store (buckets w) l' (mkBucket 0 0 0 stamp))
           (bucketTime w) (bucketNums w) (expireTime w)
           (if inWindow w =? bucketNums w then inWindow w
            else wrap64 (inWindow w + 1))
           (conseErr w).

(** A well-formed window: the slice has [bucketNums] buckets and the three
    ring positions are within it. *)
Definition window_ok (w : window) : Prop :=
  len (buckets w) = bucketNums w /\
  0 < bucketNums w < 2 ^ 63 /\
  0 <= oldest w < bucketNums w /\
  0 <= latest w < bucketNums w /\
  0 <= inWindow w <= bucketNums w.

(** What [expire] and the read-only methods keep of a window. *)
Definition same_ring (w w' : window) : Prop :=
  buckets w' = buckets w /\ latest w' = latest w /\
  bucketTime w' = bucketTime w /\ bucketNums w' = bucketNums w /\
  expireTime w' = expireTime w /\ conseErr w' = conseErr w.

(** The loop of [expire] on the window alone; [None] stands for the
    index-out-of-range panic. *)
Fixpoint expire_pure (now : Z) (n : nat) (w : window) : option window :=
  match n with
  | O => Some w
  | Datatypes.S n' =>
      if inWindow w >? 0 then
        match index (buckets w) (oldest w) with
        | None => None
        | Some b =>
            if wrap64 (timeStamp b + expireTime w) <=? now then
              expire_pure now n'
                (mkWindow (next_eq (bucketNums w) (oldest w)) (latest w)
                          (buckets w) (bucketTime w) (bucketNums w)
                          (expireTime w) (wrap64 (inWindow w - 1)) (conseErr w))
            else Some w
        end
      else Some w
  end.

(** The loop of [Counts] on the slice alone. *)
Fixpoint sum_ring (bs : list bucket) (bn : Z) (n : nat) (o : Z) (acc : Z * Z * Z)
  : option (Z * Z * Z) :=
  match n with
  | O => Some acc
  | Datatypes.S n' =>
      match index bs o with
      | None => None
      | Some b =>
          let '(successes, failures, timeouts) := acc in
          sum_ring bs bn n' (next bn o)
                   (wrap64 (successes + success b),
                    wrap64 (failures + failure b),
                    wrap64 (timeouts + timeout b))
      end
  end.

(** The slot the next write goes to and what the write finds there: the
    latest bucket while it is young enough, a fresh bucket in the next slot
    otherwise ([None]: the latest slot is outside the slice). *)
Definition writable (w : window) (wd : World) : option (Z * bucket) :=
  match index (buckets w) (latest w) with
  | None => None
  | Some b =>
      if wrap64 (timeStamp b + bucketTime w) <=? wrap64 (wall wd (ticks wd))
      then Some (next (bucketNums w) (latest w),
                 mkBucket 0 0 0 (wrap64 (wall wd (Datatypes.S (ticks wd)))))
      else Some (latest w, b)
  end.

Definition bump_failure (b : bucket) : bucket :=
  mkBucket (wrap64 (failure b + 1)) (success b) (timeout b) (timeStamp b).
Definition bump_success (b : bucket) : bucket :=
  mkBucket (failure b) (wrap64 (success b + 1)) (timeout b) (timeStamp b).
Definition bump_timeout (b : bucket) : bucket :=
  mkBucket (failure b) (success b) (wrap64 (timeout b + 1)) (timeStamp b).

(** The bucket an error report leaves where it found [b]. *)
Definition bump_error (isTimeout : bool) (b : bucket) : bucket :=
  if isTimeout then bump_timeout b else bump_failure b.

(** What a write into the window leaves: the current bucket is slot [l]
    with content [b], the streak is [ce], every other slot is as before. *)
Definition recorded (w : window) (l : Z) (b : bucket) (ce : Z) (w' : window)
  : Prop :=
  window_ok w' /\ latest w' = l /\ index (buckets w') l = Some b /\
  conseErr w' = ce /\
  (forall j, j <> l -> index (buckets w') j = index (buckets w) j) /\
  bucketTime w' = bucketTime w /\ bucketNums w' = bucketNums w /\
  expireTime w' = expireTime w.

(** ** Callbacks that only read *)

(** The methods of the interface that only read counters. *)
Definition is_read (R : Type) (m : method R) : bool :=
  match m with
  | mFail | mSucceed | mTimeout | mReset => false
  | _ => true
  end.

(** A callback that takes its [Container] as the read-only view the design
    hands it: it calls no method that records or resets. *)
Fixpoint read_only {A} (p : Prog A) : Prop :=
  match p with
  | Return _ => True
  | Call m k => is_read _ m = true /\ forall r, read_only (k r)
  end.

Definition read_only_trip (trip : TripFunc) : Prop :=
  match trip with None => True | Some p => read_only p end.

Definition read_only_handler (h : StateChangeHandler_t) : Prop :=
  match h with None => True | Some f => forall s t, read_only (f s t) end.

(** ** Reading off results *)

(** The window a computation ended with, if it ended. *)
Definition final_window {A} (r : Res (A * window * World)) : option window :=
  match r with Ok (_, w, _) => Some w | Fault _ => None end.

Definition final_breaker {A} (r : Res (A * Breaker * World)) : option Breaker :=
  match r with Ok (_, b, _) => Some b | Fault _ => None end.

Definition returned {S A} (r : Res (A * S * World)) : option A :=
  match r with Ok (a, _, _) => Some a | Fault _ => None end.


(** The four ways to report an error: [Fail()] and [Timeout()], which use
    the configured predicate, and [FailWithTrip(trip)] and
    [TimeoutWithTrip(trip)]. *)
Definition error_report (isTimeout : bool) (own : option TripFunc)
  : M Breaker unit :=
  match own, isTimeout with
  | None, false => Breaker_Fail
  | None, true => Breaker_Timeout
  | Some trip, false => Breaker_FailWithTrip trip
  | Some trip, true => Breaker_TimeoutWithTrip trip
  end.

(** A breaker with another clock in the two fields that hold it. *)
Definition with_clock (c : Clock) (b : Breaker) : Breaker :=
  mkBreaker (Container b) (state b) (openTime b) (lastRetryTime b)
            (halfopenSuccess b)
            (mkOptions (BucketTime (options b)) (BucketNums (options b))
                       (BreakerRate (options b)) (BreakerMinQPS (options b))
                       (BreakerMinSamples (options b))
                       (CoolingTimeout (options b)) (DetectTimeout (options b))
                       (HalfOpenSuccess (options b)) (ShouldTrip (options b))
                       (StateChangeHandler (options b)) c)
            c.

(** ** The window as a list of buckets, oldest first *)

(** [n] steps round the ring from slot [o], and the slots passed. *)
Fixpoint after (bn o : Z) (n : nat) : Z :=
  match n with
  | O => o
  | Datatypes.S n' => after bn (next bn o) n'
  end.

Fixpoint ring_from (bn o : Z) (n : nat) : list Z :=
  match n with
  | O => []
  | Datatypes.S n' => o :: ring_from bn (next bn o) n'
  end.

(** The bucket in slot [i] (a fresh one outside the slice). *)
Definition bucket_at (bs : list bucket) (i : Z) : bucket :=
  match index bs i with
  | Some b => b
  | None => new_bucket
  end.

(** The slots in the window: [inWindow] of them, from [oldest] on. *)
Definition slots (w : window) : list Z :=
  ring_from (bucketNums w) (oldest w) (Z.to_nat (inWindow w)).

Definition in_window (w : window) : list bucket :=
  map (bucket_at (buckets w)) (slots w).

(** A bucket is live at [t] while [createdAt + expireTime > t]. *)
Definition live (w : window) (t : Z) (b : bucket) : bool :=
  t <? timeStamp b + expireTime w.

Definition total (sel : bucket -> Z) (bs : list bucket) : Z :=
  fold_right (fun b acc => sel b + acc) 0 bs.

Definition samples_in (b : bucket) : Z := success b + failure b + timeout b.


(** The same sum over the buckets in the window only. *)
Definition Samples_in_window (w : window) (t : Z) : Z :=
  total samples_in (filter (live w t) (in_window w)).




(** ** Worked histories *)

(** The world before any reading of the clock [f]. *)
Definition start (f : nat -> Z) : World := mkWorld f 0 [].

(** A clock that reads [t0] for the first [n] readings and [t1] from then
    on. *)
Definition stepping (n : nat) (t0 t1 : Z) : nat -> Z :=
  fun k => if Nat.ltb k n then t0 else t1.

(** The zero value of [Breaker] (its [Container] an empty window). *)
Definition zero_Breaker : Breaker :=
  mkBreaker (mkWindow 0 0 [] 0 0 0 0 0) OPEN zero_Time zero_Time 0
            (mkOptions 0 0 0%float 0 0 0 0 0 None None None) None.

(** The breaker and the world after [NewBreaker o] and the calls [cs], from
    the first reading of the clock [f].  The two defaults that the sources
    leave open are given values here; the histories below set both options
    themselves, so that the values are never used. *)
Definition history (o : Options) (f : nat -> Z) (cs : list call)
  : Res (unit * Breaker * World) :=
  and_then (NewBreaker 0.5%float 20 o tt (start f)) (run_calls cs).

Definition breaker_of (r : Res (unit * Breaker * World)) : Breaker :=
  match r with Ok (_, b, _) => b | Fault _ => zero_Breaker end.

Definition world_of (r : Res (unit * Breaker * World)) : World :=
  match r with Ok (_, _, wd) => wd | Fault _ => start (fun _ => 0) end.

Definition window_of (r : Res (unit * window * World)) : window :=
  match r with
  | Ok (_, w, _) => w
  | Fault _ => mkWindow 0 0 [] 0 0 0 0 0
  end.

Definition clock_of (r : Res (unit * window * World)) : World :=
  match r with Ok (_, _, wd) => wd | Fault _ => start (fun _ => 0) end.

(** Rate trip: bucketTime=100ms, bucketCount=100, rate=0.5, minSamples=10;
    at t=0, 5 x Succeed then 10 x Fail; the clock reads 5001ms afterwards. *)
Definition rate_options : Options :=
  mkOptions (100 * Millisecond) 100 0.5%float 0 10 0 0 0 None None None.

Definition rate_trip_calls : list call :=
  repeat CSucceed 5 ++ repeat CFail 10.

Definition tripped : Res (unit * Breaker * World) :=
  Eval vm_compute in
    history rate_options (stepping 23 0 (5001 * Millisecond)) rate_trip_calls.

(** The same breaker once [IsAllowed] has let the first probe through. *)
Definition probing : Res (unit * Breaker * World) :=
  Eval vm_compute in
    history rate_options (stepping 23 0 (5001 * Millisecond))
            (rate_trip_calls ++ [CIsAllowed]).

(** A breaker fresh from [NewBreaker], at t=0. *)
Definition fresh : Res (unit * Breaker * World) :=
  Eval vm_compute in history rate_options (fun _ => 0) [].

(** The rate-trip breaker with counts spread over two buckets: a success
    and a failure at t=0, a failure at t=200ms. *)
Definition spread : Res (unit * Breaker * World) :=
  Eval vm_compute in
    history rate_options (stepping 4 0 (200 * Millisecond))
            [CSucceed; CFail; CFail].

(** The rate-trip options with a clock of the caller's: one that stands
    still at t=0. *)
Definition frozen_clock_options : Options :=
  mkOptions (100 * Millisecond) 100 0.5%float 0 10 0 0 0 None None
            (Some (ret 0)).

(** A window of a hundred buckets of 100 ms: a failure at t=0, a failure at
    t=200ms (in the next slot), and then [Reset()] at t=300ms, which is also
    the time the clock reads next. *)
Definition reset_clock : nat -> Z :=
  fun k => if Nat.ltb k 2 then 0
           else stepping 4 (200 * Millisecond) (300 * Millisecond) k.

Definition two_failures : Res (unit * window * World) :=
  Eval vm_compute in
    and_then (NewWindowWithOptions (100 * Millisecond) 100 tt (start reset_clock))
             (run_methods [AnyMethod mFail; AnyMethod mFail]).


(** A clock that is set back: it reads 20 s when the window is made and
    21 s when [Fail()] looks at the latest bucket, then 5 s when the new
    bucket is stamped and 16 s afterwards. *)
Definition set_back_clock : nat -> Z :=
  fun k => match k with
           | O => 20 * Second
           | 1%nat => 21 * Second
           | 2%nat => 5 * Second
           | _ => 16 * Second
           end.

Definition stamped_late : Res (unit * window * World) :=
  Eval vm_compute in
    and_then (NewWindowWithOptions (100 * Millisecond) 100 tt
                                   (start set_back_clock))
             (run_methods [AnyMethod mFail]).

(** Options with the consecutive-errors predicate at threshold 3, and a
    breaker that has seen two failures in a row at t=0. *)
Definition consecutive_options : Options :=
  mkOptions (100 * Millisecond) 100 0.5%float 0 10 0 0 0
            (ConsecutiveTripFunc 3) None None.

Definition two_in_a_row : Res (unit * Breaker * World) :=
  Eval vm_compute in history consecutive_options (fun _ => 0) [CFail; CFail].

(** The rate-trip breaker after one timeout at t=0. *)
Definition one_timeout : Res (unit * Breaker * World) :=
  Eval vm_compute in history rate_options (fun _ => 0) [CTimeout].

(** ** Histories of a window, call by call *)

(** The calls that report an error, and those that end a streak of errors. *)
Definition is_error (a : any_method) : bool :=
  match a with
  | AnyMethod m =>
      match m with
      | mFail | mTimeout => true
      | _ => false
      end
  end.

Definition ends_streak (a : any_method) : bool :=
  match a with
  | AnyMethod m =>
      match m with
      | mSucceed | mReset => true
      | _ => false
      end
  end.

Definition errors_in (ms : list any_method) : Z :=
  Z.of_nat (List.length (filter is_error ms)).

(** The window ends at [latest]: [inWindow] steps from [oldest] lead to the
    slot after [latest]. *)
Definition ring_end (w : window) : Prop :=
  after (bucketNums w) (oldest w) (Z.to_nat (inWindow w)) =
  next (bucketNums w) (latest w).

(** Calls whose predicate, if they bring one, only reads. *)
Definition call_read_only (c : call) : Prop :=
  match c with
  | CFailWithTrip trip | CTimeoutWithTrip trip => read_only_trip trip
  | _ => True
  end.

(** While HALFOPEN, the count of successful probes is below the threshold. *)
Definition probes_below_threshold (b : Breaker) : Prop :=
  state b = HALFOPEN ->
  0 <= halfopenSuccess b < HalfOpenSuccess (options b).

(** ** The state diagram *)

(** The arrows of the diagram, each with the calls that take it: cooling
    timeout, detect succeed, detect fail and tripped; and [Reset], which the
    diagram leaves out. *)
Definition arrow (c : call) (s s' : State) : bool :=
  match c, s, s' with
  | CIsAllowed, OPEN, HALFOPEN => true
  | CSucceed, HALFOPEN, CLOSED => true
  | (CFail | CFailWithTrip _ | CTimeout | CTimeoutWithTrip _), HALFOPEN, OPEN =>
      true
  | (CFail | CFailWithTrip _ | CTimeout | CTimeoutWithTrip _), CLOSED, OPEN =>
      true
  | CReset, (OPEN | HALFOPEN), CLOSED => true
  | _, _, _ => false
  end.

(** The calls that tell the handler of the change they make. *)
Definition tells_handler (c : call) : bool :=
  match c with
  | CIsAllowed | CReset => false
  | _ => true
  end.

(** ** Probing *)

(** The calls that leave a HALFOPEN breaker probing, unless a success closes
    it: all but the error reports and [Reset]. *)
Definition is_quiet (c : call) : bool :=
  match c with
  | CFail | CFailWithTrip _ | CTimeout | CTimeoutWithTrip _ | CReset => false
  | _ => true
  end.

Definition is_success (c : call) : bool :=
  match c with CSucceed => true | _ => false end.

Definition successes_in (cs : list call) : Z :=
  Z.of_nat (List.length (filter is_success cs)).

(** ** The registry: one breaker for each command *)

(** MinQps determines the MinSamples when using AdjustBreakers func *)
Definition DEFAULT_BREAKER_MINQPS : Z := 200.

(** A map with [int32] keys, as the list of its entries, one for each key.
    [map_get] is [None] for a key that is absent, where Go reads the zero
    value of the element type. *)
Fixpoint map_get {V} (m : list (Z * V)) (k : Z) : option V :=
  match m with
  | [] => None
  | (k', v) :: m' => if k' =? k then Some v else map_get m' k
  end.

Fixpoint map_set {V} (m : list (Z * V)) (k : Z) (v : V) : list (Z * V) :=
  match m with
  | [] => [(k, v)]
  | (k', v') :: m' =>
      if k' =? k then (k, v) :: m' else (k', v') :: map_set m' k v
  end.

(** [*Breaker]: nil, or the address of a breaker on the heap. *)
Definition pointer : Type := option nat.

(** [CircuitBreaker], without its [Mutex]: no method here is entered while
    another holds it. *)
Record CircuitBreaker : Type := mkCircuitBreaker {
  Breakers : list (Z * pointer)
}.

(** The breakers allocated so far, and the package's white list. *)
Record Memory : Type := mkMemory {
  heap : list Breaker;
  BreakerWhitelist : list (Z * bool)
}.

(** A method of the registry returns, or panics: on a nil [*Breaker], or
    with a fault of the breaker it called. *)
Inductive panic_value : Type :=
| NilPointerDereference
| BreakerFault (f : fault).

Inductive Outcome (X : Type) : Type :=
| Returns (x : X)
| Panics (p : panic_value).
Arguments Returns {X} x.
Arguments Panics {X} p.

(** The handler [GenBreaker] installs when the options bring none.  It asks
    the container for its successes, failures, timeouts and error rate, in
    this order, and prints them with the command and the two states; the
    line it prints is not kept in the world. *)
Definition log_state_change (cmd : Z) : State -> State -> Prog unit :=
  fun oldState newState =>
    Call mSuccesses (fun succ =>
    Call mFailures (fun err =>
    Call mTimeouts (fun timeout =>
    Call mErrorRate (fun rate =>
    Return tt)))).

(** [Options{}] *)
Definition zero_Options : Options :=
  mkOptions 0 0 0%float 0 0 0 0 0 None None None.

Section Registry.

Variable DEFAULT_BREAKER_RATE : float.
Variable DEFAULT_BREAKER_MINSAMPLES : Z.

(** [GenBreaker] drops the error of [NewBreaker]: what it returns is nil
    then. *)
Definition GenBreaker (cmd : Z) (options0 : Options) (mem : Memory) (wd : World)
  : Outcome (pointer * Memory * World) :=
  let callback := log_state_change cmd in
  let options1 :=
    if is_nil (StateChangeHandler options0) then
      mkOptions (BucketTime options0) (BucketNums options0)
                (BreakerRate options0) (BreakerMinQPS options0)
                (BreakerMinSamples options0) (CoolingTimeout options0)
                (DetectTimeout options0) (HalfOpenSuccess options0)
                (ShouldTrip options0) (Some callback) (now options0)
    else options0 in
  match NewBreaker DEFAULT_BREAKER_RATE DEFAULT_BREAKER_MINSAMPLES options1
                   tt wd with
  | Ok (Value defaultBreaker, _, wd') =>
      Returns (Some (List.length (heap mem)),
               mkMemory (heap mem ++ [defaultBreaker]) (BreakerWhitelist mem),
               wd')
  | Ok (Error _, _, wd') => Returns (None, mem, wd')
  | Fault f => Panics (BreakerFault f)
  end.

Fixpoint InitCircuitBreakers_loop (cmds : list Z) (options0 : Options)
         (cb : CircuitBreaker) (mem : Memory) (wd : World)
  : Outcome (CircuitBreaker * Memory * World) :=
  match cmds with
  | [] => Returns (cb, mem, wd)
  | cmd :: cmds' =>
      match GenBreaker cmd options0 mem wd with
      | Returns (p, mem', wd') =>
          InitCircuitBreakers_loop cmds' options0
            (mkCircuitBreaker (map_set (Breakers cb) cmd p)) mem' wd'
      | Panics v => Panics v
      end
  end.

Definition InitCircuitBreakers (cmds : list Z) (options0 : Options)
           (mem : Memory) (wd : World)
  : Outcome (CircuitBreaker * Memory * World) :=
  InitCircuitBreakers_loop cmds options0 (mkCircuitBreaker []) mem wd.

(** [GetBreaker]: a command with no entry, or with a nil one, gets a breaker
    of its own with the default options, which is not entered in the map. *)
Definition GetBreaker (cmd : Z) (b : CircuitBreaker) (mem : Memory) (wd : World)
  : Outcome (pointer * Memory * World) :=
  match map_get (Breakers b) cmd with
  | Some (Some cb) => Returns (Some cb, mem, wd)
  | _ => GenBreaker cmd zero_Options mem wd
  end.

(** [IsAllowed] through a [*Breaker]. *)
Definition IsAllowed_at (p : pointer) (mem : Memory) (wd : World)
  : Outcome (bool * Memory * World) :=
  match p with
  | None => Panics NilPointerDereference
  | Some a =>
      match nth_error (heap mem) a with
      | None => Panics NilPointerDereference
      | Some breaker =>
          match Breaker_IsAllowed breaker wd with
          | Ok (allowed, breaker', wd') =>
              Returns (allowed,
                       mkMemory (store_nat (heap mem) a breaker')
                                (BreakerWhitelist mem),
                       wd')
          | Fault f => Panics (BreakerFault f)
          end
      end
  end.

Definition IsTriggerBreaker (cmd : Z) (b : CircuitBreaker) (mem : Memory)
           (wd : World) : Outcome (bool * Memory * World) :=
  match map_get (BreakerWhitelist mem) cmd with
  | Some true => Returns (false, mem, wd)
  | _ =>
      match GetBreaker cmd b mem wd with
      | Returns (breaker, mem1, wd1) =>
          match IsAllowed_at breaker mem1 wd1 with
          | Returns (allowed, mem2, wd2) =>
              if negb allowed then Returns (true, mem2, wd2)
              else Returns (false, mem2, wd2)
          | Panics v => Panics v
          end
      | Panics v => Panics v
      end
  end.

End Registry.

(** A registry whose entries point into the heap. *)
Definition registry_ok (b : CircuitBreaker) (mem : Memory) : Prop :=
  forall cmd a,
    map_get (Breakers b) cmd = Some (Some a) ->
    (a < List.length (heap mem))%nat.


(** The options [GenBreaker] hands to [NewBreaker]. *)
Definition with_log (cmd : Z) (o : Options) : Options :=
  if is_nil (StateChangeHandler o) then
    mkOptions (BucketTime o) (BucketNums o) (BreakerRate o) (BreakerMinQPS o)
              (BreakerMinSamples o) (CoolingTimeout o) (DetectTimeout o)
              (HalfOpenSuccess o) (ShouldTrip o)
              (Some (log_state_change cmd)) (now o)
  else o.

(** * Lemmas *)

(** ** Elementary facts: machine integers, slices *)

Ltac zbool :=
  repeat match goal with
  | H : (_ >=? _) = _ |- _ => rewrite Z.geb_leb in H
  | H : (_ >? _) = _ |- _ => rewrite Z.gtb_ltb in H
  | H : (_ <=? _) = true |- _ => apply Z.leb_le in H
  | H : (_ <=? _) = false |- _ => apply Z.leb_gt in H
  | H : (_ <? _) = true |- _ => apply Z.ltb_lt in H
  | H : (_ <? _) = false |- _ => apply Z.ltb_ge in H
  | H : (_ =? _) = true |- _ => apply Z.eqb_eq in H
  | H : (_ =? _) = false |- _ => apply Z.eqb_neq in H
  end.

(** Side conditions on a concrete window or breaker. *)
Ltac by_evaluation :=
  unfold window_ok, in_int64; vm_compute;
  repeat split; solve [reflexivity | intro; discriminate].

Lemma wrap64_id (z : Z) : in_int64 z -> wrap64 z = z.
Proof.
  unfold in_int64, wrap64. intros H.
  rewrite Z.mod_small; lia.
Qed.

Lemma wrap64_range (z : Z) : in_int64 (wrap64 z).
Proof.
  unfold in_int64, wrap64.
  pose proof (Z.mod_pos_bound (z + 2 ^ 63) (2 ^ 64)). lia.
Qed.

Lemma wrap64_add_l (a b : Z) : wrap64 (wrap64 a + b) = wrap64 (a + b).
Proof.
  unfold wrap64.
  replace ((a + 2 ^ 63) mod 2 ^ 64 - 2 ^ 63 + b + 2 ^ 63)
    with ((a + 2 ^ 63) mod 2 ^ 64 + b) by lia.
  rewrite Zplus_mod_idemp_l. f_equal. f_equal. lia.
Qed.



Lemma index_Some_range {A} (l : list A) (i : Z) (x : A) :
  index l i = Some x -> 0 <= i < len l.
Proof.
  unfold index, len. destruct (i <? 0) eqn:E; [discriminate|].
  intros H. apply Z.ltb_ge in E.
  assert (Hn : nth_error l (Z.to_nat i) <> None) by congruence.
  apply nth_error_Some in Hn. lia.
Qed.

Lemma index_in_range {A} (l : list A) (i : Z) :
  0 <= i < len l -> exists x, index l i = Some x.
Proof.
  unfold index, len. intros H.
  destruct (i <? 0) eqn:E; [apply Z.ltb_lt in E; lia|].
  destruct (nth_error l (Z.to_nat i)) eqn:N; [eauto|].
  apply nth_error_None in N. lia.
Qed.

Lemma store_nat_length {A} (l : list A) (n : nat) (x : A) :
  List.length (store_nat l n x) = List.length l.
Proof.
  revert n. induction l as [|h t IH]; intros [|n]; simpl; auto.
Qed.

Lemma len_store {A} (l : list A) (i : Z) (x : A) : len (store l i x) = len l.
Proof.
  unfold len, store. destruct (i <? 0); [reflexivity|].
  now rewrite store_nat_length.
Qed.

Lemma nth_error_store_nat_same {A} (l : list A) (n : nat) (x : A) :
  (n < List.length l)%nat -> nth_error (store_nat l n x) n = Some x.
Proof.
  revert n. induction l as [|h t IH]; intros [|n] H; simpl in *;
    try lia; auto. apply IH. lia.
Qed.

Lemma nth_error_store_nat_other {A} (l : list A) (n m : nat) (x : A) :
  n <> m -> nth_error (store_nat l n x) m = nth_error l m.
Proof.
  revert n m. induction l as [|h t IH]; intros [|n] [|m] H; simpl;
    try congruence; auto.
Qed.

Lemma store_nat_same {A} (l : list A) (n : nat) (x : A) :
  nth_error l n = Some x -> store_nat l n x = l.
Proof.
  revert n. induction l as [|h t IH]; intros [|n] H; simpl in *;
    try congruence. f_equal. auto.
Qed.

Lemma index_store_same {A} (l : list A) (i : Z) (x : A) :
  0 <= i < len l -> index (store l i x) i = Some x.
Proof.
  unfold index, store, len. intros H.
  destruct (i <? 0) eqn:E; [apply Z.ltb_lt in E; lia|].
  apply nth_error_store_nat_same. lia.
Qed.

Lemma index_store_other {A} (l : list A) (i j : Z) (x : A) :
  i <> j -> index (store l i x) j = index l j.
Proof.
  unfold index, store. intros H.
  destruct (j <? 0) eqn:Ej; [reflexivity|].
  destruct (i <? 0) eqn:Ei; [reflexivity|].
  apply Z.ltb_ge in Ei, Ej.
  apply nth_error_store_nat_other. lia.
Qed.

Lemma store_same {A} (l : list A) (i : Z) (x : A) :
  index l i = Some x -> store l i x = l.
Proof.
  unfold index, store. destruct (i <? 0); [discriminate|].
  apply store_nat_same.
Qed.

Lemma len_repeat {A} (x : A) (n : Z) : 0 <= n -> len (repeat x (Z.to_nat n)) = n.
Proof.
  intros H. unfold len. rewrite repeat_length. lia.
Qed.

(** ** The window, call by call *)

Lemma at_bucket_gets {A} (f : bucket -> A) (i : Z) (w : window) (wd : World) :
  at_bucket i (gets f) w wd =
  match index (buckets w) i with
  | Some b => Ok (f b, w, wd)
  | None => Fault IndexOutOfRange
  end.
Proof.
  unfold at_bucket, gets. destruct (index (buckets w) i) eqn:E; [|reflexivity].
  rewrite (store_same _ _ _ E). destruct w; reflexivity.
Qed.

Lemma at_bucket_skip (i : Z) (w : window) (wd : World) :
  at_bucket i (fun (s : bucket) (wd0 : World) => Ok (tt, s, wd0)) w wd =
  match index (buckets w) i with
  | Some b => Ok (tt, w, wd)
  | None => Fault IndexOutOfRange
  end.
Proof. exact (at_bucket_gets (fun _ => tt) i w wd). Qed.

Lemma at_bucket_modify (f : bucket -> bucket) (i : Z) (w : window) (wd : World) :
  at_bucket i (modify f) w wd =
  match index (buckets w) i with
  | Some b => Ok (tt, set_buckets (store (buckets w) i (f b)) w, wd)
  | None => Fault IndexOutOfRange
  end.
Proof. reflexivity. Qed.

Lemma at_bucket_Reset (i : Z) (w : window) (wd : World) :
  at_bucket i bucket_Reset w wd =
  match index (buckets w) i with
  | Some _ =>
      Ok (tt, set_buckets
                (store (buckets w) i
                       (mkBucket 0 0 0 (wrap64 (wall wd (ticks wd))))) w,
          tick wd)
  | None => Fault IndexOutOfRange
  end.
Proof.
  unfold at_bucket. destruct (index (buckets w) i); reflexivity.
Qed.

Lemma window_Reset_eq (w : window) (wd : World) :
  window_Reset w wd =
  match index (buckets w) 0 with
  | Some _ =>
      Ok (tt, mkWindow 0 0
                (store (buckets w) 0
                       (mkBucket 0 0 0 (wrap64 (wall wd (ticks wd)))))
                (bucketTime w) (bucketNums w) (expireTime w) 1 0,
          tick wd)
  | None => Fault IndexOutOfRange
  end.
Proof.
  unfold window_Reset, bind, modify, gets. simpl.
  rewrite at_bucket_Reset. simpl.
  destruct (index (buckets w) 0); reflexivity.
Qed.

Lemma window_latestBucket_eq (w : window) (wd : World) :
  window_latestBucket w wd =
  match index (buckets w) (latest w) with
  | None => Fault IndexOutOfRange
  | Some b =>
      if wrap64 (timeStamp b + bucketTime w) <=? wrap64 (wall wd (ticks wd))
      then
        match index (buckets w) (next (bucketNums w) (latest w)) with
        | None => Fault IndexOutOfRange
        | Some _ =>
            Ok (next (bucketNums w) (latest w),
                advance (wrap64 (wall wd (Datatypes.S (ticks wd)))) w,
                tick (tick wd))
        end
      else Ok (latest w, w, tick wd)
  end.
Proof.
  unfold window_latestBucket.
  unfold bind at 1. unfold gets at 1.
  unfold bind at 1. unfold bucket_TimeStamp. rewrite at_bucket_gets.
  destruct (index (buckets w) (latest w)) as [b|] eqn:Eb; [|reflexivity].
  unfold bind at 1. unfold time_Now at 1.
  unfold bind at 1. unfold gets at 1.
  unfold Time_UnixNano.
  destruct (wrap64 (timeStamp b + bucketTime w) <=? wrap64 (wall wd (ticks wd))) eqn:Ex.
  - unfold bind, modify, gets, ret. simpl.
    unfold advance, next.
    destruct (wrap64 (latest w + 1) >=? bucketNums w) eqn:E1; simpl;
      destruct (inWindow w =? bucketNums w) eqn:E2; simpl;
      try (destruct (wrap64 (oldest w + 1) >=? bucketNums w) eqn:E3; simpl);
      rewrite at_bucket_Reset; simpl;
      match goal with
      | |- context [index (buckets w) ?i] =>
          destruct (index (buckets w) i) as [b0|] eqn:E0; [|reflexivity]
      end;
      rewrite at_bucket_skip; simpl;
      rewrite index_store_same by (eapply index_Some_range; eassumption);
      reflexivity.
  - unfold bind, ret, gets. rewrite at_bucket_skip. 
    rewrite Eb. reflexivity.
Qed.

Lemma expire_loop_eq (now : Z) (n : nat) (w : window) (wd : World) :
  expire_loop now n w wd =
  match expire_pure now n w with
  | Some w' => Ok (tt, w', wd)
  | None => Fault IndexOutOfRange
  end.
Proof.
  revert w. induction n as [|n IH]; intros w; [reflexivity|].
  simpl. unfold bind at 1. unfold gets at 1.
  destruct (inWindow w >? 0); [|reflexivity].
  unfold bind at 1. unfold gets at 1.
  unfold bind at 1. unfold bucket_TimeStamp. rewrite at_bucket_gets.
  destruct (index (buckets w) (oldest w)) as [b|]; [|reflexivity].
  unfold bind at 1. unfold gets at 1.
  destruct (wrap64 (timeStamp b + expireTime w) <=? now); [|reflexivity].
  unfold bind, modify, gets, ret. simpl. unfold next_eq.
  destruct (wrap64 (oldest w + 1) =? bucketNums w); simpl; rewrite IH;
    reflexivity.
Qed.

(** The count of turns given to the loop of [expire] is enough: with more
    turns allowed it does the same. *)
Lemma expire_pure_enough (now : Z) (n m : nat) (w : window) :
  in_int64 (inWindow w) -> (Z.to_nat (inWindow w) <= n)%nat ->
  expire_pure now (n + m) w = expire_pure now n w.
Proof.
  revert w. induction n as [|n IH]; intros w Hr Hn.
  - destruct m as [|m]; [reflexivity|]. simpl.
    destruct (inWindow w >? 0) eqn:E; zbool; [lia | reflexivity].
  - simpl. destruct (inWindow w >? 0) eqn:E; zbool; [|reflexivity].
    destruct (index (buckets w) (oldest w)) as [b|]; [|reflexivity].
    destruct (wrap64 (timeStamp b + expireTime w) <=? now); [|reflexivity].
    apply IH; simpl.
    + apply wrap64_range.
    + rewrite wrap64_id by (unfold in_int64 in *; lia). lia.
Qed.

Lemma window_expire_eq (w : window) (wd : World) :
  window_expire w wd =
  match expire_pure (wrap64 (wall wd (ticks wd))) (Z.to_nat (inWindow w)) w with
  | Some w' => Ok ((oldest w', inWindow w'), w', tick wd)
  | None => Fault IndexOutOfRange
  end.
Proof.
  unfold window_expire, bind, time_Now, gets, Time_UnixNano.
  rewrite expire_loop_eq.
  destruct (expire_pure _ _ w); reflexivity.
Qed.

Lemma Counts_loop_eq (n : nat) (o : Z) (acc : Z * Z * Z) (w : window) (wd : World) :
  Counts_loop n o acc w wd =
  match sum_ring (buckets w) (bucketNums w) n o acc with
  | Some r => Ok (r, w, wd)
  | None => Fault IndexOutOfRange
  end.
Proof.
  revert o acc. induction n as [|n IH]; intros o acc; [reflexivity|].
  simpl. destruct acc as [[s f] t].
  unfold bind at 1. unfold bucket_Timeouts. rewrite at_bucket_gets.
  destruct (index (buckets w) o) as [b|] eqn:Eb; [|reflexivity].
  unfold bind at 1. unfold bucket_Successes. rewrite at_bucket_gets, Eb.
  unfold bind at 1. unfold bucket_Failures. rewrite at_bucket_gets, Eb.
  unfold bind at 1. unfold gets at 1.
  rewrite IH. reflexivity.
Qed.

Lemma window_Counts_eq (w : window) (wd : World) :
  window_Counts w wd =
  match expire_pure (wrap64 (wall wd (ticks wd))) (Z.to_nat (inWindow w)) w with
  | Some w' =>
      match sum_ring (buckets w') (bucketNums w') (Z.to_nat (inWindow w'))
                     (oldest w') (0, 0, 0) with
      | Some r => Ok (r, w', tick wd)
      | None => Fault IndexOutOfRange
      end
  | None => Fault IndexOutOfRange
  end.
Proof.
  unfold window_Counts, bind. rewrite window_expire_eq.
  destruct (expire_pure _ _ w) as [w'|]; [|reflexivity].
  apply Counts_loop_eq.
Qed.

(** ** Well-formed windows stay well formed and never panic *)

Lemma next_range (bn i : Z) :
  0 < bn < 2 ^ 63 -> 0 <= i < bn -> 0 <= next bn i < bn.
Proof.
  intros Hb Hi. unfold next.
  rewrite wrap64_id by (unfold in_int64; lia).
  destruct (i + 1 >=? bn) eqn:E; zbool; lia.
Qed.

Lemma next_eq_next (bn i : Z) :
  0 < bn < 2 ^ 63 -> 0 <= i < bn -> next_eq bn i = next bn i.
Proof.
  intros Hb Hi. unfold next, next_eq.
  rewrite wrap64_id by (unfold in_int64; lia).
  destruct (i + 1 =? bn) eqn:E1, (i + 1 >=? bn) eqn:E2; try reflexivity;
    zbool; lia.
Qed.

Lemma next_spec (bn i : Z) :
  0 < bn < 2 ^ 63 -> 0 <= i < bn -> next bn i = (i + 1) mod bn.
Proof.
  intros Hb Hi. unfold next.
  rewrite wrap64_id by (unfold in_int64; lia).
  destruct (i + 1 >=? bn) eqn:E; zbool.
  - replace (i + 1) with bn by lia. now rewrite Z.mod_same by lia.
  - rewrite Z.mod_small; lia.
Qed.

Lemma same_ring_refl (w : window) : same_ring w w.
Proof. unfold same_ring; tauto. Qed.

Lemma same_ring_trans (w1 w2 w3 : window) :
  same_ring w1 w2 -> same_ring w2 w3 -> same_ring w1 w3.
Proof. unfold same_ring; intuition congruence. Qed.

Lemma expire_pure_ok (now : Z) (n : nat) (w : window) :
  window_ok w ->
  exists w', expire_pure now n w = Some w' /\ window_ok w' /\ same_ring w w' /\
             inWindow w' <= inWindow w.
Proof.
  revert w. induction n as [|n IH]; intros w Hok.
  - exists w. simpl. auto using same_ring_refl with zarith.
  - simpl. destruct (inWindow w >? 0) eqn:Ei.
    2:{ exists w. auto using same_ring_refl with zarith. }
    destruct Hok as (Hl & Hb & Ho & Hla & Hi). zbool.
    destruct (index_in_range (buckets w) (oldest w)) as [b Eb]; [lia|].
    rewrite Eb.
    destruct (wrap64 (timeStamp b + expireTime w) <=? now).
    2:{ exists w. unfold window_ok. auto 10 using same_ring_refl with zarith. }
    destruct (IH (mkWindow (next_eq (bucketNums w) (oldest w)) (latest w)
                          (buckets w) (bucketTime w) (bucketNums w)
                          (expireTime w) (wrap64 (inWindow w - 1)) (conseErr w)))
      as (w' & E & Hok' & Hs & Hle).
    { unfold window_ok; simpl.
      rewrite next_eq_next by lia.
      rewrite wrap64_id by (unfold in_int64; lia).
      pose proof (next_range _ _ Hb Ho). lia. }
    exists w'. split; [exact E|]. split; [exact Hok'|]. split.
    + unfold same_ring in *; simpl in *. tauto.
    + simpl in Hle. rewrite wrap64_id in Hle by (unfold in_int64; lia). lia.
Qed.

Lemma sum_ring_total (bs : list bucket) (bn : Z) (n : nat) (o : Z) (acc : Z * Z * Z) :
  len bs = bn -> 0 < bn < 2 ^ 63 -> 0 <= o < bn ->
  exists r, sum_ring bs bn n o acc = Some r.
Proof.
  intros Hl Hb. revert o acc. induction n as [|n IH]; intros o acc Ho.
  - simpl; eauto.
  - simpl. destruct (index_in_range bs o) as [b Eb]; [lia|]. rewrite Eb.
    destruct acc as [[s f] t]. apply IH. apply next_range; assumption.
Qed.

Lemma window_Counts_ok (w : window) (wd : World) :
  window_ok w ->
  exists r w', window_Counts w wd = Ok (r, w', tick wd) /\
               window_ok w' /\ same_ring w w' /\ inWindow w' <= inWindow w.
Proof.
  intros Hok. rewrite window_Counts_eq.
  destruct (expire_pure_ok (wrap64 (wall wd (ticks wd)))
                           (Z.to_nat (inWindow w)) w Hok)
    as (w' & E & Hok' & Hs & Hle).
  rewrite E.
  destruct Hok' as (Hl & Hb & Ho & Hla & Hi).
  destruct (sum_ring_total (buckets w') (bucketNums w') (Z.to_nat (inWindow w'))
                          (oldest w') (0, 0, 0) Hl Hb Ho)
    as [r Er].
  rewrite Er. exists r, w'. unfold window_ok. auto 10.
Qed.

Lemma window_Reset_ok (w : window) (wd : World) :
  window_ok w ->
  exists w', window_Reset w wd = Ok (tt, w', tick wd) /\ window_ok w' /\
             oldest w' = 0 /\ latest w' = 0 /\ inWindow w' = 1 /\
             conseErr w' = 0 /\
             index (buckets w') 0 =
               Some (mkBucket 0 0 0 (wrap64 (wall wd (ticks wd)))) /\
             bucketTime w' = bucketTime w /\ bucketNums w' = bucketNums w /\
             expireTime w' = expireTime w.
Proof.
  intros (Hl & Hb & Ho & Hla & Hi). rewrite window_Reset_eq.
  destruct (index_in_range (buckets w) 0) as [b Eb]; [lia|]. rewrite Eb.
  eexists. split; [reflexivity|]. unfold window_ok; simpl.
  rewrite len_store, index_store_same by lia. 
  repeat split; try lia.
Qed.

Lemma window_record_ok (f : bucket -> bucket) (g : Z -> Z) (w : window) (wd : World) :
  window_ok w ->
  exists l b w' wd',
    writable w wd = Some (l, b) /\
    (b <- window_latestBucket;;
     modify (fun w => set_conseErr (g (conseErr w)) w);;
     at_bucket b (modify f)) w wd = Ok (tt, w', wd') /\
    recorded w l (f b) (g (conseErr w)) w' /\
    notified wd' = notified wd /\ wall wd' = wall wd.
Proof.
  intros Hok. pose proof Hok as (Hl & Hb & Ho & Hla & Hi).
  unfold bind at 1. rewrite window_latestBucket_eq. unfold writable.
  destruct (index_in_range (buckets w) (latest w)) as [b Eb]; [lia|]. rewrite Eb.
  destruct (wrap64 (timeStamp b + bucketTime w) <=? wrap64 (wall wd (ticks wd))).
  - pose proof (next_range _ _ Hb Hla) as Hn.
    pose proof (next_range _ _ Hb Ho) as Hn'.
    destruct (index_in_range (buckets w) (next (bucketNums w) (latest w)))
      as [b' Eb']; [lia|]. rewrite Eb'.
    unfold bind, modify, at_bucket. simpl.
    rewrite index_store_same by lia.
    do 4 eexists. split; [reflexivity|]. split; [reflexivity|].
    split; [|simpl; auto].
    unfold recorded, window_ok; simpl. rewrite !len_store.
    rewrite index_store_same by (rewrite len_store; lia).
    repeat split; try lia.
    + destruct (inWindow w =? bucketNums w); lia.
    + destruct (inWindow w =? bucketNums w); lia.
    + destruct (inWindow w =? bucketNums w) eqn:E; zbool; [lia|].
      rewrite wrap64_id by (unfold in_int64; lia). lia.
    + destruct (inWindow w =? bucketNums w) eqn:E; zbool; [lia|].
      rewrite wrap64_id by (unfold in_int64; lia). lia.
    + intros j Hj. rewrite !index_store_other by congruence. reflexivity.
  - unfold bind, modify, at_bucket. simpl. rewrite Eb.
    do 4 eexists. split; [reflexivity|]. split; [reflexivity|].
    split; [|simpl; auto].
    unfold recorded, window_ok; simpl. rewrite !len_store.
    rewrite index_store_same by lia.
    repeat split; try lia.
    intros j Hj. rewrite !index_store_other by congruence. reflexivity.
Qed.

Lemma window_Fail_ok (w : window) (wd : World) :
  window_ok w ->
  exists l b w' wd',
    writable w wd = Some (l, b) /\
    window_Fail w wd = Ok (tt, w', wd') /\
    recorded w l (bump_failure b) (wrap64 (conseErr w + 1)) w' /\
    notified wd' = notified wd /\ wall wd' = wall wd.
Proof.
  exact (window_record_ok
           (fun b => mkBucket (wrap64 (failure b + 1)) (success b) (timeout b)
                              (timeStamp b))
           (fun c => wrap64 (c + 1)) w wd).
Qed.

Lemma window_Timeout_ok (w : window) (wd : World) :
  window_ok w ->
  exists l b w' wd',
    writable w wd = Some (l, b) /\
    window_Timeout w wd = Ok (tt, w', wd') /\
    recorded w l (bump_timeout b) (wrap64 (conseErr w + 1)) w' /\
    notified wd' = notified wd /\ wall wd' = wall wd.
Proof.
  exact (window_record_ok
           (fun b => mkBucket (failure b) (success b) (wrap64 (timeout b + 1))
                              (timeStamp b))
           (fun c => wrap64 (c + 1)) w wd).
Qed.

Lemma window_Succeed_ok (w : window) (wd : World) :
  window_ok w ->
  exists l b w' wd',
    writable w wd = Some (l, b) /\
    window_Succeed w wd = Ok (tt, w', wd') /\
    recorded w l (bump_success b) 0 w' /\
    notified wd' = notified wd /\ wall wd' = wall wd.
Proof.
  exact (window_record_ok
           (fun b => mkBucket (failure b) (wrap64 (success b + 1)) (timeout b)
                              (timeStamp b))
           (fun _ => 0) w wd).
Qed.

(** Every method of the container returns, on a well-formed window, and
    leaves it well formed; none touches the record of notifications or the
    clock's readings to come. *)
Lemma window_call_ok (R : Type) (m : method R) (w : window) (wd : World) :
  window_ok w ->
  exists r w' wd', window_call R m w wd = Ok (r, w', wd') /\ window_ok w' /\
                   bucketNums w' = bucketNums w /\
                   notified wd' = notified wd /\ wall wd' = wall wd.
Proof.
  intros Hok.
  assert (HC : forall A (k : Z * Z * Z -> M window A),
             (forall x w0 wd0, exists a, k x w0 wd0 = Ok (a, w0, wd0)) ->
             exists r w' wd',
               bind window_Counts k w wd = Ok (r, w', wd') /\
               window_ok w' /\ bucketNums w' = bucketNums w /\
               notified wd' = notified wd /\ wall wd' = wall wd).
  { intros A k Hk. unfold bind.
    destruct (window_Counts_ok w wd Hok) as (r & w' & E & Hok' & Hs & _).
    rewrite E. destruct (Hk r w' (tick wd)) as [a Ea].
    exists a, w', (tick wd). unfold same_ring in Hs.
    simpl; intuition. }
  destruct m; simpl.
  - destruct (window_Fail_ok w wd Hok) as (l & b & w' & wd' & _ & E & Hr & H1 & H2).
    exists tt, w', wd'. unfold recorded in Hr. intuition.
  - destruct (window_Succeed_ok w wd Hok) as (l & b & w' & wd' & _ & E & Hr & H1 & H2).
    exists tt, w', wd'. unfold recorded in Hr. intuition.
  - destruct (window_Timeout_ok w wd Hok) as (l & b & w' & wd' & _ & E & Hr & H1 & H2).
    exists tt, w', wd'. unfold recorded in Hr. intuition.
  - apply HC. intros [[s f] t] w0 wd0. eexists; reflexivity.
  - apply HC. intros [[s f] t] w0 wd0. eexists; reflexivity.
  - apply HC. intros [[s f] t] w0 wd0. eexists; reflexivity.
  - exists (conseErr w), w, wd. auto.
  - apply HC. intros [[s f] t] w0 wd0.
    destruct (wrap64 (wrap64 (s + f) + t) =? 0); eexists; reflexivity.
  - apply HC. intros [[s f] t] w0 wd0. eexists; reflexivity.
  - destruct (window_Counts_ok w wd Hok) as (r & w' & E & Hok' & Hs & _).
    exists r, w', (tick wd). unfold same_ring in Hs. simpl; intuition.
  - destruct (window_Reset_ok w wd Hok) as (w' & E & Hok' & Hr).
    exists tt, w', (tick wd). simpl; intuition.
Qed.

Lemma run_methods_ok (ms : list any_method) (w : window) (wd : World) :
  window_ok w ->
  exists w' wd', run_methods ms w wd = Ok (tt, w', wd') /\ window_ok w' /\
                 bucketNums w' = bucketNums w.
Proof.
  revert w wd. induction ms as [|[R m] ms IH]; intros w wd Hok.
  - exists w, wd. auto.
  - simpl. unfold bind.
    destruct (window_call_ok R m w wd Hok) as (r & w1 & wd1 & E & Hok1 & Hb & _).
    rewrite E. destruct (IH w1 wd1 Hok1) as (w' & wd' & E' & Hok' & Hb').
    exists w', wd'. intuition congruence.
Qed.

Lemma NewWindowWithOptions_eq (bt bn : Z) (wd : World) :
  NewWindowWithOptions bt bn tt wd =
  if bn <? 100 then Ok (Error "BucketNums can't be less than 100", tt, wd)
  else Ok (Value (mkWindow 0 0
                    (store (repeat new_bucket (Z.to_nat bn)) 0
                           (mkBucket 0 0 0 (wrap64 (wall wd (ticks wd)))))
                    bt bn (wrap64 (bt * bn)) 1 0),
           tt, tick wd).
Proof.
  unfold NewWindowWithOptions. destruct (bn <? 100) eqn:E; [reflexivity|].
  rewrite window_Reset_eq. simpl. zbool.
  destruct (index_in_range (repeat new_bucket (Z.to_nat bn)) 0) as [b Eb].
  { rewrite len_repeat; lia. }
  rewrite Eb. reflexivity.
Qed.

Lemma NewWindowWithOptions_ok (bt bn : Z) (wd : World) (w : window) (wd' : World) :
  in_int64 bn ->
  NewWindowWithOptions bt bn tt wd = Ok (Value w, tt, wd') ->
  window_ok w /\ bucketNums w = bn /\ 100 <= bn.
Proof.
  intros Hr. rewrite NewWindowWithOptions_eq.
  destruct (bn <? 100) eqn:E; [discriminate|]. zbool.
  intros H. injection H as <- _. unfold window_ok, in_int64 in *; simpl.
  rewrite len_store, len_repeat by lia. lia.
Qed.

(** Callbacks on the window. *)
Lemma run_prog_window_ok {A} (p : Prog A) (w : window) (wd : World) :
  window_ok w ->
  exists r w' wd', run_prog window_call p w wd = Ok (r, w', wd') /\
                   window_ok w' /\ bucketNums w' = bucketNums w /\
                   notified wd' = notified wd /\ wall wd' = wall wd.
Proof.
  revert w wd. induction p as [a|R m k IH]; intros w wd Hok.
  - exists a, w, wd. simpl. auto.
  - simpl. unfold bind.
    destruct (window_call_ok R m w wd Hok)
      as (r & w1 & wd1 & E & Hok1 & Hb & Hn & Hw).
    rewrite E. destruct (IH r w1 wd1 Hok1) as (r' & w' & wd' & E' & Hok' & Hb' & Hn' & Hw').
    exists r', w', wd'. intuition congruence.
Qed.

Lemma window_call_read (R : Type) (m : method R) (w : window) (wd : World) :
  window_ok w -> is_read R m = true ->
  exists r w' wd', window_call R m w wd = Ok (r, w', wd') /\ window_ok w' /\
                   same_ring w w' /\
                   notified wd' = notified wd /\ wall wd' = wall wd.
Proof.
  intros Hok.
  assert (HC : forall A (k : Z * Z * Z -> M window A),
             (forall x w0 wd0, exists a, k x w0 wd0 = Ok (a, w0, wd0)) ->
             exists r w' wd',
               bind window_Counts k w wd = Ok (r, w', wd') /\
               window_ok w' /\ same_ring w w' /\
               notified wd' = notified wd /\ wall wd' = wall wd).
  { intros A k Hk. unfold bind.
    destruct (window_Counts_ok w wd Hok) as (r & w' & E & Hok' & Hs & _).
    rewrite E. destruct (Hk r w' (tick wd)) as [a Ea].
    exists a, w', (tick wd). simpl; intuition. }
  destruct m; simpl; try discriminate; intros _.
  - apply HC. intros [[s f] t] w0 wd0. eexists; reflexivity.
  - apply HC. intros [[s f] t] w0 wd0. eexists; reflexivity.
  - apply HC. intros [[s f] t] w0 wd0. eexists; reflexivity.
  - exists (conseErr w), w, wd. auto using same_ring_refl.
  - apply HC. intros [[s f] t] w0 wd0.
    destruct (wrap64 (wrap64 (s + f) + t) =? 0); eexists; reflexivity.
  - apply HC. intros [[s f] t] w0 wd0. eexists; reflexivity.
  - destruct (window_Counts_ok w wd Hok) as (r & w' & E & Hok' & Hs & _).
    exists r, w', (tick wd). simpl; intuition.
Qed.

Lemma run_prog_window_read {A} (p : Prog A) (w : window) (wd : World) :
  window_ok w -> read_only p ->
  exists r w' wd', run_prog window_call p w wd = Ok (r, w', wd') /\
                   window_ok w' /\ same_ring w w' /\
                   notified wd' = notified wd /\ wall wd' = wall wd.
Proof.
  revert w wd. induction p as [a|R m k IH]; intros w wd Hok Hro.
  - exists a, w, wd. simpl. auto using same_ring_refl.
  - simpl. unfold bind. destruct Hro as [Hm Hk].
    destruct (window_call_read R m w wd Hok Hm)
      as (r & w1 & wd1 & E & Hok1 & Hs & Hn & Hw).
    rewrite E.
    destruct (IH r w1 wd1 Hok1 (Hk r))
      as (r' & w' & wd' & E' & Hok' & Hs' & Hn' & Hw').
    exists r', w', wd'.
    split; [exact E'|]. split; [exact Hok'|].
    split; [eapply same_ring_trans; eassumption|]. split; congruence.
Qed.

(** ** The breaker, call by call *)

Lemma set_Container_same (b : Breaker) : set_Container b (Container b) = b.
Proof. destruct b; reflexivity. Qed.

Lemma on_Container_eq {A} (m : M window A) (b : Breaker) (wd : World) :
  on_Container m b wd =
  match m (Container b) wd with
  | Ok (a, w', wd') => Ok (a, set_Container b w', wd')
  | Fault f => Fault f
  end.
Proof. reflexivity. Qed.

Lemma Breaker_call_read (R : Type) (m : method R) (b : Breaker) (wd : World) :
  is_read R m = true ->
  Breaker_call R m b wd = on_Container (window_call R m) b wd.
Proof. destruct m; simpl; try discriminate; reflexivity. Qed.

Lemma Breaker_call_write (R : Type) (m : method R) (b : Breaker) (wd : World) :
  is_read R m = false -> Breaker_call R m b wd = Fault Deadlock.
Proof. destruct m; simpl; try discriminate; reflexivity. Qed.

(** A trip predicate that only reads returns, and leaves the ring alone. *)
Lemma run_prog_Breaker_read {A} (p : Prog A) (b : Breaker) (wd : World) :
  window_ok (Container b) -> read_only p ->
  exists r w' wd',
    run_prog Breaker_call p b wd = Ok (r, set_Container b w', wd') /\
    window_ok w' /\ same_ring (Container b) w' /\
    notified wd' = notified wd /\ wall wd' = wall wd.
Proof.
  revert b wd. induction p as [a|R m k IH]; intros b wd Hok Hro.
  - exists a, (Container b), wd. simpl. rewrite set_Container_same.
    auto using same_ring_refl.
  - simpl. unfold bind. destruct Hro as [Hm Hk].
    rewrite Breaker_call_read, on_Container_eq by exact Hm.
    destruct (window_call_read R m (Container b) wd Hok Hm)
      as (r & w1 & wd1 & E & Hok1 & Hs & Hn & Hw).
    rewrite E.
    destruct (IH r (set_Container b w1) wd1 Hok1 (Hk r))
      as (r' & w' & wd' & E' & Hok' & Hs' & Hn' & Hw').
    exists r', w', wd'.
    split; [exact E'|]. split; [exact Hok'|].
    split; [eapply same_ring_trans; eassumption|]. split; congruence.
Qed.

(** Whatever a trip predicate does, if it returns the breaker differs by
    its container only, which is well formed. *)
Lemma run_prog_Breaker_any {A} (p : Prog A) (b : Breaker) (wd : World)
      (r : A) (b' : Breaker) (wd' : World) :
  window_ok (Container b) ->
  run_prog Breaker_call p b wd = Ok (r, b', wd') ->
  exists w', b' = set_Container b w' /\ window_ok w' /\
             bucketNums w' = bucketNums (Container b) /\
             notified wd' = notified wd /\ wall wd' = wall wd.
Proof.
  revert b wd. induction p as [a|R m k IH]; intros b wd Hok.
  - simpl. intros H. injection H as <- <- <-. exists (Container b).
    rewrite set_Container_same. auto.
  - simpl. unfold bind. destruct (is_read R m) eqn:Hm.
    + rewrite Breaker_call_read, on_Container_eq by exact Hm.
      destruct (window_call_read R m (Container b) wd Hok Hm)
        as (r1 & w1 & wd1 & E & Hok1 & Hs & Hn & Hw).
      rewrite E. intros H.
      destruct (IH r1 (set_Container b w1) wd1 Hok1 H)
        as (w' & -> & Hok' & Hb' & Hn' & Hw').
      exists w'. unfold same_ring in Hs. simpl in *.
      intuition congruence.
    + rewrite Breaker_call_write by exact Hm. discriminate.
Qed.

Lemma notify_eq (oldState newState : State) (b : Breaker) (wd : World) :
  notify oldState newState b wd =
  match StateChangeHandler (options b) with
  | None => Ok (tt, b, wd)
  | Some f =>
      match run_prog window_call (f oldState newState) (Container b)
                     (mkWorld (wall wd) (ticks wd)
                              ((oldState, newState) :: notified wd)) with
      | Ok (_, w', wd') => Ok (tt, set_Container b w', wd')
      | Fault f => Fault f
      end
  end.
Proof.
  unfold notify, bind, gets.
  destruct (StateChangeHandler (options b)) as [f|]; simpl; [|reflexivity].
  unfold bind. rewrite on_Container_eq.
  destruct (run_prog window_call (f oldState newState) (Container b) _)
    as [[[[] w'] wd']|]; reflexivity.
Qed.

Lemma notify_ok (oldState newState : State) (b : Breaker) (wd : World) :
  window_ok (Container b) ->
  exists w' wd',
    notify oldState newState b wd = Ok (tt, set_Container b w', wd') /\
    window_ok w' /\ bucketNums w' = bucketNums (Container b) /\
    notified wd' =
      (if is_nil (StateChangeHandler (options b)) then notified wd
       else (oldState, newState) :: notified wd) /\
    wall wd' = wall wd /\
    (read_only_handler (StateChangeHandler (options b)) ->
     same_ring (Container b) w').
Proof.
  intros Hok. rewrite notify_eq.
  destruct (StateChangeHandler (options b)) as [f|] eqn:Eh; simpl.
  - destruct (run_prog_window_ok (f oldState newState) (Container b)
                (mkWorld (wall wd) (ticks wd) ((oldState, newState) :: notified wd))
                Hok)
      as ([] & w' & wd' & E & Hok' & Hb & Hn & Hw).
    rewrite E. exists w', wd'. simpl in *.
    split; [reflexivity|]. split; [exact Hok'|]. split; [exact Hb|].
    split; [exact Hn|]. split; [exact Hw|].
    intros Hro.
    destruct (run_prog_window_read (f oldState newState) (Container b)
                (mkWorld (wall wd) (ticks wd) ((oldState, newState) :: notified wd))
                Hok (Hro _ _))
      as ([] & w2 & wd2 & E2 & _ & Hs & _).
    rewrite E in E2. injection E2 as -> _. exact Hs.
  - exists (Container b), wd. rewrite set_Container_same.
    auto 10 using same_ring_refl.
Qed.

(** The error path starts by recording into the container, whatever the
    state. *)
Lemma error_report_eq (isTimeout : bool) (own : option TripFunc) (b : Breaker)
      (wd : World) :
  error_report isTimeout own b wd =
  Breaker_error isTimeout
                (match own with
                 | None => ShouldTrip (options b)
                 | Some trip => trip
                 end) b wd.
Proof. destruct own, isTimeout; reflexivity. Qed.

Lemma error_records (isTimeout : bool) (b : Breaker) (wd : World) :
  window_ok (Container b) ->
  exists l bk w' wd',
    writable (Container b) wd = Some (l, bk) /\
    (if isTimeout then on_Container window_Timeout
     else on_Container window_Fail) b wd = Ok (tt, set_Container b w', wd') /\
    recorded (Container b) l (bump_error isTimeout bk)
             (wrap64 (conseErr (Container b) + 1)) w' /\
    notified wd' = notified wd /\ wall wd' = wall wd.
Proof.
  intros Hok. destruct isTimeout; rewrite on_Container_eq.
  - destruct (window_Timeout_ok (Container b) wd Hok)
      as (l & bk & w' & wd' & Hw & E & Hr & Hn).
    rewrite E. exists l, bk, w', wd'. auto.
  - destruct (window_Fail_ok (Container b) wd Hok)
      as (l & bk & w' & wd' & Hw & E & Hr & Hn).
    rewrite E. exists l, bk, w', wd'. auto.
Qed.

(** The three predicates of the library only read. *)
Lemma ThresholdTripFunc_read_only (threshold : Z) :
  read_only_trip (ThresholdTripFunc threshold).
Proof. simpl. intuition. Qed.

Lemma ConsecutiveTripFunc_read_only (threshold : Z) :
  read_only_trip (ConsecutiveTripFunc threshold).
Proof. simpl. intuition. Qed.

Lemma RateTripFunc_read_only (rate : float) (minSamples : Z) :
  read_only_trip (RateTripFunc rate minSamples).
Proof.
  unfold RateTripFunc, read_only_trip. cbn [read_only is_read].
  split; [reflexivity|]. intros r.
  destruct (r >=? minSamples); cbn [read_only is_read]; intuition.
Qed.

(** The error path, with callbacks that only read: it returns, and what it
    recorded is still in the current bucket when it does. *)
Lemma Breaker_error_read_only (isTimeout : bool) (trip : TripFunc) (b : Breaker)
      (wd : World) :
  window_ok (Container b) ->
  read_only_trip trip ->
  read_only_handler (StateChangeHandler (options b)) ->
  exists l bk w1 b' wd',
    writable (Container b) wd = Some (l, bk) /\
    Breaker_error isTimeout trip b wd = Ok (tt, b', wd') /\
    recorded (Container b) l (bump_error isTimeout bk)
             (wrap64 (conseErr (Container b) + 1)) w1 /\
    same_ring w1 (Container b') /\ window_ok (Container b').
Proof.
  intros Hok Htrip Hh.
  destruct (error_records isTimeout b wd Hok)
    as (l & bk & w1 & wd1 & Hw & E & Hr & Hn & _).
  exists l, bk, w1.
  assert (Hok1 : window_ok (Container (set_Container b w1))) by apply Hr.
  assert (Hh1 : read_only_handler
                  (StateChangeHandler (options (set_Container b w1))))
    by exact Hh.
  assert (Hnote : forall s t (b1 : Breaker) (wdx : World),
             window_ok (Container b1) ->
             read_only_handler (StateChangeHandler (options b1)) ->
             exists b2 wd2,
               (notify s t;;
                t0 <- time_Now;; modify (set_openTime t0);; modify (set_state OPEN))
                 b1 wdx = Ok (tt, b2, wd2) /\
               same_ring (Container b1) (Container b2) /\
               window_ok (Container b2)).
  { intros s t b1 wdx Hokx Hhx.
    destruct (notify_ok s t b1 wdx Hokx) as (w2 & wd2 & En & Hok2 & _ & _ & _ & Hs2).
    unfold bind at 1. rewrite En.
    eexists; eexists. split; [reflexivity|]. simpl. auto. }
  unfold Breaker_error. unfold bind at 1. rewrite E.
  unfold bind at 1. unfold gets at 1.
  change (state (set_Container b w1)) with (state b).
  destruct (state b).
  - exists (set_Container b w1), wd1. simpl.
    auto using same_ring_refl.
  - destruct (Hnote HALFOPEN OPEN (set_Container b w1) wd1 Hok1 Hh1)
      as (b2 & wd2 & E2 & Hs2 & Hok2).
    exists b2, wd2. auto.
  - destruct trip as [p|]; simpl.
    + destruct (run_prog_Breaker_read p (set_Container b w1) wd1 Hok1 Htrip)
        as (r & w2 & wd2 & E2 & Hok2 & Hs2 & _).
      unfold bind at 1. rewrite E2. simpl.
      destruct r.
      * destruct (Hnote CLOSED OPEN (set_Container b w2) wd2 Hok2 Hh)
          as (b3 & wd3 & E3 & Hs3 & Hok3).
        exists b3, wd3. split; [exact Hw|]. split; [exact E3|].
        split; [exact Hr|]. split; [|exact Hok3].
        eapply same_ring_trans; eassumption.
      * exists (set_Container b w2), wd2. simpl. auto.
    + exists (set_Container b w1), wd1. simpl.
      auto using same_ring_refl.
Qed.

(** ** Breakers made by [NewBreaker] keep a well-formed window *)

Lemma on_Container_call_ok (R : Type) (m : method R) (b : Breaker) (wd : World) :
  window_ok (Container b) ->
  exists r w' wd',
    on_Container (window_call R m) b wd = Ok (r, set_Container b w', wd') /\
    window_ok w'.
Proof.
  intros Hok. rewrite on_Container_eq.
  destruct (window_call_ok R m (Container b) wd Hok)
    as (r & w' & wd' & E & Hok' & _).
  rewrite E. exists r, w', wd'. auto.
Qed.

Lemma Breaker_error_ok (isTimeout : bool) (trip : TripFunc) (b : Breaker)
      (wd : World) (b' : Breaker) (wd' : World) :
  window_ok (Container b) ->
  Breaker_error isTimeout trip b wd = Ok (tt, b', wd') ->
  window_ok (Container b').
Proof.
  intros Hok.
  destruct (error_records isTimeout b wd Hok)
    as (l & bk & w1 & wd1 & Hw & E & Hr & Hn & _).
  assert (Hok1 : window_ok (Container (set_Container b w1))) by apply Hr.
  assert (Hnote : forall s t (b1 : Breaker) (wdx : World) b2 wd2,
             window_ok (Container b1) ->
             (notify s t;;
              t0 <- time_Now;; modify (set_openTime t0);; modify (set_state OPEN))
               b1 wdx = Ok (tt, b2, wd2) ->
             window_ok (Container b2)).
  { intros s t b1 wdx b2 wd2 Hokx.
    destruct (notify_ok s t b1 wdx Hokx) as (w2 & wdn & En & Hok2 & _).
    unfold bind at 1. rewrite En. unfold bind, time_Now, modify. simpl.
    intros H. injection H as <- _. exact Hok2. }
  unfold Breaker_error. unfold bind at 1. rewrite E.
  unfold bind at 1. unfold gets at 1.
  change (state (set_Container b w1)) with (state b).
  destruct (state b).
  - intros H. injection H as <- _. exact Hok1.
  - apply Hnote. exact Hok1.
  - destruct trip as [p|]; simpl.
    + unfold bind at 1.
      destruct (run_prog Breaker_call p (set_Container b w1) wd1)
        as [[[r b2] wd2]|] eqn:E2; [|discriminate].
      destruct (run_prog_Breaker_any p _ _ _ _ _ Hok1 E2)
        as (w2 & -> & Hok2 & _).
      destruct r.
      * apply Hnote. exact Hok2.
      * intros H. injection H as <- _. exact Hok2.
    + unfold bind, ret. intros H. injection H as <- _. exact Hok1.
Qed.

Lemma Breaker_Succeed_ok (b : Breaker) (wd : World) :
  window_ok (Container b) ->
  exists b' wd', Breaker_Succeed b wd = Ok (tt, b', wd') /\
                 window_ok (Container b').
Proof.
  intros Hok. unfold Breaker_Succeed. unfold bind at 1. unfold gets at 1.
  destruct (state b).
  - exists b, wd. auto.
  - unfold bind at 1. unfold modify at 1.
    unfold bind at 1. unfold gets at 1.
    unfold bind at 1. unfold gets at 1.
    match goal with |- context [if ?c then _ else _] => destruct c end.
    + set (b1 := set_halfopenSuccess (wrap64 (halfopenSuccess b + 1)) b).
      destruct (notify_ok HALFOPEN CLOSED b1 wd Hok)
        as (w1 & wd1 & En & Hok1 & _).
      unfold bind at 1. rewrite En.
      destruct (window_Reset_ok w1 wd1 Hok1) as (w2 & Er & Hok2 & _).
      unfold bind, modify. rewrite on_Container_eq. simpl. rewrite Er.
      eexists; eexists. split; [reflexivity|]. exact Hok2.
    + eexists; eexists. split; [reflexivity|]. exact Hok.
  - rewrite on_Container_eq.
    destruct (window_Succeed_ok (Container b) wd Hok)
      as (l & bk & w' & wd' & _ & E & Hr & _).
    rewrite E. exists (set_Container b w'), wd'. split; [reflexivity|]. apply Hr.
Qed.

Lemma Breaker_isAllowed_ok (b : Breaker) (wd : World) :
  exists r b' wd', Breaker_isAllowed b wd = Ok (r, b', wd') /\
                   Container b' = Container b.
Proof.
  unfold Breaker_isAllowed, bind, gets, time_Now, modify, ret.
  destruct (state b); simpl.
  - destruct (Time_After _ _); do 3 eexists; split; reflexivity.
  - destruct (Time_After _ _); do 3 eexists; split; reflexivity.
  - do 3 eexists; split; reflexivity.
Qed.

Lemma do_call_ok (c : call) (b : Breaker) (wd : World) (b' : Breaker)
      (wd' : World) :
  window_ok (Container b) ->
  do_call c b wd = Ok (tt, b', wd') ->
  window_ok (Container b').
Proof.
  intros Hok.
  assert (HR : forall R (m : method R),
             (_ <- on_Container (window_call R m);; ret tt) b wd =
             Ok (tt, b', wd') -> window_ok (Container b')).
  { intros R m. unfold bind.
    destruct (on_Container_call_ok R m b wd Hok) as (r & w1 & wd1 & E & Hok1).
    rewrite E. unfold ret. intros H. injection H as <- _. exact Hok1. }
  destruct c; simpl.
  - unfold bind, Breaker_IsAllowed.
    destruct (Breaker_isAllowed_ok b wd) as (r & b1 & wd1 & E & Hc).
    rewrite E. unfold ret. intros H. injection H as <- _. now rewrite Hc.
  - destruct (Breaker_Succeed_ok b wd Hok) as (b1 & wd1 & E & Hok1).
    rewrite E. intros H. injection H as <- _. exact Hok1.
  - unfold Breaker_Fail, bind, gets. apply Breaker_error_ok. exact Hok.
  - apply Breaker_error_ok. exact Hok.
  - unfold Breaker_Timeout, bind, gets. apply Breaker_error_ok. exact Hok.
  - apply Breaker_error_ok. exact Hok.
  - unfold bind, Breaker_State, gets, ret. intros H. injection H as <- _. exact Hok.
  - unfold Breaker_Reset, bind, modify. rewrite on_Container_eq.
    destruct (window_Reset_ok (Container b) wd Hok) as (w1 & E & Hok1 & _).
    rewrite E. simpl. intros H. injection H as <- _. exact Hok1.
  - exact (HR _ mFailures).
  - exact (HR _ mSuccesses).
  - exact (HR _ mTimeouts).
  - exact (HR _ mConsecutiveErrors).
  - exact (HR _ mErrorRate).
  - exact (HR _ mSamples).
  - exact (HR _ mCounts).
Qed.

Lemma run_calls_ok (cs : list call) (b : Breaker) (wd : World) (b' : Breaker)
      (wd' : World) :
  window_ok (Container b) ->
  run_calls cs b wd = Ok (tt, b', wd') ->
  window_ok (Container b').
Proof.
  revert b wd. induction cs as [|c cs IH]; intros b wd Hok; simpl.
  - unfold ret. intros H. injection H as <- _. exact Hok.
  - unfold bind. destruct (do_call c b wd) as [[[[] b1] wd1]|] eqn:E;
      [|discriminate].
    apply IH. eapply do_call_ok; eassumption.
Qed.

(** Each of the tests that open [NewBreaker], on the fields. *)
Ltac default_step f c := unfold f; simpl; destruct c; reflexivity.

Lemma default_now_eq (bt bn : Z) (r : float) (q ms ct dt hs : Z)
      (st : TripFunc) (h : StateChangeHandler_t) (n : Clock) :
  default_now (mkOptions bt bn r q ms ct dt hs st h n) =
  mkOptions bt bn r q ms ct dt hs st h (if is_nil n then Some time_Now else n).
Proof. default_step default_now (is_nil n). Qed.

Lemma default_BucketTime_eq (bt bn : Z) (r : float) (q ms ct dt hs : Z)
      (st : TripFunc) (h : StateChangeHandler_t) (n : Clock) :
  default_BucketTime (mkOptions bt bn r q ms ct dt hs st h n) =
  mkOptions (if bt <=? 0 then DEFAULT_BUCKET_TIME else bt) bn r q ms ct dt hs st h n.
Proof. default_step default_BucketTime (bt <=? 0). Qed.

Lemma default_BucketNums_eq (bt bn : Z) (r : float) (q ms ct dt hs : Z)
      (st : TripFunc) (h : StateChangeHandler_t) (n : Clock) :
  default_BucketNums (mkOptions bt bn r q ms ct dt hs st h n) =
  mkOptions bt (if bn <=? 0 then DEFAULT_BUCKET_NUMS else bn) r q ms ct dt hs st h n.
Proof. default_step default_BucketNums (bn <=? 0). Qed.

Lemma default_CoolingTimeout_eq (bt bn : Z) (r : float) (q ms ct dt hs : Z)
      (st : TripFunc) (h : StateChangeHandler_t) (n : Clock) :
  default_CoolingTimeout (mkOptions bt bn r q ms ct dt hs st h n) =
  mkOptions bt bn r q ms (if ct <=? 0 then DEFAULT_COOLING_TIMEOUT else ct) dt hs st h n.
Proof. default_step default_CoolingTimeout (ct <=? 0). Qed.

Lemma default_DetectTimeout_eq (bt bn : Z) (r : float) (q ms ct dt hs : Z)
      (st : TripFunc) (h : StateChangeHandler_t) (n : Clock) :
  default_DetectTimeout (mkOptions bt bn r q ms ct dt hs st h n) =
  mkOptions bt bn r q ms ct (if dt <=? 0 then DEFAULT_DETECT_TIMEOUT else dt) hs st h n.
Proof. default_step default_DetectTimeout (dt <=? 0). Qed.

Lemma default_HalfOpenSuccess_eq (bt bn : Z) (r : float) (q ms ct dt hs : Z)
      (st : TripFunc) (h : StateChangeHandler_t) (n : Clock) :
  default_HalfOpenSuccess (mkOptions bt bn r q ms ct dt hs st h n) =
  mkOptions bt bn r q ms ct dt (if hs <=? 0 then DEFAULT_HALFOPEN_SUCCESSES else hs) st h n.
Proof. default_step default_HalfOpenSuccess (hs <=? 0). Qed.

Lemma default_BreakerRate_eq (dr : float) (bt bn : Z) (r : float) (q ms ct dt hs : Z)
      (st : TripFunc) (h : StateChangeHandler_t) (n : Clock) :
  default_BreakerRate dr (mkOptions bt bn r q ms ct dt hs st h n) =
  mkOptions bt bn (if PrimFloat.leb r 0 then dr else r) q ms ct dt hs st h n.
Proof. default_step default_BreakerRate (PrimFloat.leb r 0). Qed.

Lemma default_BreakerMinSamples_eq (dm : Z) (bt bn : Z) (r : float) (q ms ct dt hs : Z)
      (st : TripFunc) (h : StateChangeHandler_t) (n : Clock) :
  default_BreakerMinSamples dm (mkOptions bt bn r q ms ct dt hs st h n) =
  mkOptions bt bn r q (if ms <=? 0 then dm else ms) ct dt hs st h n.
Proof. default_step default_BreakerMinSamples (ms <=? 0). Qed.

Lemma default_ShouldTrip_eq (bt bn : Z) (r : float) (q ms ct dt hs : Z)
      (st : TripFunc) (h : StateChangeHandler_t) (n : Clock) :
  default_ShouldTrip (mkOptions bt bn r q ms ct dt hs st h n) =
  mkOptions bt bn r q ms ct dt hs (if is_nil st then RateTripFunc r ms else st) h n.
Proof. default_step default_ShouldTrip (is_nil st). Qed.

(** The tests are independent of one another, but for the default
    predicate, which is built from the rate and the minimum of samples as
    they are after their own tests. *)
Lemma with_defaults_eq (dr : float) (dm : Z) (o : Options) :
  with_defaults dr dm o =
  let rate := if PrimFloat.leb (BreakerRate o) 0 then dr else BreakerRate o in
  let minSamples := if BreakerMinSamples o <=? 0 then dm else BreakerMinSamples o in
  mkOptions
    (if BucketTime o <=? 0 then DEFAULT_BUCKET_TIME else BucketTime o)
    (if BucketNums o <=? 0 then DEFAULT_BUCKET_NUMS else BucketNums o)
    rate
    (BreakerMinQPS o)
    minSamples
    (if CoolingTimeout o <=? 0 then DEFAULT_COOLING_TIMEOUT else CoolingTimeout o)
    (if DetectTimeout o <=? 0 then DEFAULT_DETECT_TIMEOUT else DetectTimeout o)
    (if HalfOpenSuccess o <=? 0 then DEFAULT_HALFOPEN_SUCCESSES
     else HalfOpenSuccess o)
    (if is_nil (ShouldTrip o) then RateTripFunc rate minSamples else ShouldTrip o)
    (StateChangeHandler o)
    (if is_nil (now o) then Some time_Now else now o).
Proof.
  destruct o as [bt bn r q ms ct dt hs st h n].
  unfold with_defaults.
  rewrite default_now_eq, default_BucketTime_eq, default_BucketNums_eq,
    default_CoolingTimeout_eq, default_DetectTimeout_eq,
    default_HalfOpenSuccess_eq, default_BreakerRate_eq,
    default_BreakerMinSamples_eq, default_ShouldTrip_eq.
  reflexivity.
Qed.

Lemma NewBreaker_ok (dr : float) (dm : Z) (o : Options) (wd : World)
      (b : Breaker) (wd' : World) :
  in_int64 (BucketNums o) ->
  NewBreaker dr dm o tt wd = Ok (Value b, tt, wd') ->
  window_ok (Container b) /\ state b = CLOSED.
Proof.
  intros Hr. unfold NewBreaker. unfold bind.
  assert (Hr' : in_int64 (BucketNums (with_defaults dr dm o))).
  { rewrite with_defaults_eq. cbn [BucketNums].
    destruct (BucketNums o <=? 0); [|exact Hr].
    unfold in_int64, DEFAULT_BUCKET_NUMS; lia. }
  destruct (NewWindowWithOptions (BucketTime (with_defaults dr dm o))
                                 (BucketNums (with_defaults dr dm o)) tt wd)
    as [[[[w|e] []] wd1]|] eqn:E; try discriminate.
  intros H. injection H as <- _.
  cbn [Container state]. split; [|reflexivity].
  eapply NewWindowWithOptions_ok; eassumption.
Qed.

Lemma and_then_Ok {S A} (r : Res (or_error S * unit * World)) (m : M S A)
      (a : A) (s : S) (wd : World) :
  and_then r m = Ok (a, s, wd) ->
  exists s0 wd0, r = Ok (Value s0, tt, wd0) /\ m s0 wd0 = Ok (a, s, wd).
Proof.
  destruct r as [[[[s0|e] []] wd0]|]; simpl; try discriminate.
  intros H. exists s0, wd0. auto.
Qed.

(** A reset window counts nothing, whenever it is asked. *)
Lemma window_Samples_after_Reset (w : window) (wd : World) :
  window_ok w -> oldest w = 0 -> inWindow w = 1 ->
  (exists ts, index (buckets w) 0 = Some (mkBucket 0 0 0 ts)) ->
  exists w', window_Samples w wd = Ok (0, w', tick wd).
Proof.
  intros Hok Ho Hi [ts Hb].
  unfold window_Samples, bind. rewrite window_Counts_eq.
  rewrite Hi. simpl. rewrite Hi, Ho, Hb. simpl.
  destruct (wrap64 (ts + expireTime w) <=? wrap64 (wall wd (ticks wd))).
  - simpl. eexists. reflexivity.
  - rewrite Hi, Ho. simpl. rewrite Hb. simpl. eexists. reflexivity.
Qed.

(** ** The ring *)

Lemma after_spec (bn o : Z) (n : nat) :
  0 < bn < 2 ^ 63 -> 0 <= o < bn -> after bn o n = (o + Z.of_nat n) mod bn.
Proof.
  intros Hb. revert o. induction n as [|n IH]; intros o Ho.
  - simpl. rewrite Z.add_0_r, Z.mod_small; lia.
  - cbn [after]. rewrite IH by (apply next_range; assumption).
    rewrite next_spec by assumption.
    rewrite Zplus_mod_idemp_l. f_equal. lia.
Qed.


Lemma after_next (bn o : Z) (n : nat) :
  next bn (after bn o n) = after bn o (Datatypes.S n).
Proof.
  revert o. induction n as [|n IH]; intros o; [reflexivity|].
  cbn [after]. rewrite IH. reflexivity.
Qed.

Lemma after_full (bn o : Z) :
  0 < bn < 2 ^ 63 -> 0 <= o < bn -> after bn o (Z.to_nat bn) = o.
Proof.
  intros Hb Ho. rewrite after_spec by assumption.
  rewrite Z2Nat.id by lia.
  rewrite <- (Z.mul_1_l bn) at 1. rewrite Z_mod_plus_full.
  apply Z.mod_small. lia.
Qed.




Lemma mod_shift_neq (bn o k n : Z) :
  0 < bn -> 0 <= k < n -> n < bn -> (o + n) mod bn <> (o + k) mod bn.
Proof.
  intros Hb Hk Hn E.
  assert (H : (n - k) mod bn = 0).
  { replace (n - k) with ((o + n) - (o + k)) by lia.
    rewrite Zminus_mod, E, Z.sub_diag. apply Z.mod_0_l. lia. }
  rewrite Z.mod_small in H; lia.
Qed.


(** ** Slots and what is stored in them *)








(** ** The invariant of the window under a clock that does not go back *)



















(** * The properties of the design document *)

(** ** Reports on an OPEN breaker *)

(** C1 (as the code has it).  A report on an OPEN breaker never changes the
    state, the timers, the probe count or the options, and notifies nobody.
    [Succeed] is ignored: the container is untouched.  [Fail], [Timeout],
    [FailWithTrip] and [TimeoutWithTrip] are still recorded by the
    container: the failure (timeout) counter of the current bucket and the
    streak of consecutive errors go up by one. *)
Theorem C1_reports_when_OPEN (b : Breaker) (wd : World) :
  state b = OPEN ->
  window_ok (Container b) ->
  Breaker_Succeed b wd = Ok (tt, b, wd) /\
  forall (isTimeout : bool) (own : option TripFunc),
  exists l bk w' wd',
    writable (Container b) wd = Some (l, bk) /\
    error_report isTimeout own b wd = Ok (tt, set_Container b w', wd') /\
    recorded (Container b) l (bump_error isTimeout bk)
             (wrap64 (conseErr (Container b) + 1)) w' /\
    notified wd' = notified wd.
Proof.
  intros Hs Hok. split.
  - unfold Breaker_Succeed, bind, gets. rewrite Hs. reflexivity.
  - intros isTimeout own. rewrite error_report_eq.
    destruct (error_records isTimeout b wd Hok)
      as (l & bk & w' & wd' & Hw & E & Hr & Hn & _).
    exists l, bk, w', wd'. split; [exact Hw|]. split; [|auto].
    unfold Breaker_error. unfold bind at 1. rewrite E.
    unfold bind, gets. simpl. rewrite Hs. reflexivity.
Qed.

(** On the tripped breaker, at t=0: [Succeed] changes nothing, [Fail] takes
    the failures of bucket 0 from 10 to 11. *)
Lemma C1_reports_when_OPEN_witness :
  Breaker_Succeed (breaker_of tripped) (mkWorld (fun _ => 0) 23 []) =
  Ok (tt, breaker_of tripped, mkWorld (fun _ => 0) 23 []) /\
  exists w' wd',
    Breaker_Fail (breaker_of tripped) (mkWorld (fun _ => 0) 23 []) =
    Ok (tt, set_Container (breaker_of tripped) w', wd') /\
    index (buckets w') 0 = Some (mkBucket 11 5 0 0).
Proof.
  assert (Hs : state (breaker_of tripped) = OPEN) by reflexivity.
  assert (Hok : window_ok (Container (breaker_of tripped))) by by_evaluation.
  destruct (C1_reports_when_OPEN (breaker_of tripped)
              (mkWorld (fun _ => 0) 23 []) Hs Hok) as [H1 H2].
  split; [exact H1|].
  destruct (H2 false None) as (l & bk & w' & wd' & Hw & E & Hr & _).
  exists w', wd'. split; [exact E|].
  injection Hw as <- <-. destruct Hr as (_ & _ & Hb & _). exact Hb.
Defined.

(** C1 fails as stated: a [Fail] reported to the OPEN breaker is forwarded
    to the container, where the failures of the current bucket go from 10
    to 11 and the streak from 10 to 11. *)
Lemma C1_counterexample :
  state (breaker_of tripped) = OPEN /\
  index (buckets (Container (breaker_of tripped))) 0 = Some (mkBucket 10 5 0 0) /\
  conseErr (Container (breaker_of tripped)) = 10 /\
  option_map (fun b => (state b, index (buckets (Container b)) 0,
                        conseErr (Container b)))
             (final_breaker
                (Breaker_Fail (breaker_of tripped) (mkWorld (fun _ => 0) 23 []))) =
  Some (OPEN, Some (mkBucket 11 5 0 0), 11).
Proof. vm_compute. repeat split. Qed.

(** ** Which reports reach the container *)

(** C2 (as the code has it).  With callbacks that take the container as the
    read-only view they are given, [Fail], [Timeout], [FailWithTrip] and
    [TimeoutWithTrip] record the outcome in every state: when the call
    returns, the current bucket holds what the write found there with the
    failure (timeout) counter one higher, and the streak is one higher.
    [Succeed] records in CLOSED only: in OPEN it does nothing, and in
    HALFOPEN, short of the closing probe, it counts the probe in
    [halfopenSuccess] and leaves the container alone. *)
Theorem C2_outcomes_recorded (b : Breaker) (wd : World) :
  window_ok (Container b) ->
  read_only_handler (StateChangeHandler (options b)) ->
  (forall (isTimeout : bool) (own : option TripFunc),
      read_only_trip (match own with
                      | None => ShouldTrip (options b)
                      | Some trip => trip
                      end) ->
      exists l bk b' wd',
        writable (Container b) wd = Some (l, bk) /\
        error_report isTimeout own b wd = Ok (tt, b', wd') /\
        latest (Container b') = l /\
        index (buckets (Container b')) l = Some (bump_error isTimeout bk) /\
        conseErr (Container b') = wrap64 (conseErr (Container b) + 1) /\
        (forall j, j <> l ->
                   index (buckets (Container b')) j =
                   index (buckets (Container b)) j)) /\
  (state b = CLOSED ->
   exists l bk w' wd',
     writable (Container b) wd = Some (l, bk) /\
     Breaker_Succeed b wd = Ok (tt, set_Container b w', wd') /\
     recorded (Container b) l (bump_success bk) 0 w') /\
  (state b = OPEN -> Breaker_Succeed b wd = Ok (tt, b, wd)) /\
  (state b = HALFOPEN ->
   wrap64 (halfopenSuccess b + 1) <> HalfOpenSuccess (options b) ->
   Breaker_Succeed b wd =
   Ok (tt, set_halfopenSuccess (wrap64 (halfopenSuccess b + 1)) b, wd)).
Proof.
  intros Hok Hh. split; [|split; [|split]].
  - intros isTimeout own Htrip. rewrite error_report_eq.
    destruct (Breaker_error_read_only isTimeout _ b wd Hok Htrip Hh)
      as (l & bk & w1 & b' & wd' & Hw & E & Hr & Hs & _).
    exists l, bk, b', wd'.
    destruct Hr as (_ & Hl & Hb & Hc & Hj & _).
    destruct Hs as (Sb & Sl & _ & _ & _ & Sc).
    rewrite Sb, Sl, Sc. auto 10.
  - intros Hs. unfold Breaker_Succeed, bind, gets. rewrite Hs.
    rewrite on_Container_eq.
    destruct (window_Succeed_ok (Container b) wd Hok)
      as (l & bk & w' & wd' & Hw & E & Hr & _).
    rewrite E. exists l, bk, w', wd'. auto.
  - intros Hs. unfold Breaker_Succeed, bind, gets. rewrite Hs. reflexivity.
  - intros Hs Hne. unfold Breaker_Succeed, bind, gets, modify. rewrite Hs. simpl.
    destruct (wrap64 (halfopenSuccess b + 1) =? HalfOpenSuccess (options b)) eqn:E;
      zbool; [contradiction | reflexivity].
Qed.

(** On the fresh breaker at t=0: a [Timeout] leaves one timeout in bucket
    0 and a streak of one; a [Succeed] leaves one success. *)
Lemma C2_outcomes_recorded_witness :
  (exists b' wd',
      Breaker_Timeout (breaker_of fresh) (world_of fresh) = Ok (tt, b', wd') /\
      index (buckets (Container b')) 0 = Some (mkBucket 0 0 1 0) /\
      conseErr (Container b') = 1) /\
  (exists w' wd',
      Breaker_Succeed (breaker_of fresh) (world_of fresh) =
      Ok (tt, set_Container (breaker_of fresh) w', wd') /\
      index (buckets w') 0 = Some (mkBucket 0 1 0 0)).
Proof.
  assert (Hok : window_ok (Container (breaker_of fresh))) by by_evaluation.
  assert (Hh : read_only_handler (StateChangeHandler (options (breaker_of fresh))))
    by exact I.
  destruct (C2_outcomes_recorded (breaker_of fresh) (world_of fresh) Hok Hh)
    as (He & Hc & _).
  split.
  - destruct (He true None) as (l & bk & b' & wd' & Hw & E & Hl & Hb & Hce & _).
    { exact (RateTripFunc_read_only 0.5%float 10). }
    exists b', wd'. split; [exact E|].
    injection Hw as <- <-. split; [exact Hb | exact Hce].
  - destruct (Hc eq_refl) as (l & bk & w' & wd' & Hw & E & Hr).
    exists w', wd'. split; [exact E|].
    injection Hw as <- <-. destruct Hr as (_ & _ & Hb & _). exact Hb.
Defined.

(** C2 fails as stated: [Succeed] on the OPEN breaker records nothing (the
    current bucket keeps its 5 successes), and so does [Succeed] on the
    HALFOPEN one. *)
Lemma C2_counterexample :
  (state (breaker_of tripped) = OPEN /\
   index (buckets (Container (breaker_of tripped)))
         (latest (Container (breaker_of tripped))) = Some (mkBucket 10 5 0 0) /\
   option_map (fun b => index (buckets (Container b)) (latest (Container b)))
              (final_breaker
                 (Breaker_Succeed (breaker_of tripped)
                                  (mkWorld (fun _ => 0) 23 []))) =
   Some (Some (mkBucket 10 5 0 0))) /\
  (state (breaker_of probing) = HALFOPEN /\
   index (buckets (Container (breaker_of probing)))
         (latest (Container (breaker_of probing))) = Some (mkBucket 10 5 0 0) /\
   option_map (fun b => index (buckets (Container b)) (latest (Container b)))
              (final_breaker
                 (Breaker_Succeed (breaker_of probing)
                                  (mkWorld (fun _ => 0) 24 []))) =
   Some (Some (mkBucket 10 5 0 0))).
Proof. vm_compute. repeat split. Qed.

(** ** The clock *)

(** [IsAllowed] decides by the system clock: the clock held in the breaker
    and in its options has no part in the answer. *)
Lemma isAllowed_ignores_now (c : Clock) (b : Breaker) (wd : World) :
  returned (Breaker_IsAllowed (with_clock c b) wd) =
  returned (Breaker_IsAllowed b wd).
Proof.
  unfold Breaker_IsAllowed, Breaker_isAllowed, bind, gets, time_Now, modify, ret.
  simpl. destruct (state b); simpl; try reflexivity;
    destruct (Time_After _ _); reflexivity.
Qed.

(** C3, on the code.  Options carry a clock that stands still at t=0.  The
    breaker trips at system time 0.  Asked when the system clock reads
    5001 ms, [IsAllowed] admits and the breaker is HALFOPEN, although by
    the injected clock no time has passed; asked while the system clock
    still reads 0 it denies.  The same options and the same injected clock
    give two admission decisions: they follow [time.Now()]. *)
Theorem C3_injected_clock_never_read :
  now (options (breaker_of
                  (history frozen_clock_options
                           (stepping 23 0 (5001 * Millisecond))
                           rate_trip_calls))) = Some (ret 0) /\
  returned (and_then (NewBreaker 0.5%float 20 frozen_clock_options tt
                                 (start (stepping 23 0 (5001 * Millisecond))))
                     (run_calls rate_trip_calls;; Breaker_IsAllowed)) =
  Some true /\
  returned (and_then (NewBreaker 0.5%float 20 frozen_clock_options tt
                                 (start (fun _ => 0)))
                     (run_calls rate_trip_calls;; Breaker_IsAllowed)) =
  Some false.
Proof. vm_compute. repeat split. Qed.

(** ** Admission while OPEN *)

(** C4.  [IsAllowed] on an OPEN breaker reads the clock once.  While the
    reading [now] is before [openTime + coolingTimeout] it answers false
    and leaves the breaker as it is; from [openTime + coolingTimeout] on it
    answers true and the breaker becomes HALFOPEN with [halfopenSuccess = 0]
    and [lastRetryTime = now]. *)
Theorem C4_IsAllowed_when_OPEN (b : Breaker) (wd : World) :
  state b = OPEN ->
  let now := wall wd (ticks wd) in
  (now < openTime b + CoolingTimeout (options b) ->
   Breaker_IsAllowed b wd = Ok (false, b, tick wd)) /\
  (now >= openTime b + CoolingTimeout (options b) ->
   Breaker_IsAllowed b wd =
   Ok (true,
       mkBreaker (Container b) HALFOPEN (openTime b) now 0 (options b)
                 (Breaker_now b),
       tick wd)).
Proof.
  intros Hs now.
  unfold Breaker_IsAllowed, Breaker_isAllowed, bind, gets, time_Now.
  rewrite Hs. unfold Time_After, Time_Add. fold now.
  split; intros H.
  - destruct (now <? openTime b + CoolingTimeout (options b)) eqn:E; zbool;
      [reflexivity | lia].
  - destruct (now <? openTime b + CoolingTimeout (options b)) eqn:E; zbool;
      [lia | reflexivity].
Qed.

(** The rate-trip scenario: tripped at t=0 with the default cooling of 5 s,
    the breaker denies at t=1s and admits, turning HALFOPEN, at t=5001ms. *)
Lemma C4_IsAllowed_when_OPEN_witness :
  state (breaker_of tripped) = OPEN /\
  Breaker_IsAllowed (breaker_of tripped)
                    (mkWorld (fun _ => 1 * Second) 23 []) =
  Ok (false, breaker_of tripped, mkWorld (fun _ => 1 * Second) 24 []) /\
  returned (Breaker_IsAllowed (breaker_of tripped) (world_of tripped)) =
  Some true /\
  option_map state
    (final_breaker (Breaker_IsAllowed (breaker_of tripped) (world_of tripped))) =
  Some HALFOPEN.
Proof.
  split; [reflexivity|]. split.
  - apply (C4_IsAllowed_when_OPEN (breaker_of tripped)
             (mkWorld (fun _ => 1 * Second) 23 [])); [reflexivity|].
    vm_compute. reflexivity.
  - rewrite (proj2 (C4_IsAllowed_when_OPEN (breaker_of tripped)
                      (world_of tripped) eq_refl)).
    + split; reflexivity.
    + vm_compute. discriminate.
Defined.

(** ** Probes that succeed *)

(** C5.  [Succeed] on a HALFOPEN breaker counts the probe.  Below the
    threshold the breaker stays HALFOPEN with [halfopenSuccess] one higher
    and nothing else changed.  On reaching the threshold the handler, if
    there is one, is notified of (HALFOPEN, CLOSED) and runs on the container
    as it was; then the container is reset and the state is CLOSED. *)
Theorem C5_Succeed_when_HALFOPEN (b : Breaker) (wd : World) :
  state b = HALFOPEN ->
  window_ok (Container b) ->
  in_int64 (halfopenSuccess b) ->
  in_int64 (HalfOpenSuccess (options b)) ->
  (halfopenSuccess b + 1 < HalfOpenSuccess (options b) ->
   Breaker_Succeed b wd =
   Ok (tt, set_halfopenSuccess (halfopenSuccess b + 1) b, wd)) /\
  (halfopenSuccess b + 1 = HalfOpenSuccess (options b) ->
   exists w1 wd1 w2,
     match StateChangeHandler (options b) with
     | None => w1 = Container b /\ wd1 = wd
     | Some f =>
         run_prog window_call (f HALFOPEN CLOSED) (Container b)
                  (mkWorld (wall wd) (ticks wd)
                           ((HALFOPEN, CLOSED) :: notified wd)) =
         Ok (tt, w1, wd1)
     end /\
     notified wd1 =
       (if is_nil (StateChangeHandler (options b)) then notified wd
        else (HALFOPEN, CLOSED) :: notified wd) /\
     window_Reset w1 wd1 = Ok (tt, w2, tick wd1) /\
     Breaker_Succeed b wd =
     Ok (tt,
         mkBreaker w2 CLOSED (openTime b) (lastRetryTime b)
                   (HalfOpenSuccess (options b)) (options b) (Breaker_now b),
         tick wd1) /\
     oldest w2 = 0 /\ latest w2 = 0 /\ inWindow w2 = 1 /\ conseErr w2 = 0 /\
     index (buckets w2) 0 = Some (mkBucket 0 0 0 (wrap64 (wall wd1 (ticks wd1))))).
Proof.
  intros Hs Hok Hh Ht. split; intros H.
  - unfold Breaker_Succeed, bind, gets, modify. rewrite Hs. simpl.
    rewrite wrap64_id by (unfold in_int64 in *; lia).
    destruct (halfopenSuccess b + 1 =? HalfOpenSuccess (options b)) eqn:E;
      zbool; [lia | reflexivity].
  - unfold Breaker_Succeed.
    unfold bind at 1. unfold gets at 1. rewrite Hs.
    unfold bind at 1. unfold modify at 1.
    unfold bind at 1. unfold gets at 1.
    unfold bind at 1. unfold gets at 1. simpl.
    rewrite wrap64_id by (rewrite H; exact Ht).
    rewrite H, Z.eqb_refl.
    unfold bind at 1.
    set (b1 := set_halfopenSuccess (HalfOpenSuccess (options b)) b).
    destruct (notify_ok HALFOPEN CLOSED b1 wd Hok)
      as (w1 & wd1 & En & Hok1 & _ & Hn & _).
    rewrite En.
    destruct (window_Reset_ok w1 wd1 Hok1)
      as (w2 & Er & Hok2 & Ho & Hl & Hi & Hc & Hb & _).
    unfold bind, modify. rewrite on_Container_eq. simpl. rewrite Er. simpl.
    exists w1, wd1, w2.
    split.
    { rewrite notify_eq in En. simpl in En.
      destruct (StateChangeHandler (options b)) as [f|].
      - destruct (run_prog window_call (f HALFOPEN CLOSED) (Container b) _)
          as [[[[] w1'] wd1']|]; [|discriminate].
        injection En as <- <-. reflexivity.
      - injection En as E1 E2. destruct b; simpl in *. auto. }
    split; [exact Hn|]. split; [exact Er|]. split; [reflexivity|].
    auto.
Qed.

(** Probe recovery: with the default threshold of two probes, the first
    [Succeed] of the probing breaker is counted, the second closes it. *)
Lemma C5_Succeed_when_HALFOPEN_witness :
  Breaker_Succeed (breaker_of probing) (world_of probing) =
  Ok (tt, set_halfopenSuccess 1 (breaker_of probing), world_of probing) /\
  option_map state
    (final_breaker
       (Breaker_Succeed (set_halfopenSuccess 1 (breaker_of probing))
                        (world_of probing))) = Some CLOSED.
Proof.
  split.
  - apply (C5_Succeed_when_HALFOPEN (breaker_of probing) (world_of probing));
      by_evaluation.
  - assert (Hs : state (set_halfopenSuccess 1 (breaker_of probing)) = HALFOPEN)
      by reflexivity.
    assert (Hok : window_ok (Container (set_halfopenSuccess 1 (breaker_of probing))))
      by by_evaluation.
    assert (Hh : in_int64 (halfopenSuccess (set_halfopenSuccess 1 (breaker_of probing))))
      by by_evaluation.
    assert (Ht : in_int64 (HalfOpenSuccess
                             (options (set_halfopenSuccess 1 (breaker_of probing)))))
      by by_evaluation.
    destruct (proj2 (C5_Succeed_when_HALFOPEN _ (world_of probing) Hs Hok Hh Ht)
                    eq_refl)
      as (w1 & wd1 & w2 & _ & _ & _ & E & _).
    rewrite E. reflexivity.
Defined.

(** ** Reset *)

(** C6.  Take any breaker that [NewBreaker] made and any history of calls
    that returned.  [Reset()] returns, and right after it [State()] is
    CLOSED, [Samples()] is 0 and [ConsecutiveErrors()] is 0: the window
    counts from slot 0 for one slot, which [Reset] has just zeroed, so that
    whatever the other slots still hold stays out of the sum. *)
Theorem C6_Reset_round_trip (dr : float) (dm : Z) (o : Options) (wd0 : World)
        (cs : list call) (b : Breaker) (wd : World) :
  in_int64 (BucketNums o) ->
  and_then (NewBreaker dr dm o tt wd0) (run_calls cs) = Ok (tt, b, wd) ->
  exists b1 b2,
    Breaker_Reset b wd = Ok (tt, b1, tick wd) /\
    Breaker_State b1 (tick wd) = Ok (CLOSED, b1, tick wd) /\
    Breaker_Samples b1 (tick wd) = Ok (0, b2, tick (tick wd)) /\
    Breaker_ConsecutiveErrors b1 (tick wd) = Ok (0, b1, tick wd).
Proof.
  intros Hr Hrun.
  assert (Hok : window_ok (Container b)).
  { destruct (and_then_Ok _ _ _ _ _ Hrun) as (b0 & wd1 & E & Hrun').
    eapply run_calls_ok; [|exact Hrun'].
    eapply NewBreaker_ok; eassumption. }
  destruct (window_Reset_ok (Container b) wd Hok)
    as (w1 & Er & Hok1 & Ho & Hl & Hi & Hc & Hb & _).
  destruct (window_Samples_after_Reset w1 (tick wd) Hok1 Ho Hi
              (ex_intro _ _ Hb)) as [w2 Es].
  exists (set_state CLOSED (set_Container b w1)), 
         (set_Container (set_state CLOSED (set_Container b w1)) w2).
  split; [|split; [|split]].
  - unfold Breaker_Reset, bind, modify. rewrite on_Container_eq, Er. reflexivity.
  - reflexivity.
  - unfold Breaker_Samples. rewrite on_Container_eq. simpl. rewrite Es.
    reflexivity.
  - unfold Breaker_ConsecutiveErrors. rewrite on_Container_eq.
    unfold window_ConsecutiveErrors, gets. simpl. rewrite Hc.
    destruct b; reflexivity.
Qed.

(** A success and a failure in bucket 0 and a failure in bucket 1, then
    [Reset()]: the failure stays in bucket 1, and [Samples()] is 0. *)
Lemma C6_Reset_round_trip_witness :
  exists b1 b2,
    Breaker_Reset (breaker_of spread) (world_of spread) =
    Ok (tt, b1, tick (world_of spread)) /\
    index (buckets (Container b1)) 1 =
    Some (mkBucket 1 0 0 (200 * Millisecond)) /\
    Breaker_State b1 (tick (world_of spread)) =
    Ok (CLOSED, b1, tick (world_of spread)) /\
    Breaker_Samples b1 (tick (world_of spread)) =
    Ok (0, b2, tick (tick (world_of spread))) /\
    Breaker_ConsecutiveErrors b1 (tick (world_of spread)) =
    Ok (0, b1, tick (world_of spread)).
Proof.
  destruct (C6_Reset_round_trip 0.5%float 20 rate_options
              (start (stepping 4 0 (200 * Millisecond)))
              [CSucceed; CFail; CFail] (breaker_of spread) (world_of spread))
    as (b1 & b2 & Er & Hs & Hn & Hc).
  - by_evaluation.
  - vm_compute. reflexivity.
  - exists b1, b2. split; [exact Er|]. split; [|auto].
    vm_compute in Er. injection Er as <-. reflexivity.
Defined.

(** ** The bounds of [inWindow] *)

(** C7 (as the code has it).  A window made by [NewWindowWithOptions]
    returns from every sequence of calls of its methods, at whatever times,
    with [0 <= inWindow <= bucketNums]. *)
Theorem C7_inWindow_bounds (bt bn : Z) (ms : list any_method) (wd : World) :
  in_int64 bn -> 100 <= bn ->
  exists w' wd',
    and_then (NewWindowWithOptions bt bn tt wd) (run_methods ms) =
    Ok (tt, w', wd') /\
    0 <= inWindow w' <= bucketNums w'.
Proof.
  intros Hr Hn. unfold and_then.
  destruct (NewWindowWithOptions bt bn tt wd) as [[[[w|e] []] wd1]|] eqn:E.
  - destruct (NewWindowWithOptions_ok bt bn wd w wd1 Hr E) as (Hok & _).
    destruct (run_methods_ok ms w wd1 Hok) as (w' & wd' & E' & Hok' & _).
    exists w', wd'. split; [exact E'|]. apply Hok'.
  - rewrite NewWindowWithOptions_eq in E.
    destruct (bn <? 100) eqn:E1; zbool; [lia | discriminate].
  - rewrite NewWindowWithOptions_eq in E.
    destruct (bn <? 100); discriminate.
Qed.

(** A hundred buckets of 10 ms, a failure at t=0 and the counts asked for
    at t=1100ms. *)
Lemma C7_inWindow_bounds_witness :
  exists w' wd',
    and_then (NewWindowWithOptions (10 * Millisecond) 100 tt
                (start (stepping 2 0 (1100 * Millisecond))))
             (run_methods [AnyMethod mFail; AnyMethod mCounts]) =
    Ok (tt, w', wd') /\
    0 <= inWindow w' <= bucketNums w'.
Proof.
  apply (C7_inWindow_bounds (10 * Millisecond) 100
           [AnyMethod mFail; AnyMethod mCounts]
           (start (stepping 2 0 (1100 * Millisecond))));
    unfold in_int64; lia.
Defined.

(** C7 fails as stated: [Counts()] asked once every bucket of the window
    has expired takes them all out, and [inWindow] is 0. *)
Lemma C7_counterexample :
  option_map inWindow
    (final_window
       (and_then (NewWindowWithOptions (10 * Millisecond) 100 tt
                    (start (stepping 2 0 (1100 * Millisecond))))
                 (run_methods [AnyMethod mFail; AnyMethod mCounts]))) =
  Some 0.
Proof. vm_compute. reflexivity. Qed.

(** ** What [Samples()] sums *)





(** Why the clock has to be one that does not go back: when it is set back
    between the reading that finds the latest bucket too old and the
    reading that stamps the new one, the new bucket is in the window behind
    an older one with a later stamp.  At t=16s the oldest bucket (stamped
    20 s) is live, so nothing leaves the window, and [Samples()] counts the
    failure of the bucket stamped 5 s, whose [createdAt + expireTime] of
    15 s is past. *)
Lemma Samples_when_clock_is_set_back :
  map timeStamp (in_window (window_of stamped_late)) = [20 * Second; 5 * Second] /\
  wall (clock_of stamped_late) (ticks (clock_of stamped_late)) = 16 * Second /\
  Samples_in_window (window_of stamped_late) (16 * Second) = 0 /\
  returned (window_Samples (window_of stamped_late) (clock_of stamped_late)) =
  Some 1.
Proof. vm_compute. repeat split. Qed.

(** ** Errors of construction *)




(** ** A nil trip predicate *)

(** C10.  [FailWithTrip(nil)] and [TimeoutWithTrip(nil)] on a CLOSED breaker
    return: the nil predicate is tested for and never called.  The outcome
    is recorded in the current bucket, the breaker stays CLOSED with its
    timers as they were, and nobody is notified. *)
Theorem C10_nil_trip_when_CLOSED (isTimeout : bool) (b : Breaker) (wd : World) :
  state b = CLOSED ->
  window_ok (Container b) ->
  exists l bk w' wd',
    writable (Container b) wd = Some (l, bk) /\
    (if isTimeout then Breaker_TimeoutWithTrip None
     else Breaker_FailWithTrip None) b wd = Ok (tt, set_Container b w', wd') /\
    state (set_Container b w') = CLOSED /\
    recorded (Container b) l (bump_error isTimeout bk)
             (wrap64 (conseErr (Container b) + 1)) w' /\
    notified wd' = notified wd.
Proof.
  intros Hs Hok.
  destruct (error_records isTimeout b wd Hok)
    as (l & bk & w' & wd' & Hw & E & Hr & Hn & _).
  exists l, bk, w', wd'. split; [exact Hw|]. split; [|auto].
  replace ((if isTimeout then Breaker_TimeoutWithTrip None
            else Breaker_FailWithTrip None) b wd)
    with (Breaker_error isTimeout None b wd) by (destruct isTimeout; reflexivity).
  unfold Breaker_error. unfold bind at 1. rewrite E.
  unfold bind, gets. simpl. rewrite Hs. reflexivity.
Qed.

(** On the fresh breaker, [FailWithTrip(nil)] leaves one failure in bucket
    0 and the breaker CLOSED. *)
Lemma C10_nil_trip_when_CLOSED_witness :
  exists w' wd',
    Breaker_FailWithTrip None (breaker_of fresh) (world_of fresh) =
    Ok (tt, set_Container (breaker_of fresh) w', wd') /\
    state (set_Container (breaker_of fresh) w') = CLOSED /\
    index (buckets w') 0 = Some (mkBucket 1 0 0 0).
Proof.
  assert (Hs : state (breaker_of fresh) = CLOSED) by reflexivity.
  assert (Hok : window_ok (Container (breaker_of fresh))) by by_evaluation.
  destruct (C10_nil_trip_when_CLOSED false (breaker_of fresh) (world_of fresh)
              Hs Hok) as (l & bk & w' & wd' & Hw & E & Hc & Hr & _).
  exists w', wd'. split; [exact E|]. split; [exact Hc|].
  injection Hw as <- <-. destruct Hr as (_ & _ & Hb & _). exact Hb.
Defined.

(** * Further properties of the code *)

(** ** Admission outside OPEN *)

(** [IsAllowed] on a CLOSED breaker admits without looking at the clock.  On
    a HALFOPEN breaker it reads the clock once: before
    [lastRetryTime + DetectTimeout] it denies and changes nothing; from
    then on it admits one more probe, the breaker stays HALFOPEN with its
    count of successful probes, and [lastRetryTime] is the reading. *)
Theorem IsAllowed_when_not_OPEN (b : Breaker) (wd : World) :
  (state b = CLOSED -> Breaker_IsAllowed b wd = Ok (true, b, wd)) /\
  (state b = HALFOPEN ->
   let now := wall wd (ticks wd) in
   (now < lastRetryTime b + DetectTimeout (options b) ->
    Breaker_IsAllowed b wd = Ok (false, b, tick wd)) /\
   (now >= lastRetryTime b + DetectTimeout (options b) ->
    Breaker_IsAllowed b wd = Ok (true, set_lastRetryTime now b, tick wd))).
Proof.
  split.
  { intros Hs. unfold Breaker_IsAllowed, Breaker_isAllowed, bind, gets.
    rewrite Hs. reflexivity. }
  intros Hs now.
  unfold Breaker_IsAllowed, Breaker_isAllowed, bind, gets, time_Now.
  rewrite Hs. unfold Time_After, Time_Add. fold now.
  split; intros H.
  - destruct (now <? lastRetryTime b + DetectTimeout (options b)) eqn:E; zbool;
      [reflexivity | lia].
  - destruct (now <? lastRetryTime b + DetectTimeout (options b)) eqn:E; zbool;
      [lia | reflexivity].
Qed.

(** Detect spacing: the probing breaker let a probe through at t=5001ms,
    with the default spacing of 200 ms; asked again at t=5051ms it denies,
    at t=5201ms it admits. *)
Lemma IsAllowed_when_not_OPEN_witness :
  Breaker_IsAllowed (breaker_of probing)
                    (mkWorld (fun _ => 5051 * Millisecond) 24 []) =
  Ok (false, breaker_of probing, mkWorld (fun _ => 5051 * Millisecond) 25 []) /\
  Breaker_IsAllowed (breaker_of probing)
                    (mkWorld (fun _ => 5201 * Millisecond) 24 []) =
  Ok (true, set_lastRetryTime (5201 * Millisecond) (breaker_of probing),
      mkWorld (fun _ => 5201 * Millisecond) 25 []) /\
  Breaker_IsAllowed (breaker_of fresh) (world_of fresh) =
  Ok (true, breaker_of fresh, world_of fresh).
Proof.
  split; [|split].
  - apply (proj2 (IsAllowed_when_not_OPEN (breaker_of probing)
                    (mkWorld (fun _ => 5051 * Millisecond) 24 [])) eq_refl).
    vm_compute. reflexivity.
  - apply (proj2 (IsAllowed_when_not_OPEN (breaker_of probing)
                    (mkWorld (fun _ => 5201 * Millisecond) 24 [])) eq_refl).
    vm_compute. discriminate.
  - apply (proj1 (IsAllowed_when_not_OPEN (breaker_of fresh) (world_of fresh))).
    reflexivity.
Defined.

(** ** Errors while probing *)



(** ** Trip predicates *)

(** A trip predicate is handed the breaker itself as its [Container].  If
    the first thing it does is to call [Fail], [Succeed], [Timeout] or
    [Reset] on it, the error report that consulted it, on a CLOSED breaker,
    never returns: those methods take the lock that the report holds. *)
Theorem trip_must_not_record (isTimeout : bool) (R : Type) (m : method R)
        (k : R -> Prog bool) (b : Breaker) (wd : World) :
  state b = CLOSED ->
  window_ok (Container b) ->
  is_read R m = false ->
  error_report isTimeout (Some (Some (Call m k))) b wd = Fault Deadlock.
Proof.
  intros Hs Hok Hm. rewrite error_report_eq.
  destruct (error_records isTimeout b wd Hok)
    as (l & bk & w1 & wd1 & _ & E & _).
  unfold Breaker_error. unfold bind at 1. rewrite E.
  unfold bind at 1. unfold gets at 1.
  change (state (set_Container b w1)) with (state b). rewrite Hs.
  unfold bind at 1. cbn [is_nil negb invoke_trip run_prog].
  unfold bind at 1. rewrite Breaker_call_write by exact Hm. reflexivity.
Qed.

(** A predicate that resets the container it is given, tried on the fresh
    breaker. *)
Lemma trip_must_not_record_witness :
  Breaker_FailWithTrip (Some (Call mReset (fun _ => Return true)))
                       (breaker_of fresh) (world_of fresh) = Fault Deadlock.
Proof.
  apply (trip_must_not_record false unit mReset (fun _ => Return true)
           (breaker_of fresh) (world_of fresh)).
  - reflexivity.
  - by_evaluation.
  - reflexivity.
Defined.

(** With the consecutive-errors predicate, an error reported to a CLOSED
    breaker opens it exactly when the streak, this error included, has
    reached the threshold; the handler is notified of (CLOSED, OPEN) exactly
    then. *)
Theorem ConsecutiveTripFunc_trips_at_threshold (threshold : Z)
        (isTimeout : bool) (own : option TripFunc) (b : Breaker) (wd : World) :
  state b = CLOSED ->
  window_ok (Container b) ->
  match own with
  | None => ShouldTrip (options b)
  | Some trip => trip
  end = ConsecutiveTripFunc threshold ->
  exists b' wd',
    error_report isTimeout own b wd = Ok (tt, b', wd') /\
    state b' =
      (if wrap64 (conseErr (Container b) + 1) >=? threshold then OPEN
       else CLOSED) /\
    notified wd' =
      (if (wrap64 (conseErr (Container b) + 1) >=? threshold)
          && negb (is_nil (StateChangeHandler (options b)))
       then (CLOSED, OPEN) :: notified wd
       else notified wd).
Proof.
  intros Hs Hok Htrip. rewrite error_report_eq, Htrip.
  destruct (error_records isTimeout b wd Hok)
    as (l & bk & w1 & wd1 & _ & E & Hr & Hn & _).
  assert (Hok1 : window_ok w1) by apply Hr.
  assert (Hc : conseErr w1 = wrap64 (conseErr (Container b) + 1)) by apply Hr.
  unfold Breaker_error. unfold bind at 1. rewrite E.
  unfold bind at 1. unfold gets at 1.
  change (state (set_Container b w1)) with (state b). rewrite Hs.
  unfold bind at 1. unfold ConsecutiveTripFunc.
  cbn [is_nil negb invoke_trip run_prog Breaker_call].
  unfold bind at 1. rewrite on_Container_eq.
  unfold window_ConsecutiveErrors, gets at 1. cbn [Container set_Container].
  unfold ret at 1. rewrite Hc.
  destruct (wrap64 (conseErr (Container b) + 1) >=? threshold).
  - destruct (notify_ok CLOSED OPEN (set_Container (set_Container b w1) w1) wd1 Hok1)
      as (w2 & wd2 & En & _ & _ & Hn2 & _).
    unfold bind at 1. rewrite En.
    eexists; eexists. split; [reflexivity|]. split; [reflexivity|].
    simpl in Hn2. simpl. rewrite Hn2, Hn.
    destruct (is_nil (StateChangeHandler (options b))); reflexivity.
  - eexists; eexists. split; [reflexivity|]. split; [exact Hs | exact Hn].
Qed.

(** Threshold 3: after two failures in a row a third one opens the breaker,
    and a streak of two did not. *)
Lemma ConsecutiveTripFunc_trips_at_threshold_witness :
  state (breaker_of two_in_a_row) = CLOSED /\
  conseErr (Container (breaker_of two_in_a_row)) = 2 /\
  exists b' wd',
    Breaker_Fail (breaker_of two_in_a_row) (world_of two_in_a_row) =
    Ok (tt, b', wd') /\
    state b' = OPEN.
Proof.
  split; [reflexivity|]. split; [reflexivity|].
  assert (Hs : state (breaker_of two_in_a_row) = CLOSED) by reflexivity.
  assert (Hok : window_ok (Container (breaker_of two_in_a_row)))
    by by_evaluation.
  destruct (ConsecutiveTripFunc_trips_at_threshold 3 false None
              (breaker_of two_in_a_row) (world_of two_in_a_row) Hs Hok eq_refl)
    as (b' & wd' & E & Hst & _).
  exists b', wd'. split; [exact E | exact Hst].
Defined.

(** With the rate predicate, an error reported to a CLOSED breaker is
    recorded, and the samples in the window are counted.  With fewer than
    [minSamples] the breaker stays CLOSED, and the error rate is not even
    asked for.  Otherwise the error rate is read, at the next reading of the
    clock, and the breaker opens exactly when it has reached [rate]. *)
Theorem RateTripFunc_trips_on_rate (rate : float) (minSamples : Z)
        (isTimeout : bool) (own : option TripFunc) (b : Breaker) (wd : World) :
  state b = CLOSED ->
  window_ok (Container b) ->
  match own with
  | None => ShouldTrip (options b)
  | Some trip => trip
  end = RateTripFunc rate minSamples ->
  exists w1 wd1 s w2,
    (if isTimeout then window_Timeout else window_Fail) (Container b) wd =
    Ok (tt, w1, wd1) /\
    window_Samples w1 wd1 = Ok (s, w2, tick wd1) /\
    (s < minSamples ->
     error_report isTimeout own b wd = Ok (tt, set_Container b w2, tick wd1)) /\
    (minSamples <= s ->
     exists r w3 b' wd',
       window_ErrorRate w2 (tick wd1) = Ok (r, w3, tick (tick wd1)) /\
       error_report isTimeout own b wd = Ok (tt, b', wd') /\
       state b' = (if PrimFloat.leb rate r then OPEN else CLOSED)).
Proof.
  intros Hs Hok Htrip. rewrite error_report_eq, Htrip.
  assert (Hrec : exists w1 wd1,
             (if isTimeout then window_Timeout else window_Fail) (Container b) wd =
             Ok (tt, w1, wd1) /\ window_ok w1).
  { destruct isTimeout.
    - destruct (window_Timeout_ok (Container b) wd Hok)
        as (l & bk & w1 & wd1 & _ & E0 & Hr & _).
      exists w1, wd1. split; [exact E0 | apply Hr].
    - destruct (window_Fail_ok (Container b) wd Hok)
        as (l & bk & w1 & wd1 & _ & E0 & Hr & _).
      exists w1, wd1. split; [exact E0 | apply Hr]. }
  destruct Hrec as (w1 & wd1 & E0 & Hok1).
  assert (E : (if isTimeout then on_Container window_Timeout
               else on_Container window_Fail) b wd =
              Ok (tt, set_Container b w1, wd1)).
  { destruct isTimeout; rewrite on_Container_eq, E0; reflexivity. }
  destruct (window_Counts_ok w1 wd1 Hok1)
    as ([[s1 f1] t1] & w2 & Ec1 & Hok2 & _).
  destruct (window_Counts_ok w2 (tick wd1) Hok2)
    as ([[s2 f2] t2] & w3 & Ec2 & Hok3 & _).
  assert (Es : window_Samples w1 wd1 =
               Ok (wrap64 (wrap64 (s1 + f1) + t1), w2, tick wd1))
    by (unfold window_Samples, bind; rewrite Ec1; reflexivity).
  assert (Er : exists r, window_ErrorRate w2 (tick wd1) =
                         Ok (r, w3, tick (tick wd1))).
  { unfold window_ErrorRate, bind. rewrite Ec2.
    destruct (wrap64 (wrap64 (s2 + f2) + t2) =? 0); eexists; reflexivity. }
  destruct Er as [r Er].
  exists w1, wd1, (wrap64 (wrap64 (s1 + f1) + t1)), w2.
  split; [exact E0|]. split; [exact Es|].
  assert (Hhead :
             Breaker_error isTimeout (RateTripFunc rate minSamples) b wd =
             (tripped <-
                run_prog Breaker_call
                  (if wrap64 (wrap64 (s1 + f1) + t1) >=? minSamples
                   then Call mErrorRate
                          (fun r0 => Return (PrimFloat.leb rate r0))
                   else Return false);;
              (if tripped
               then notify CLOSED OPEN;;
                    t <- time_Now;;
                    modify (set_openTime t);; modify (set_state OPEN)
               else ret tt))
               (set_Container b w2) (tick wd1)).
  { unfold Breaker_error. unfold bind at 1. rewrite E.
    unfold bind at 1. unfold gets at 1.
    change (state (set_Container b w1)) with (state b). rewrite Hs.
    unfold bind at 1. unfold RateTripFunc.
    cbn [is_nil negb invoke_trip run_prog Breaker_call].
    unfold bind at 1. rewrite on_Container_eq.
    cbn [Container set_Container]. rewrite Es. reflexivity. }
  rewrite Hhead.
  destruct (wrap64 (wrap64 (s1 + f1) + t1) >=? minSamples) eqn:Ege; zbool.
  - split; [intros Hlt; lia|]. intros _.
    exists r, w3. cbn [run_prog Breaker_call].
    unfold bind at 1. unfold bind at 1. rewrite on_Container_eq.
    cbn [Container set_Container]. rewrite Er.
    cbn [run_prog]. unfold ret at 1.
    destruct (PrimFloat.leb rate r).
    + destruct (notify_ok CLOSED OPEN
                  (set_Container (set_Container b w2) w3)
                  (tick (tick wd1)) Hok3)
        as (w4 & wd4 & En & _).
      unfold bind at 1. rewrite En.
      eexists; eexists. split; [reflexivity|]. split; reflexivity.
    + eexists; eexists. split; [reflexivity|]. split; [reflexivity | exact Hs].
  - split; [intros _; reflexivity | intros Hge; lia].
Qed.

(** The fresh breaker asks for 10 samples: its first failure leaves it
    CLOSED. *)
Lemma RateTripFunc_trips_on_rate_witness :
  exists w2 wd',
    Breaker_Fail (breaker_of fresh) (world_of fresh) =
    Ok (tt, set_Container (breaker_of fresh) w2, wd') /\
    state (set_Container (breaker_of fresh) w2) = CLOSED.
Proof.
  assert (Hs : state (breaker_of fresh) = CLOSED) by reflexivity.
  assert (Hok : window_ok (Container (breaker_of fresh))) by by_evaluation.
  destruct (RateTripFunc_trips_on_rate 0.5%float 10 false None
              (breaker_of fresh) (world_of fresh) Hs Hok eq_refl)
    as (w1 & wd1 & s & w2 & Ef & Es & H & _).
  exists w2, (tick wd1). split; [|reflexivity].
  apply H. vm_compute in Ef. injection Ef as <- <-.
  vm_compute in Es. injection Es as <- _. reflexivity.
Defined.

(** ** The streak of consecutive errors *)

Lemma run_methods_app (ms1 ms2 : list any_method) (w : window) (wd : World) :
  run_methods (ms1 ++ ms2) w wd =
  match run_methods ms1 w wd with
  | Ok (_, w1, wd1) => run_methods ms2 w1 wd1
  | Fault f => Fault f
  end.
Proof.
  revert w wd. induction ms1 as [|[R m] ms1 IH]; intros w wd; [reflexivity|].
  simpl. unfold bind.
  destruct (window_call R m w wd) as [[[r w1] wd1]|]; [apply IH | reflexivity].
Qed.

Lemma conseErr_step (R : Type) (m : method R) (w : window) (wd : World)
      (r : R) (w' : window) (wd' : World) :
  window_ok w ->
  window_call R m w wd = Ok (r, w', wd') ->
  conseErr w' =
    (if is_error (AnyMethod m) then wrap64 (conseErr w + 1)
     else if ends_streak (AnyMethod m) then 0 else conseErr w).
Proof.
  intros Hok H.
  destruct (is_read R m) eqn:Hm.
  - destruct (window_call_read R m w wd Hok Hm)
      as (r1 & w1 & wd1 & E & _ & Hs & _).
    rewrite E in H. injection H as _ <- _.
    destruct m; try discriminate; apply Hs.
  - destruct m; try discriminate; cbn [window_call is_error ends_streak] in *.
    + destruct (window_Fail_ok w wd Hok) as (l & bk & w1 & wd1 & _ & E & Hr & _).
      rewrite E in H. injection H as _ <- _. apply Hr.
    + destruct (window_Succeed_ok w wd Hok) as (l & bk & w1 & wd1 & _ & E & Hr & _).
      rewrite E in H. injection H as _ <- _. apply Hr.
    + destruct (window_Timeout_ok w wd Hok) as (l & bk & w1 & wd1 & _ & E & Hr & _).
      rewrite E in H. injection H as _ <- _. apply Hr.
    + destruct (window_Reset_ok w wd Hok) as (w1 & E & _ & _ & _ & _ & Hc & _).
      rewrite E in H. injection H as _ <- _. exact Hc.
Qed.

Lemma conseErr_run (ms : list any_method) (c : Z) (w : window) (wd : World)
      (w' : window) (wd' : World) :
  window_ok w ->
  forallb (fun a => negb (ends_streak a)) ms = true ->
  conseErr w = wrap64 c ->
  run_methods ms w wd = Ok (tt, w', wd') ->
  conseErr w' = wrap64 (c + errors_in ms).
Proof.
  revert c w wd. induction ms as [|[R m] ms IH]; intros c w wd Hok Hno Hc.
  - simpl. unfold ret. intros H. injection H as <- _.
    unfold errors_in. simpl. now rewrite Z.add_0_r.
  - cbn [run_methods]. unfold bind.
    destruct (window_call R m w wd) as [[[r w1] wd1]|] eqn:E; [|discriminate].
    cbn [forallb] in Hno. apply andb_true_iff in Hno. destruct Hno as [Hm Hno].
    pose proof (conseErr_step R m w wd r w1 wd1 Hok E) as Hstep.
    destruct (window_call_ok R m w wd Hok) as (r2 & w2 & wd2 & E2 & Hok2 & _).
    rewrite E in E2. injection E2 as _ <- _.
    intros H. unfold errors_in. cbn [filter].
    destruct (is_error (AnyMethod m)) eqn:Ee.
    + rewrite (IH (c + 1) w1 wd1 Hok2 Hno) ; [|
        rewrite Hstep, Hc; apply wrap64_add_l | exact H].
      unfold errors_in. cbn [List.length]. f_equal. lia.
    + apply negb_true_iff in Hm. rewrite Hm in Hstep.
      rewrite (IH c w1 wd1 Hok2 Hno); [reflexivity | congruence | exact H].
Qed.

(** [ConsecutiveErrors()] is the number of [Fail] and [Timeout] calls since
    the last [Succeed] or [Reset] (as an [int64]), whatever was asked of the
    window in between and whenever. *)
Theorem ConsecutiveErrors_counts_since_last_success
        (before since : list any_method) (last : any_method)
        (w : window) (wd : World) :
  window_ok w ->
  ends_streak last = true ->
  forallb (fun a => negb (ends_streak a)) since = true ->
  exists w' wd',
    run_methods (before ++ last :: since) w wd = Ok (tt, w', wd') /\
    window_ConsecutiveErrors w' wd' = Ok (wrap64 (errors_in since), w', wd').
Proof.
  intros Hok Hlast Hsince.
  destruct (run_methods_ok (before ++ last :: since) w wd Hok)
    as (w' & wd' & E & _).
  exists w', wd'. split; [exact E|].
  unfold window_ConsecutiveErrors, gets. do 3 f_equal.
  rewrite run_methods_app in E.
  destruct (run_methods_ok before w wd Hok) as (w1 & wd1 & E1 & Hok1 & _).
  rewrite E1 in E. destruct last as [R m]. cbn [run_methods] in E.
  unfold bind in E.
  destruct (window_call_ok R m w1 wd1 Hok1) as (r & w2 & wd2 & E2 & Hok2 & _).
  rewrite E2 in E.
  pose proof (conseErr_step R m w1 wd1 r w2 wd2 Hok1 E2) as Hstep.
  rewrite Hlast in Hstep.
  assert (Hne : is_error (AnyMethod m) = false)
    by (destruct m; try discriminate; reflexivity).
  rewrite Hne in Hstep.
  apply (conseErr_run since 0 w2 wd2 w' wd' Hok2 Hsince); [|exact E].
  rewrite Hstep. reflexivity.
Qed.

(** Two failures, then a success, a failure, the samples asked for and a
    timeout: the streak is 2. *)
Lemma ConsecutiveErrors_counts_since_last_success_witness :
  exists w' wd',
    run_methods ([AnyMethod mFail] ++
                 AnyMethod mSucceed ::
                 [AnyMethod mFail; AnyMethod mSamples; AnyMethod mTimeout])
                (window_of two_failures) (clock_of two_failures) =
    Ok (tt, w', wd') /\
    window_ConsecutiveErrors w' wd' = Ok (2, w', wd').
Proof.
  apply (ConsecutiveErrors_counts_since_last_success
           [AnyMethod mFail]
           [AnyMethod mFail; AnyMethod mSamples; AnyMethod mTimeout]
           (AnyMethod mSucceed) (window_of two_failures) (clock_of two_failures)).
  - by_evaluation.
  - reflexivity.
  - reflexivity.
Defined.

(** ** Where the window ends *)

Lemma expire_pure_ring_end (now : Z) (n : nat) (w w' : window) :
  window_ok w -> ring_end w ->
  expire_pure now n w = Some w' ->
  window_ok w' /\ ring_end w'.
Proof.
  revert w. induction n as [|n IH]; intros w Hok He; simpl.
  - intros H. injection H as <-. auto.
  - destruct (inWindow w >? 0) eqn:Ei; zbool.
    2:{ intros H. injection H as <-. auto. }
    destruct (index (buckets w) (oldest w)) as [b|]; [|discriminate].
    destruct (wrap64 (timeStamp b + expireTime w) <=? now).
    2:{ intros H. injection H as <-. auto. }
    pose proof Hok as (Hl & Hb & Ho & Hla & Hi).
    apply IH.
    + unfold window_ok; simpl. rewrite next_eq_next by assumption.
      rewrite wrap64_id by (unfold in_int64; lia).
      pose proof (next_range _ _ Hb Ho). lia.
    + unfold ring_end in *; simpl. rewrite next_eq_next by assumption.
      rewrite wrap64_id by (unfold in_int64; lia).
      rewrite <- He.
      replace (Z.to_nat (inWindow w)) with (Datatypes.S (Z.to_nat (inWindow w - 1)))
        by lia.
      reflexivity.
Qed.

Lemma advance_ring_end (stamp : Z) (w : window) :
  window_ok w -> ring_end w ->
  window_ok (advance stamp w) /\ ring_end (advance stamp w).
Proof.
  intros Hok He. pose proof Hok as (Hl & Hb & Ho & Hla & Hi).
  pose proof (next_range _ _ Hb Hla) as Hl'.
  pose proof (next_range _ _ Hb Ho) as Ho'.
  unfold ring_end in *. unfold advance, window_ok.
  cbn [oldest latest buckets bucketNums inWindow]. rewrite len_store.
  destruct (inWindow w =? bucketNums w) eqn:E; zbool.
  - split; [lia|].
    rewrite E in *. rewrite after_full in He by assumption.
    rewrite after_full by assumption. now rewrite <- He.
  - rewrite wrap64_id by (unfold in_int64; lia). split; [lia|].
    replace (Z.to_nat (inWindow w + 1)) with (Datatypes.S (Z.to_nat (inWindow w)))
      by lia.
    rewrite <- after_next, He. reflexivity.
Qed.

Lemma window_call_ring_end (R : Type) (m : method R) (w : window) (wd : World)
      (r : R) (w' : window) (wd' : World) :
  window_ok w -> ring_end w ->
  window_call R m w wd = Ok (r, w', wd') ->
  window_ok w' /\ ring_end w'.
Proof.
  intros Hok He.
  assert (HR : forall (f : bucket -> bucket) (g : Z -> Z),
             (b <- window_latestBucket;;
              modify (fun w => set_conseErr (g (conseErr w)) w);;
              at_bucket b (modify f)) w wd = Ok (tt, w', wd') ->
             window_ok w' /\ ring_end w').
  { intros f g. unfold bind at 1. rewrite window_latestBucket_eq.
    destruct (index (buckets w) (latest w)) as [b|] eqn:Eb; [|discriminate].
    destruct (wrap64 (timeStamp b + bucketTime w) <=? wrap64 (wall wd (ticks wd))).
    - destruct (index (buckets w) (next (bucketNums w) (latest w))) as [b0|] eqn:Eb0;
        [|discriminate].
      destruct (advance_ring_end (wrap64 (wall wd (Datatypes.S (ticks wd)))) w
                  Hok He) as [Hok1 He1].
      pose proof (index_Some_range _ _ _ Eb0) as Hr.
      unfold bind, modify, at_bucket. cbn [buckets set_conseErr advance].
      rewrite index_store_same by exact Hr.
      intros H. injection H as <- <-.
      unfold window_ok, ring_end, advance in *.
      cbn [oldest latest buckets bucketNums inWindow set_buckets] in *.
      rewrite len_store. auto.
    - unfold bind, modify, at_bucket. cbn [buckets set_conseErr].
      rewrite Eb. intros H. injection H as <- <-.
      unfold window_ok, ring_end in *.
      cbn [oldest latest buckets bucketNums inWindow set_buckets] in *.
      rewrite len_store. auto. }
  assert (HC : forall A (k : Z * Z * Z -> M window A) (a : A),
             (forall x w0 wd0, exists a0, k x w0 wd0 = Ok (a0, w0, wd0)) ->
             bind window_Counts k w wd = Ok (a, w', wd') ->
             window_ok w' /\ ring_end w').
  { intros A k a Hk. unfold bind. rewrite window_Counts_eq.
    destruct (expire_pure _ _ w) as [w1|] eqn:E; [|discriminate].
    destruct (expire_pure_ring_end _ _ _ _ Hok He E) as [Hok1 He1].
    destruct (sum_ring _ _ _ _ _) as [x|]; [|discriminate].
    destruct (Hk x w1 (tick wd)) as [a0 Ea]. rewrite Ea.
    intros H. injection H as _ <- _. auto. }
  destruct m; cbn [window_call].
  - destruct r.
    apply (HR (fun b => mkBucket (wrap64 (failure b + 1)) (success b) (timeout b)
                                 (timeStamp b)) (fun c => wrap64 (c + 1))).
  - destruct r.
    apply (HR (fun b => mkBucket (failure b) (wrap64 (success b + 1)) (timeout b)
                                 (timeStamp b)) (fun _ => 0)).
  - destruct r.
    apply (HR (fun b => mkBucket (failure b) (success b) (wrap64 (timeout b + 1))
                                 (timeStamp b)) (fun c => wrap64 (c + 1))).
  - apply HC. intros [[s f] t] w0 wd0. eexists; reflexivity.
  - apply HC. intros [[s f] t] w0 wd0. eexists; reflexivity.
  - apply HC. intros [[s f] t] w0 wd0. eexists; reflexivity.
  - unfold window_ConsecutiveErrors, gets. intros H. injection H as _ <- _. auto.
  - apply HC. intros [[s f] t] w0 wd0.
    destruct (wrap64 (wrap64 (s + f) + t) =? 0); eexists; reflexivity.
  - apply HC. intros [[s f] t] w0 wd0. eexists; reflexivity.
  - rewrite window_Counts_eq.
    destruct (expire_pure _ _ w) as [w1|] eqn:E; [|discriminate].
    destruct (expire_pure_ring_end _ _ _ _ Hok He E) as [Hok1 He1].
    destruct (sum_ring _ _ _ _ _) as [x|]; [|discriminate].
    intros H. injection H as _ <- _. auto.
  - destruct (window_Reset_ok w wd Hok)
      as (w1 & E & Hok1 & Ho & Hl & Hi & _ & _ & _ & Hbn & _).
    rewrite E. intros H. injection H as _ <- _. split; [exact Hok1|].
    unfold ring_end. rewrite Ho, Hl, Hi. reflexivity.
Qed.

Lemma run_methods_ring_end (ms : list any_method) (w : window) (wd : World) :
  window_ok w -> ring_end w ->
  exists w' wd', run_methods ms w wd = Ok (tt, w', wd') /\
                 window_ok w' /\ ring_end w'.
Proof.
  revert w wd. induction ms as [|[R m] ms IH]; intros w wd Hok He.
  - exists w, wd. auto.
  - cbn [run_methods]. unfold bind.
    destruct (window_call_ok R m w wd Hok) as (r & w1 & wd1 & E & _).
    rewrite E.
    destruct (window_call_ring_end R m w wd r w1 wd1 Hok He E) as [Hok1 He1].
    apply IH; assumption.
Qed.

Lemma made_window_ring_end (bt bn : Z) (ms : list any_method) (wd : World) :
  in_int64 bn -> 100 <= bn ->
  exists w' wd',
    and_then (NewWindowWithOptions bt bn tt wd) (run_methods ms) =
    Ok (tt, w', wd') /\ window_ok w' /\ ring_end w'.
Proof.
  intros Hr Hn. unfold and_then. rewrite NewWindowWithOptions_eq.
  destruct (bn <? 100) eqn:E; zbool; [lia|].
  apply run_methods_ring_end.
  - unfold window_ok, in_int64 in *.
    cbn [oldest latest buckets bucketNums inWindow].
    rewrite len_store, len_repeat by lia. lia.
  - reflexivity.
Qed.

(** In a window made by [NewWindowWithOptions], after any calls at any
    times, [latest] is the last of the [inWindow] slots that start at
    [oldest]: [oldest + inWindow] and [latest + 1] are the same slot of the
    ring.  So a window of one bucket has [oldest = latest], and when the
    window is empty or full the slot after [latest] is [oldest]. *)
Theorem window_ends_at_latest (bt bn : Z) (ms : list any_method) (wd : World) :
  in_int64 bn -> 100 <= bn ->
  exists w' wd',
    and_then (NewWindowWithOptions bt bn tt wd) (run_methods ms) =
    Ok (tt, w', wd') /\
    (oldest w' + inWindow w') mod bucketNums w' =
    (latest w' + 1) mod bucketNums w' /\
    (inWindow w' = 1 -> oldest w' = latest w').
Proof.
  intros Hr Hn.
  destruct (made_window_ring_end bt bn ms wd Hr Hn) as (w' & wd' & E & Hok & He).
  exists w', wd'. split; [exact E|].
  pose proof Hok as (Hl & Hb & Ho & Hla & Hi).
  unfold ring_end in He.
  rewrite after_spec, next_spec in He by assumption.
  rewrite Z2Nat.id in He by lia.
  split; [exact He|].
  intros H1. rewrite H1 in He.
  destruct (Z.lt_trichotomy (oldest w') (latest w')) as [Hlt|[Heq|Hgt]];
    [exfalso | exact Heq | exfalso].
  - apply (mod_shift_neq (bucketNums w') 1 (oldest w') (latest w')); try lia.
    rewrite !(Z.add_comm 1). symmetry. exact He.
  - apply (mod_shift_neq (bucketNums w') 1 (latest w') (oldest w')); try lia.
    rewrite !(Z.add_comm 1). exact He.
Qed.

(** A hundred buckets of 10 ms, a failure at t=0 and the counts asked for
    at t=1100ms, which empties the window: [oldest] is 1, the slot after
    [latest]. *)
Lemma window_ends_at_latest_witness :
  exists w' wd',
    and_then (NewWindowWithOptions (10 * Millisecond) 100 tt
                (start (stepping 2 0 (1100 * Millisecond))))
             (run_methods [AnyMethod mFail; AnyMethod mCounts]) =
    Ok (tt, w', wd') /\
    (oldest w' + inWindow w') mod bucketNums w' =
    (latest w' + 1) mod bucketNums w' /\
    (inWindow w' = 1 -> oldest w' = latest w').
Proof.
  apply (window_ends_at_latest (10 * Millisecond) 100
           [AnyMethod mFail; AnyMethod mCounts]
           (start (stepping 2 0 (1100 * Millisecond))));
    unfold in_int64; lia.
Defined.

(** ** What the reading methods leave alone *)

(** [Counts], [Samples], [ErrorRate], [Failures], [Successes], [Timeouts]
    and [ConsecutiveErrors] return on a well-formed window and never touch
    a bucket, [latest] or the streak: all they may do is to take buckets out
    of the window at its old end, and they read the clock at most once. *)
Theorem reading_only_prunes (R : Type) (m : method R) (w : window) (wd : World) :
  window_ok w ->
  is_read R m = true ->
  exists r w' wd',
    window_call R m w wd = Ok (r, w', wd') /\
    buckets w' = buckets w /\ latest w' = latest w /\
    conseErr w' = conseErr w /\
    0 <= inWindow w' <= inWindow w /\
    after (bucketNums w) (oldest w) (Z.to_nat (inWindow w - inWindow w')) =
      oldest w' /\
    (wd' = wd \/ wd' = tick wd).
Proof.
  intros Hok Hm.
  assert (HP : forall now n w1,
             window_ok w ->
             expire_pure now n w = Some w1 ->
             buckets w1 = buckets w /\ latest w1 = latest w /\
             conseErr w1 = conseErr w /\
             0 <= inWindow w1 <= inWindow w /\
             after (bucketNums w) (oldest w) (Z.to_nat (inWindow w - inWindow w1)) =
               oldest w1).
  { clear. intros now n. revert w. induction n as [|n IH]; intros w w1 Hok; simpl.
    - intros H. injection H as <-. rewrite Z.sub_diag.
      destruct Hok as (_ & _ & _ & _ & Hi). simpl.
      repeat split; try reflexivity; lia.
    - pose proof Hok as (Hl & Hb & Ho & Hla & Hi).
      destruct (inWindow w >? 0) eqn:Ei; zbool.
      2:{ intros H. injection H as <-. rewrite Z.sub_diag. simpl.
          repeat split; try reflexivity; lia. }
      destruct (index (buckets w) (oldest w)) as [b|]; [|discriminate].
      destruct (wrap64 (timeStamp b + expireTime w) <=? now).
      2:{ intros H. injection H as <-. rewrite Z.sub_diag. simpl.
          repeat split; try reflexivity; lia. }
      intros H. apply IH in H.
      + cbn [buckets latest conseErr inWindow bucketNums oldest] in H.
        rewrite wrap64_id in H by (unfold in_int64; lia).
        rewrite next_eq_next in H by assumption.
        destruct H as (H1 & H2 & H3 & H4 & H5).
        repeat (split; [assumption || lia|]).
        rewrite <- H5.
        replace (Z.to_nat (inWindow w - inWindow w1))
          with (Datatypes.S (Z.to_nat (inWindow w - 1 - inWindow w1))) by lia.
        reflexivity.
      + unfold window_ok; simpl. rewrite next_eq_next by assumption.
        rewrite wrap64_id by (unfold in_int64; lia).
        pose proof (next_range _ _ Hb Ho). lia. }
  assert (HC : forall A (k : Z * Z * Z -> M window A),
             (forall x w0 wd0, exists a, k x w0 wd0 = Ok (a, w0, wd0)) ->
             exists r w' wd',
               bind window_Counts k w wd = Ok (r, w', wd') /\
               buckets w' = buckets w /\ latest w' = latest w /\
               conseErr w' = conseErr w /\
               0 <= inWindow w' <= inWindow w /\
               after (bucketNums w) (oldest w)
                     (Z.to_nat (inWindow w - inWindow w')) = oldest w' /\
               (wd' = wd \/ wd' = tick wd)).
  { intros A k Hk. unfold bind.
    destruct (window_Counts_ok w wd Hok) as (r & w' & E & _).
    rewrite E. destruct (Hk r w' (tick wd)) as [a Ea]. rewrite Ea.
    exists a, w', (tick wd). split; [reflexivity|].
    rewrite window_Counts_eq in E.
    destruct (expire_pure _ _ w) as [w1|] eqn:Ee; [|discriminate].
    destruct (sum_ring _ _ _ _ _); [|discriminate].
    injection E as _ <-.
    destruct (HP _ _ _ Hok Ee) as (H1 & H2 & H3 & H4 & H5). auto 10. }
  destruct m; try discriminate; cbn [window_call].
  - apply HC. intros [[s f] t] w0 wd0. eexists; reflexivity.
  - apply HC. intros [[s f] t] w0 wd0. eexists; reflexivity.
  - apply HC. intros [[s f] t] w0 wd0. eexists; reflexivity.
  - exists (conseErr w), w, wd. rewrite Z.sub_diag. simpl.
    destruct Hok as (_ & _ & _ & _ & Hi).
    repeat split; try reflexivity; try lia. left; reflexivity.
  - apply HC. intros [[s f] t] w0 wd0.
    destruct (wrap64 (wrap64 (s + f) + t) =? 0); eexists; reflexivity.
  - apply HC. intros [[s f] t] w0 wd0. eexists; reflexivity.
  - destruct (HC _ (fun x => ret x)) as (r & w' & wd' & E & H).
    { intros x w0 wd0. eexists; reflexivity. }
    exists r, w', wd'. split; [|exact H].
    unfold bind in E. destruct (window_Counts w wd) as [[[x w1] wd1]|];
      [exact E | discriminate].
Qed.

(** The samples of the window with two failures, asked for at t=200ms. *)
Lemma reading_only_prunes_witness :
  exists r w' wd',
    window_Samples (window_of two_failures) (clock_of two_failures) =
    Ok (r, w', wd') /\
    buckets w' = buckets (window_of two_failures) /\
    latest w' = 1 /\ conseErr w' = 2.
Proof.
  destruct (reading_only_prunes Z mSamples (window_of two_failures)
              (clock_of two_failures))
    as (r & w' & wd' & E & Hb & Hl & Hc & _).
  - by_evaluation.
  - reflexivity.
  - exists r, w', wd'. split; [exact E|]. split; [exact Hb|].
    split; [exact Hl | exact Hc].
Defined.

(** ** What no call changes *)

Lemma Breaker_error_frame (isTimeout : bool) (trip : TripFunc) (b : Breaker)
      (wd : World) (b' : Breaker) (wd' : World) :
  window_ok (Container b) ->
  Breaker_error isTimeout trip b wd = Ok (tt, b', wd') ->
  exists w' s' t',
    b' = mkBreaker w' s' t' (lastRetryTime b) (halfopenSuccess b) (options b)
                   (Breaker_now b) /\
    window_ok w' /\
    (s' = OPEN \/ (s' = CLOSED /\ state b = CLOSED /\ t' = openTime b)).
Proof.
  intros Hok.
  destruct (error_records isTimeout b wd Hok)
    as (l & bk & w1 & wd1 & Hw & E & Hr & Hn & _).
  assert (Hok1 : window_ok w1) by apply Hr.
  assert (Hnote : forall s t w0 (wdx : World) b2 wd2,
             window_ok w0 ->
             (notify s t;;
              t0 <- time_Now;; modify (set_openTime t0);; modify (set_state OPEN))
               (set_Container b w0) wdx = Ok (tt, b2, wd2) ->
             exists w' s' t',
               b2 = mkBreaker w' s' t' (lastRetryTime b) (halfopenSuccess b)
                              (options b) (Breaker_now b) /\
               window_ok w' /\
               (s' = OPEN \/ (s' = CLOSED /\ state b = CLOSED /\ t' = openTime b))).
  { intros s t w0 wdx b2 wd2 Hokx.
    destruct (notify_ok s t (set_Container b w0) wdx Hokx)
      as (w2 & wdn & En & Hok2 & _).
    unfold bind at 1. rewrite En. unfold bind, time_Now, modify. simpl.
    intros H. injection H as <- _.
    do 3 eexists. split; [reflexivity|]. split; [exact Hok2 | left; reflexivity]. }
  unfold Breaker_error. unfold bind at 1. rewrite E.
  unfold bind at 1. unfold gets at 1.
  change (state (set_Container b w1)) with (state b).
  destruct (state b) eqn:Hs.
  - intros H. injection H as <- _.
    exists w1, OPEN, (openTime b). unfold set_Container. rewrite Hs. auto.
  - apply Hnote. exact Hok1.
  - destruct trip as [p|]; simpl.
    + unfold bind at 1.
      destruct (run_prog Breaker_call p (set_Container b w1) wd1)
        as [[[r b2] wd2]|] eqn:E2; [|discriminate].
      destruct (run_prog_Breaker_any p (set_Container b w1) wd1 r b2 wd2 Hok1 E2)
        as (w2 & -> & Hok2 & _).
      destruct r.
      * apply Hnote. exact Hok2.
      * intros H. injection H as <- _.
        exists w2, CLOSED, (openTime b). unfold set_Container; simpl.
        rewrite Hs. auto 10.
    + unfold bind, ret. intros H. injection H as <- _.
      exists w1, CLOSED, (openTime b). unfold set_Container; simpl.
      rewrite Hs. auto 10.
Qed.

Lemma do_call_keeps (c : call) (b : Breaker) (wd : World) (b' : Breaker)
      (wd' : World) :
  window_ok (Container b) ->
  0 < HalfOpenSuccess (options b) < 2 ^ 63 ->
  probes_below_threshold b ->
  do_call c b wd = Ok (tt, b', wd') ->
  options b' = options b /\ window_ok (Container b') /\
  probes_below_threshold b'.
Proof.
  intros Hok Hth Hp.
  assert (HE : forall isTimeout trip,
             Breaker_error isTimeout trip b wd = Ok (tt, b', wd') ->
             options b' = options b /\ window_ok (Container b') /\
             probes_below_threshold b').
  { intros isTimeout trip H.
    destruct (Breaker_error_frame isTimeout trip b wd b' wd' Hok H)
      as (w' & s' & t' & -> & Hok' & Hst).
    split; [reflexivity|]. split; [exact Hok'|].
    unfold probes_below_threshold. simpl. intros Hh.
    destruct Hst as [->|(-> & _)]; discriminate. }
  assert (HR : forall R (m : method R),
             (_ <- on_Container (window_call R m);; ret tt) b wd =
             Ok (tt, b', wd') ->
             options b' = options b /\ window_ok (Container b') /\
             probes_below_threshold b').
  { intros R m. unfold bind.
    destruct (on_Container_call_ok R m b wd Hok) as (r & w1 & wd1 & E & Hok1).
    rewrite E. unfold ret. intros H. injection H as <- _.
    split; [reflexivity|]. split; [exact Hok1 | exact Hp]. }
  destruct c; cbn [do_call].
  - unfold Breaker_IsAllowed, Breaker_isAllowed; unfold bind, gets, time_Now, modify, ret.
    unfold probes_below_threshold in *.
    destruct (state b) eqn:Hs; simpl.
    + destruct (Time_After _ _); intros H; injection H as <- _; simpl;
        (split; [reflexivity|]); (split; [exact Hok|]); intros Hh.
      * congruence.
      * lia.
    + destruct (Time_After _ _); intros H; injection H as <- _; simpl;
        (split; [reflexivity|]); (split; [exact Hok|]); intros _; auto.
    + intros H; injection H as <- _. rewrite Hs. auto.
  - unfold Breaker_Succeed. unfold bind at 1. unfold gets at 1.
    destruct (state b) eqn:Hs.
    + unfold ret. intros H. injection H as <- _. auto.
    + unfold bind at 1. unfold modify at 1.
      unfold bind at 1. unfold gets at 1.
      unfold bind at 1. unfold gets at 1.
      cbn [halfopenSuccess set_halfopenSuccess options].
      specialize (Hp Hs).
      rewrite wrap64_id by (unfold in_int64; lia).
      destruct (halfopenSuccess b + 1 =? HalfOpenSuccess (options b)) eqn:Ee; zbool.
      * set (b1 := set_halfopenSuccess (halfopenSuccess b + 1) b).
        destruct (notify_ok HALFOPEN CLOSED b1 wd Hok)
          as (w1 & wd1 & En & Hok1 & _).
        unfold bind at 1. rewrite En.
        destruct (window_Reset_ok w1 wd1 Hok1) as (w2 & Er & Hok2 & _).
        unfold bind, modify. rewrite on_Container_eq. simpl. rewrite Er.
        intros H. injection H as <- _. simpl.
        split; [reflexivity|]. split; [exact Hok2|].
        unfold probes_below_threshold. simpl. discriminate.
      * unfold ret. intros H. injection H as <- _. simpl.
        split; [reflexivity|]. split; [exact Hok|].
        unfold probes_below_threshold. simpl. intros _. lia.
    + rewrite on_Container_eq.
      destruct (window_Succeed_ok (Container b) wd Hok)
        as (l & bk & w' & wd1 & _ & E & Hr & _).
      rewrite E. intros H. injection H as <- _. simpl.
      split; [reflexivity|]. split; [apply Hr|].
      unfold probes_below_threshold. simpl. congruence.
  - unfold Breaker_Fail, bind, gets. apply HE.
  - apply HE.
  - unfold Breaker_Timeout, bind, gets. apply HE.
  - apply HE.
  - unfold bind, Breaker_State, gets, ret. intros H. injection H as <- _. auto.
  - unfold Breaker_Reset, bind, modify. rewrite on_Container_eq.
    destruct (window_Reset_ok (Container b) wd Hok) as (w1 & E & Hok1 & _).
    rewrite E. simpl. intros H. injection H as <- _. simpl.
    split; [reflexivity|]. split; [exact Hok1|].
    unfold probes_below_threshold. simpl. discriminate.
  - exact (HR _ mFailures).
  - exact (HR _ mSuccesses).
  - exact (HR _ mTimeouts).
  - exact (HR _ mConsecutiveErrors).
  - exact (HR _ mErrorRate).
  - exact (HR _ mSamples).
  - exact (HR _ mCounts).
Qed.

Lemma run_calls_keeps (cs : list call) (b : Breaker) (wd : World) (b' : Breaker)
      (wd' : World) :
  window_ok (Container b) ->
  0 < HalfOpenSuccess (options b) < 2 ^ 63 ->
  probes_below_threshold b ->
  run_calls cs b wd = Ok (tt, b', wd') ->
  options b' = options b /\ window_ok (Container b') /\
  probes_below_threshold b'.
Proof.
  revert b wd. induction cs as [|c cs IH]; intros b wd Hok Hth Hp; simpl.
  - unfold ret. intros H. injection H as <- _. auto.
  - unfold bind. destruct (do_call c b wd) as [[[[] b1] wd1]|] eqn:E;
      [|discriminate].
    destruct (do_call_keeps c b wd b1 wd1 Hok Hth Hp E) as (Ho & Hok1 & Hp1).
    intros H. rewrite <- Ho in Hth.
    destruct (IH b1 wd1 Hok1 Hth Hp1 H) as (Ho' & Hok' & Hp').
    split; [congruence|]. auto.
Qed.

(** What [NewBreaker] leaves in the breaker: the options after the tests,
    but for [BreakerMinQPS], which the copy leaves out. *)
Lemma NewBreaker_options (dr : float) (dm : Z) (o : Options) (wd : World)
      (b : Breaker) (wd' : World) :
  NewBreaker dr dm o tt wd = Ok (Value b, tt, wd') ->
  halfopenSuccess b = 0 /\
  BreakerMinQPS (options b) = 0 /\
  HalfOpenSuccess (options b) =
    (if HalfOpenSuccess o <=? 0 then DEFAULT_HALFOPEN_SUCCESSES
     else HalfOpenSuccess o) /\
  ShouldTrip (options b) =
    (if is_nil (ShouldTrip o)
     then RateTripFunc
            (if PrimFloat.leb (BreakerRate o) 0 then dr else BreakerRate o)
            (if BreakerMinSamples o <=? 0 then dm else BreakerMinSamples o)
     else ShouldTrip o) /\
  StateChangeHandler (options b) = StateChangeHandler o.
Proof.
  unfold NewBreaker, bind. rewrite with_defaults_eq.
  cbn [BucketTime BucketNums BreakerRate BreakerMinQPS BreakerMinSamples
       CoolingTimeout DetectTimeout HalfOpenSuccess ShouldTrip
       StateChangeHandler now].
  match goal with
  | |- context [NewWindowWithOptions ?x ?y tt wd] =>
      destruct (NewWindowWithOptions x y tt wd) as [[[[w|e] []] wd1]|]
  end; try discriminate.
  intros H. injection H as <- _.
  cbn [halfopenSuccess options BreakerMinQPS HalfOpenSuccess ShouldTrip
       StateChangeHandler].
  repeat split.
Qed.

Lemma Breaker_error_returns (isTimeout : bool) (trip : TripFunc) (b : Breaker)
      (wd : World) :
  window_ok (Container b) ->
  read_only_trip trip ->
  exists b' wd', Breaker_error isTimeout trip b wd = Ok (tt, b', wd').
Proof.
  intros Hok Htrip.
  destruct (error_records isTimeout b wd Hok)
    as (l & bk & w1 & wd1 & Hw & E & Hr & Hn & _).
  assert (Hok1 : window_ok (Container (set_Container b w1))) by apply Hr.
  assert (Hnote : forall s t (b1 : Breaker) (wdx : World),
             window_ok (Container b1) ->
             exists b2 wd2,
               (notify s t;;
                t0 <- time_Now;; modify (set_openTime t0);; modify (set_state OPEN))
                 b1 wdx = Ok (tt, b2, wd2)).
  { intros s t b1 wdx Hokx.
    destruct (notify_ok s t b1 wdx Hokx) as (w2 & wd2 & En & _).
    unfold bind at 1. rewrite En.
    eexists; eexists. reflexivity. }
  unfold Breaker_error. unfold bind at 1. rewrite E.
  unfold bind at 1. unfold gets at 1.
  change (state (set_Container b w1)) with (state b).
  destruct (state b).
  - exists (set_Container b w1), wd1. reflexivity.
  - exact (Hnote HALFOPEN OPEN (set_Container b w1) wd1 Hok1).
  - destruct trip as [p|]; simpl.
    + destruct (run_prog_Breaker_read p (set_Container b w1) wd1 Hok1 Htrip)
        as (r & w2 & wd2 & E2 & Hok2 & _).
      unfold bind at 1. rewrite E2. simpl.
      destruct r.
      * exact (Hnote CLOSED OPEN (set_Container b w2) wd2 Hok2).
      * exists (set_Container b w2), wd2. reflexivity.
    + exists (set_Container b w1), wd1. reflexivity.
Qed.

Lemma do_call_returns (c : call) (b : Breaker) (wd : World) :
  window_ok (Container b) ->
  read_only_trip (ShouldTrip (options b)) ->
  call_read_only c ->
  exists b' wd', do_call c b wd = Ok (tt, b', wd').
Proof.
  intros Hok Ht Hc.
  assert (HR : forall R (m : method R),
             exists b' wd',
               (_ <- on_Container (window_call R m);; ret tt) b wd =
               Ok (tt, b', wd')).
  { intros R m. unfold bind.
    destruct (on_Container_call_ok R m b wd Hok) as (r & w1 & wd1 & E & Hok1).
    rewrite E. eexists; eexists; reflexivity. }
  destruct c; cbn [do_call].
  - unfold bind, Breaker_IsAllowed.
    destruct (Breaker_isAllowed_ok b wd) as (r & b1 & wd1 & E & _).
    rewrite E. eexists; eexists; reflexivity.
  - destruct (Breaker_Succeed_ok b wd Hok) as (b1 & wd1 & E & _).
    exists b1, wd1. exact E.
  - unfold Breaker_Fail, bind, gets. now apply Breaker_error_returns.
  - now apply Breaker_error_returns.
  - unfold Breaker_Timeout, bind, gets. now apply Breaker_error_returns.
  - now apply Breaker_error_returns.
  - eexists; eexists; reflexivity.
  - unfold Breaker_Reset, bind, modify. rewrite on_Container_eq.
    destruct (window_Reset_ok (Container b) wd Hok) as (w1 & E & _).
    rewrite E. eexists; eexists; reflexivity.
  - exact (HR _ mFailures).
  - exact (HR _ mSuccesses).
  - exact (HR _ mTimeouts).
  - exact (HR _ mConsecutiveErrors).
  - exact (HR _ mErrorRate).
  - exact (HR _ mSamples).
  - exact (HR _ mCounts).
Qed.

Lemma do_call_options (c : call) (b : Breaker) (wd : World) (b' : Breaker)
      (wd' : World) :
  window_ok (Container b) ->
  do_call c b wd = Ok (tt, b', wd') ->
  options b' = options b.
Proof.
  intros Hok.
  assert (HE : forall isTimeout trip,
             Breaker_error isTimeout trip b wd = Ok (tt, b', wd') ->
             options b' = options b).
  { intros isTimeout trip H.
    destruct (Breaker_error_frame isTimeout trip b wd b' wd' Hok H)
      as (w' & s' & t' & -> & _). reflexivity. }
  assert (HR : forall R (m : method R),
             (_ <- on_Container (window_call R m);; ret tt) b wd =
             Ok (tt, b', wd') -> options b' = options b).
  { intros R m. unfold bind.
    destruct (on_Container_call_ok R m b wd Hok) as (r & w1 & wd1 & E & Hok1).
    rewrite E. unfold ret. intros H. injection H as <- _. reflexivity. }
  destruct c; cbn [do_call].
  - unfold Breaker_IsAllowed, Breaker_isAllowed;
      unfold bind, gets, time_Now, modify, ret.
    destruct (state b); simpl.
    + destruct (Time_After _ _); intros H; injection H as <- _; reflexivity.
    + destruct (Time_After _ _); intros H; injection H as <- _; reflexivity.
    + intros H; injection H as <- _; reflexivity.
  - unfold Breaker_Succeed. unfold bind at 1. unfold gets at 1.
    destruct (state b).
    + unfold ret. intros H. injection H as <- _. reflexivity.
    + unfold bind at 1. unfold modify at 1.
      unfold bind at 1. unfold gets at 1.
      unfold bind at 1. unfold gets at 1.
      match goal with |- context [if ?c then _ else _] => destruct c end.
      * set (b1 := set_halfopenSuccess (wrap64 (halfopenSuccess b + 1)) b).
        destruct (notify_ok HALFOPEN CLOSED b1 wd Hok)
          as (w1 & wd1 & En & Hok1 & _).
        unfold bind at 1. rewrite En.
        destruct (window_Reset_ok w1 wd1 Hok1) as (w2 & Er & Hok2 & _).
        unfold bind, modify. rewrite on_Container_eq. simpl. rewrite Er.
        intros H. injection H as <- _. reflexivity.
      * unfold ret. intros H. injection H as <- _. reflexivity.
    + rewrite on_Container_eq.
      destruct (window_Succeed_ok (Container b) wd Hok)
        as (l & bk & w' & wd1 & _ & E & _).
      rewrite E. intros H. injection H as <- _. reflexivity.
  - unfold Breaker_Fail, bind, gets. apply HE.
  - apply HE.
  - unfold Breaker_Timeout, bind, gets. apply HE.
  - apply HE.
  - unfold bind, Breaker_State, gets, ret. intros H. injection H as <- _. auto.
  - unfold Breaker_Reset, bind, modify. rewrite on_Container_eq.
    destruct (window_Reset_ok (Container b) wd Hok) as (w1 & E & Hok1 & _).
    rewrite E. simpl. intros H. injection H as <- _. reflexivity.
  - exact (HR _ mFailures).
  - exact (HR _ mSuccesses).
  - exact (HR _ mTimeouts).
  - exact (HR _ mConsecutiveErrors).
  - exact (HR _ mErrorRate).
  - exact (HR _ mSamples).
  - exact (HR _ mCounts).
Qed.

Lemma run_calls_returns (cs : list call) (b : Breaker) (wd : World) :
  window_ok (Container b) ->
  read_only_trip (ShouldTrip (options b)) ->
  Forall call_read_only cs ->
  exists b' wd', run_calls cs b wd = Ok (tt, b', wd').
Proof.
  revert b wd. induction cs as [|c cs IH]; intros b wd Hok Ht Hcs; simpl.
  - exists b, wd. reflexivity.
  - inversion Hcs as [|c' cs' Hc Hcs']; subst.
    destruct (do_call_returns c b wd Hok Ht Hc) as (b1 & wd1 & E).
    unfold bind. rewrite E.
    apply IH; [eapply do_call_ok; eassumption | | exact Hcs'].
    rewrite (do_call_options c b wd b1 wd1 Hok E). exact Ht.
Qed.

(** ** Histories of a breaker *)

(** Take a breaker that [NewBreaker] made, with a [ShouldTrip] that only
    reads (or none, which makes it [RateTripFunc]), and any history of calls
    whose own predicates, where they bring one, only read or are nil.  Every
    call returns: no index is out of range, no nil function is called, and
    the lock is never taken twice.  The handler may do as it likes with the
    container it is given. *)
Theorem calls_return_when_trips_only_read (dr : float) (dm : Z) (o : Options)
        (wd0 : World) (b0 : Breaker) (wd1 : World) (cs : list call) :
  in_int64 (BucketNums o) ->
  NewBreaker dr dm o tt wd0 = Ok (Value b0, tt, wd1) ->
  read_only_trip (ShouldTrip o) ->
  Forall call_read_only cs ->
  exists b wd,
    run_calls cs b0 wd1 = Ok (tt, b, wd) /\ window_ok (Container b).
Proof.
  intros Hr Hnew Ht Hcs.
  destruct (NewBreaker_ok dr dm o wd0 b0 wd1 Hr Hnew) as [Hok _].
  destruct (NewBreaker_options dr dm o wd0 b0 wd1 Hnew)
    as (_ & _ & _ & Hst & _).
  assert (Ht0 : read_only_trip (ShouldTrip (options b0))).
  { rewrite Hst. destruct (is_nil (ShouldTrip o)); [|exact Ht].
    apply RateTripFunc_read_only. }
  destruct (run_calls_returns cs b0 wd1 Hok Ht0 Hcs) as (b & wd & E).
  exists b, wd. split; [exact E|].
  eapply run_calls_ok; eassumption.
Qed.

(** With the consecutive-errors predicate at threshold 3: three failures,
    one of them with a rate predicate of its own, an admission test, a
    success and a reading of the counts all return. *)
Lemma calls_return_when_trips_only_read_witness :
  exists b wd,
    history consecutive_options (fun _ => 0)
            [CFail; CFailWithTrip (RateTripFunc 0.5%float 1); CIsAllowed;
             CTimeoutWithTrip None; CSucceed; CCounts] = Ok (tt, b, wd).
Proof.
  assert (Hr : in_int64 (BucketNums consecutive_options))
    by (unfold in_int64; simpl; lia).
  assert (Hnew : NewBreaker 0.5%float 20 consecutive_options tt
                            (start (fun _ => 0)) =
                 Ok (Value (breaker_of (history consecutive_options
                                                (fun _ => 0) [])),
                     tt, world_of (history consecutive_options (fun _ => 0) [])))
    by (vm_compute; reflexivity).
  assert (Ht : read_only_trip (ShouldTrip consecutive_options))
    by (simpl; auto).
  assert (Hcs : Forall call_read_only
                  [CFail; CFailWithTrip (RateTripFunc 0.5%float 1); CIsAllowed;
                   CTimeoutWithTrip None; CSucceed; CCounts]).
  { repeat apply Forall_cons; try apply Forall_nil; try exact I.
    apply RateTripFunc_read_only. }
  destruct (calls_return_when_trips_only_read _ _ _ _ _ _ _ Hr Hnew Ht Hcs)
    as (b & wd & E & _).
  exists b, wd. unfold history. rewrite Hnew. exact E.
Defined.

(** A breaker keeps the options [NewBreaker] gave it through any history of
    calls, whatever the callbacks do: the threshold of probes is the one
    asked for, or the default when none was; [BreakerMinQPS] is 0 whatever
    was asked for, since [NewBreaker] does not copy it.  And while the
    breaker is HALFOPEN, the count of successful probes is below that
    threshold: the success that reaches it closes the breaker. *)
Theorem probes_stay_below_threshold (dr : float) (dm : Z) (o : Options)
        (wd0 : World) (cs : list call) (b : Breaker) (wd : World) :
  in_int64 (BucketNums o) ->
  in_int64 (HalfOpenSuccess o) ->
  and_then (NewBreaker dr dm o tt wd0) (run_calls cs) = Ok (tt, b, wd) ->
  HalfOpenSuccess (options b) =
    (if HalfOpenSuccess o <=? 0 then DEFAULT_HALFOPEN_SUCCESSES
     else HalfOpenSuccess o) /\
  BreakerMinQPS (options b) = 0 /\
  StateChangeHandler (options b) = StateChangeHandler o /\
  (state b = HALFOPEN ->
   0 <= halfopenSuccess b < HalfOpenSuccess (options b)).
Proof.
  intros Hr Hh Hrun.
  destruct (and_then_Ok _ _ _ _ _ Hrun) as (b0 & wd1 & Hnew & Hrun').
  destruct (NewBreaker_ok dr dm o wd0 b0 wd1 Hr Hnew) as [Hok Hs].
  destruct (NewBreaker_options dr dm o wd0 b0 wd1 Hnew)
    as (Hhs & Hq & Hth & _ & Hsc).
  assert (Hth0 : 0 < HalfOpenSuccess (options b0) < 2 ^ 63).
  { rewrite Hth. unfold in_int64, DEFAULT_HALFOPEN_SUCCESSES in *.
    destruct (HalfOpenSuccess o <=? 0) eqn:E; zbool; lia. }
  assert (Hp0 : probes_below_threshold b0).
  { unfold probes_below_threshold. rewrite Hs. discriminate. }
  destruct (run_calls_keeps cs b0 wd1 b wd Hok Hth0 Hp0 Hrun')
    as (Ho & _ & Hp).
  unfold probes_below_threshold in Hp. rewrite Ho in Hp |- *.
  split; [exact Hth|]. split; [exact Hq|]. split; [exact Hsc | exact Hp].
Qed.

(** The rate-trip breaker once [IsAllowed] has let the first probe through:
    it is HALFOPEN, no probe has succeeded yet, and the threshold is the
    default. *)
Lemma probes_stay_below_threshold_witness :
  HalfOpenSuccess (options (breaker_of probing)) = DEFAULT_HALFOPEN_SUCCESSES /\
  state (breaker_of probing) = HALFOPEN /\
  0 <= halfopenSuccess (breaker_of probing) <
  HalfOpenSuccess (options (breaker_of probing)).
Proof.
  assert (Hr : in_int64 (BucketNums rate_options))
    by (unfold in_int64; simpl; lia).
  assert (Hh : in_int64 (HalfOpenSuccess rate_options))
    by (unfold in_int64; simpl; lia).
  assert (Hrun : and_then (NewBreaker 0.5%float 20 rate_options tt
                             (start (stepping 23 0 (5001 * Millisecond))))
                          (run_calls (rate_trip_calls ++ [CIsAllowed])) =
                 Ok (tt, breaker_of probing, world_of probing))
    by (vm_compute; reflexivity).
  destruct (probes_stay_below_threshold _ _ _ _ _ _ _ Hr Hh Hrun)
    as (Hth & _ & _ & Hp).
  split; [exact Hth|]. split; [reflexivity|]. apply Hp. reflexivity.
Defined.

(** ** A breaker fresh from [NewBreaker] *)

Lemma NewBreaker_window (dr : float) (dm : Z) (o : Options) (wd : World)
      (b : Breaker) (wd' : World) :
  NewBreaker dr dm o tt wd = Ok (Value b, tt, wd') ->
  state b = CLOSED /\ wd' = tick wd /\
  oldest (Container b) = 0 /\ inWindow (Container b) = 1 /\
  conseErr (Container b) = 0 /\
  index (buckets (Container b)) 0 =
    Some (mkBucket 0 0 0 (wrap64 (wall wd (ticks wd)))).
Proof.
  unfold NewBreaker, bind. rewrite with_defaults_eq.
  cbn [BucketTime BucketNums BreakerRate BreakerMinQPS BreakerMinSamples
       CoolingTimeout DetectTimeout HalfOpenSuccess ShouldTrip
       StateChangeHandler now].
  rewrite NewWindowWithOptions_eq.
  match goal with |- context [?n <? 100] => destruct (n <? 100) eqn:E end;
    [discriminate|]. zbool.
  intros H. injection H as <- <-.
  cbn [state Container oldest inWindow conseErr buckets].
  repeat split.
  apply index_store_same. rewrite len_repeat; lia.
Qed.

Lemma window_Counts_of_one_empty_bucket (w : window) (wd : World) (ts : Z) :
  oldest w = 0 -> inWindow w = 1 ->
  index (buckets w) 0 = Some (mkBucket 0 0 0 ts) ->
  exists w', window_Counts w wd = Ok ((0, 0, 0), w', tick wd) /\
             buckets w' = buckets w /\ conseErr w' = conseErr w.
Proof.
  intros Ho Hi Hb.
  rewrite window_Counts_eq.
  rewrite Hi. simpl. rewrite Hi, Ho, Hb. simpl.
  destruct (wrap64 (ts + expireTime w) <=? wrap64 (wall wd (ticks wd))).
  - simpl. eexists. split; [reflexivity|]. split; reflexivity.
  - rewrite Hi, Ho. simpl. rewrite Hb. simpl. eexists.
    split; [reflexivity|]. split; reflexivity.
Qed.

(** Whatever the options, a breaker that [NewBreaker] returned is CLOSED and
    admits without reading the clock; and at whatever time it is asked, it
    counts no success, failure or timeout, no consecutive error, and its
    error rate is 0.0: [ErrorRate] tests for the empty window before it
    divides. *)
Theorem new_breaker_counts_nothing (dr : float) (dm : Z) (o : Options)
        (wd0 : World) (b : Breaker) (wd1 : World) (wd : World) :
  NewBreaker dr dm o tt wd0 = Ok (Value b, tt, wd1) ->
  Breaker_State b wd = Ok (CLOSED, b, wd) /\
  Breaker_IsAllowed b wd = Ok (true, b, wd) /\
  Breaker_ConsecutiveErrors b wd = Ok (0, b, wd) /\
  exists b',
    Breaker_Counts b wd = Ok ((0, 0, 0), b', tick wd) /\
    Breaker_Samples b wd = Ok (0, b', tick wd) /\
    Breaker_ErrorRate b wd = Ok (0%float, b', tick wd).
Proof.
  intros Hnew.
  destruct (NewBreaker_window dr dm o wd0 b wd1 Hnew)
    as (Hs & _ & Ho & Hi & Hc & Hb).
  split; [unfold Breaker_State, gets; now rewrite Hs|].
  split.
  { unfold Breaker_IsAllowed, Breaker_isAllowed, bind, gets.
    rewrite Hs. reflexivity. }
  split.
  { unfold Breaker_ConsecutiveErrors. rewrite on_Container_eq.
    unfold window_ConsecutiveErrors, gets. rewrite Hc.
    now rewrite set_Container_same. }
  destruct (window_Counts_of_one_empty_bucket (Container b) wd _ Ho Hi Hb)
    as (w' & E & _).
  exists (set_Container b w').
  unfold Breaker_Counts, Breaker_Samples, Breaker_ErrorRate.
  rewrite !on_Container_eq.
  unfold window_Samples, window_ErrorRate, bind. rewrite E.
  repeat split.
Qed.

(** The fresh rate-trip breaker, asked five seconds after it was made. *)
Lemma new_breaker_counts_nothing_witness :
  exists b',
    Breaker_Counts (breaker_of fresh) (start (fun _ => 5 * Second)) =
      Ok ((0, 0, 0), b', tick (start (fun _ => 5 * Second))) /\
    Breaker_ErrorRate (breaker_of fresh) (start (fun _ => 5 * Second)) =
      Ok (0%float, b', tick (start (fun _ => 5 * Second))).
Proof.
  assert (Hnew : NewBreaker 0.5%float 20 rate_options tt (start (fun _ => 0)) =
                 Ok (Value (breaker_of fresh), tt, world_of fresh))
    by (vm_compute; reflexivity).
  destruct (new_breaker_counts_nothing _ _ _ _ _ _ (start (fun _ => 5 * Second))
              Hnew) as (_ & _ & _ & b' & Ec & _ & Er).
  exists b'. split; [exact Ec | exact Er].
Defined.

(** ** The threshold predicate *)

(** With the threshold predicate, an error reported to a CLOSED breaker is
    recorded, then the failures in the window are counted, then the
    timeouts, at the next reading of the clock; the breaker opens exactly
    when the two counts together have reached the threshold.  Successes do
    not enter, and a bucket that expires between the two readings is in the
    first count only. *)
Theorem ThresholdTripFunc_trips_at_threshold (threshold : Z)
        (isTimeout : bool) (own : option TripFunc) (b : Breaker) (wd : World) :
  state b = CLOSED ->
  window_ok (Container b) ->
  match own with
  | None => ShouldTrip (options b)
  | Some trip => trip
  end = ThresholdTripFunc threshold ->
  exists w1 wd1 f w2 t w3 b' wd',
    (if isTimeout then window_Timeout else window_Fail) (Container b) wd =
    Ok (tt, w1, wd1) /\
    window_Failures w1 wd1 = Ok (f, w2, tick wd1) /\
    window_Timeouts w2 (tick wd1) = Ok (t, w3, tick (tick wd1)) /\
    error_report isTimeout own b wd = Ok (tt, b', wd') /\
    state b' = (if wrap64 (f + t) >=? threshold then OPEN else CLOSED) /\
    (wrap64 (f + t) < threshold -> b' = set_Container b w3 /\ wd' = tick (tick wd1)).
Proof.
  intros Hs Hok Htrip. rewrite error_report_eq, Htrip.
  destruct (error_records isTimeout b wd Hok)
    as (l & bk & w1 & wd1 & _ & E & Hr & _).
  assert (Hok1 : window_ok w1) by apply Hr.
  assert (E0 : (if isTimeout then window_Timeout else window_Fail)
                 (Container b) wd = Ok (tt, w1, wd1)).
  { destruct isTimeout; rewrite on_Container_eq in E.
    - destruct (window_Timeout (Container b) wd) as [[[[] w] wdx]|];
        [|discriminate]. injection E as -> ->. reflexivity.
    - destruct (window_Fail (Container b) wd) as [[[[] w] wdx]|];
        [|discriminate]. injection E as -> ->. reflexivity. }
  destruct (window_Counts_ok w1 wd1 Hok1) as ([[s1 f1] t1] & w2 & Ec1 & Hok2 & _).
  destruct (window_Counts_ok w2 (tick wd1) Hok2)
    as ([[s2 f2] t2] & w3 & Ec2 & Hok3 & _).
  assert (Ef : window_Failures w1 wd1 = Ok (f1, w2, tick wd1))
    by (unfold window_Failures, bind; rewrite Ec1; reflexivity).
  assert (Et : window_Timeouts w2 (tick wd1) = Ok (t2, w3, tick (tick wd1)))
    by (unfold window_Timeouts, bind; rewrite Ec2; reflexivity).
  exists w1, wd1, f1, w2, t2, w3.
  unfold Breaker_error. unfold bind at 1. rewrite E.
  unfold bind at 1. unfold gets at 1.
  change (state (set_Container b w1)) with (state b). rewrite Hs.
  unfold bind at 1. unfold ThresholdTripFunc.
  cbn [is_nil negb invoke_trip run_prog Breaker_call].
  unfold bind at 1. rewrite on_Container_eq.
  cbn [Container set_Container]. rewrite Ef.
  unfold bind at 1. rewrite on_Container_eq.
  cbn [Container set_Container]. rewrite Et.
  unfold ret at 1.
  destruct (wrap64 (f1 + t2) >=? threshold) eqn:Ege; zbool.
  - destruct (notify_ok CLOSED OPEN
                (set_Container (set_Container (set_Container b w1) w2) w3)
                (tick (tick wd1)) Hok3)
      as (w4 & wd4 & En & _).
    unfold bind at 1. rewrite En.
    eexists; eexists. split; [exact E0|]. split; [reflexivity|].
    split; [reflexivity|]. split; [reflexivity|]. split; [reflexivity|]. lia.
  - eexists; eexists. split; [exact E0|]. split; [reflexivity|].
    split; [reflexivity|]. split; [reflexivity|]. split; [exact Hs|].
    intros _. split; reflexivity.
Qed.

(** Threshold 2: after one timeout, a failure reported with the threshold
    predicate opens the breaker. *)
Lemma ThresholdTripFunc_trips_at_threshold_witness :
  state (breaker_of one_timeout) = CLOSED /\
  exists b' wd',
    Breaker_FailWithTrip (ThresholdTripFunc 2)
                         (breaker_of one_timeout) (world_of one_timeout) =
    Ok (tt, b', wd') /\
    state b' = OPEN.
Proof.
  split; [reflexivity|].
  assert (Hs : state (breaker_of one_timeout) = CLOSED) by reflexivity.
  assert (Hok : window_ok (Container (breaker_of one_timeout)))
    by by_evaluation.
  destruct (ThresholdTripFunc_trips_at_threshold 2 false
              (Some (ThresholdTripFunc 2))
              (breaker_of one_timeout) (world_of one_timeout) Hs Hok eq_refl)
    as (w1 & wd1 & f & w2 & t & w3 & b' & wd' & E0 & Ef & Et & E & Hst & _).
  rewrite error_report_eq in E. cbv beta iota in E.
  exists b', wd'. unfold Breaker_FailWithTrip. split; [exact E|].
  vm_compute in E0. injection E0 as <- <-.
  vm_compute in Ef. injection Ef as <- <-.
  vm_compute in Et. injection Et as <- _.
  exact Hst.
Defined.

(** ** The registry *)

Lemma map_get_set_same {V} (m : list (Z * V)) (k : Z) (v : V) :
  map_get (map_set m k v) k = Some v.
Proof.
  induction m as [|[k' v'] m IH]; simpl.
  - now rewrite Z.eqb_refl.
  - destruct (k' =? k) eqn:E; simpl.
    + now rewrite Z.eqb_refl.
    + now rewrite E.
Qed.

Lemma map_get_set_other {V} (m : list (Z * V)) (k k' : Z) (v : V) :
  k <> k' -> map_get (map_set m k v) k' = map_get m k'.
Proof.
  intros Hne. induction m as [|[k0 v0] m IH]; simpl.
  - destruct (k =? k') eqn:E; zbool; [contradiction | reflexivity].
  - destruct (k0 =? k) eqn:E; simpl; zbool.
    + subst k0. destruct (k =? k') eqn:E'; zbool; [contradiction | reflexivity].
    + destruct (k0 =? k'); [reflexivity | exact IH].
Qed.

Lemma store_nat_app_last {A} (l : list A) (x y : A) :
  store_nat (l ++ [x]) (List.length l) y = l ++ [y].
Proof. induction l as [|h t IH]; simpl; [reflexivity | now rewrite IH]. Qed.

(** [NewBreaker] fails for a number of buckets between 1 and 99, before it
    reads the clock, and succeeds otherwise. *)
Lemma NewBreaker_cases (dr : float) (dm : Z) (o : Options) (wd : World) :
  (0 < BucketNums o < 100 ->
   NewBreaker dr dm o tt wd =
   Ok (Error "BucketNums can't be less than 100", tt, wd)) /\
  (BucketNums o <= 0 \/ 100 <= BucketNums o ->
   exists b, NewBreaker dr dm o tt wd = Ok (Value b, tt, tick wd)).
Proof.
  unfold NewBreaker, bind. rewrite with_defaults_eq.
  cbn [BucketTime BucketNums BreakerRate BreakerMinQPS BreakerMinSamples
       CoolingTimeout DetectTimeout HalfOpenSuccess ShouldTrip
       StateChangeHandler now].
  rewrite NewWindowWithOptions_eq. unfold DEFAULT_BUCKET_NUMS.
  split; intros H.
  - destruct (BucketNums o <=? 0) eqn:E0; zbool; [lia|].
    destruct (BucketNums o <? 100) eqn:E1; zbool; [reflexivity | lia].
  - destruct (BucketNums o <=? 0) eqn:E0; zbool.
    + simpl. eexists. reflexivity.
    + destruct (BucketNums o <? 100) eqn:E1; zbool; [lia|].
      eexists. reflexivity.
Qed.

Lemma with_log_BucketNums (cmd : Z) (o : Options) :
  BucketNums (with_log cmd o) = BucketNums o.
Proof. unfold with_log. destruct (is_nil (StateChangeHandler o)); reflexivity. Qed.

Lemma GenBreaker_rejected (dr : float) (dm : Z) (cmd : Z) (o : Options)
      (mem : Memory) (wd : World) :
  0 < BucketNums o < 100 ->
  GenBreaker dr dm cmd o mem wd = Returns (None, mem, wd).
Proof.
  intros H. unfold GenBreaker. fold (with_log cmd o).
  rewrite <- (with_log_BucketNums cmd o) in H.
  rewrite (proj1 (NewBreaker_cases dr dm (with_log cmd o) wd) H).
  reflexivity.
Qed.

Lemma GenBreaker_accepted (dr : float) (dm : Z) (cmd : Z) (o : Options)
      (mem : Memory) (wd : World) :
  BucketNums o <= 0 \/ 100 <= BucketNums o ->
  exists b,
    NewBreaker dr dm (with_log cmd o) tt wd = Ok (Value b, tt, tick wd) /\
    GenBreaker dr dm cmd o mem wd =
    Returns (Some (List.length (heap mem)),
             mkMemory (heap mem ++ [b]) (BreakerWhitelist mem), tick wd).
Proof.
  intros H. unfold GenBreaker. fold (with_log cmd o).
  rewrite <- (with_log_BucketNums cmd o) in H.
  destruct (proj2 (NewBreaker_cases dr dm (with_log cmd o) wd) H) as [b E].
  exists b. rewrite E. split; reflexivity.
Qed.

Lemma IsTriggerBreaker_without_entry (dr : float) (dm : Z) (cmd : Z)
      (b : CircuitBreaker) (mem : Memory) (wd : World) :
  map_get (Breakers b) cmd = None \/ map_get (Breakers b) cmd = Some None ->
  map_get (BreakerWhitelist mem) cmd <> Some true ->
  exists breaker,
    state breaker = CLOSED /\
    IsTriggerBreaker dr dm cmd b mem wd =
    Returns (false,
             mkMemory (heap mem ++ [breaker]) (BreakerWhitelist mem),
             tick wd).
Proof.
  intros Hnone Hw.
  destruct (GenBreaker_accepted dr dm cmd zero_Options mem wd)
    as (br & Hnew & Eg); [left; simpl; lia|].
  destruct (NewBreaker_window _ _ _ _ _ _ Hnew) as (Hs & _).
  exists br. split; [exact Hs|].
  assert (Eget : GetBreaker dr dm cmd b mem wd =
                 Returns (Some (List.length (heap mem)),
                          mkMemory (heap mem ++ [br]) (BreakerWhitelist mem),
                          tick wd)).
  { unfold GetBreaker. destruct Hnone as [-> | ->]; exact Eg. }
  assert (Eall : IsAllowed_at (Some (List.length (heap mem)))
                   (mkMemory (heap mem ++ [br]) (BreakerWhitelist mem))
                   (tick wd) =
                 Returns (true,
                          mkMemory (heap mem ++ [br]) (BreakerWhitelist mem),
                          tick wd)).
  { unfold IsAllowed_at. cbn [heap BreakerWhitelist].
    rewrite nth_error_app2, Nat.sub_diag by lia. cbn [nth_error].
    unfold Breaker_IsAllowed, Breaker_isAllowed, bind, gets. rewrite Hs.
    unfold ret. rewrite store_nat_app_last. reflexivity. }
  unfold IsTriggerBreaker.
  destruct (map_get (BreakerWhitelist mem) cmd) as [[|]|];
    [congruence | |]; rewrite Eget, Eall; reflexivity.
Qed.

(** [IsTriggerBreaker] on a command whose breaker is on the heap: the answer
    is the negation of [IsAllowed], and the breaker is the only thing
    written. *)
Lemma IsTriggerBreaker_with_entry (dr : float) (dm : Z) (cmd : Z)
      (b : CircuitBreaker) (mem : Memory) (wd : World) (a : nat)
      (br : Breaker) :
  map_get (Breakers b) cmd = Some (Some a) ->
  nth_error (heap mem) a = Some br ->
  map_get (BreakerWhitelist mem) cmd <> Some true ->
  exists allowed br' wd',
    Breaker_IsAllowed br wd = Ok (allowed, br', wd') /\
    IsTriggerBreaker dr dm cmd b mem wd =
    Returns (negb allowed,
             mkMemory (store_nat (heap mem) a br') (BreakerWhitelist mem),
             wd').
Proof.
  intros Hget Hnth Hw.
  destruct (Breaker_isAllowed_ok br wd) as (r & br' & wd' & E & _).
  exists r, br', wd'. split; [exact E|].
  unfold IsTriggerBreaker, GetBreaker. rewrite Hget.
  unfold IsAllowed_at. rewrite Hnth.
  unfold Breaker_IsAllowed. rewrite E.
  destruct (map_get (BreakerWhitelist mem) cmd) as [[|]|];
    [congruence | |]; destruct r; reflexivity.
Qed.

(** A command that has no breaker of its own, because it was never
    registered or because [NewBreaker] refused the options it was registered
    with, is never reported as broken.  [IsTriggerBreaker] makes a breaker
    with the default options on each call, asks it, and drops it: the map is
    not written, and the breakers on the heap are as they were.  For a
    command on the white list nothing is made and the clock is not read. *)
Theorem unregistered_command_is_never_broken (dr : float) (dm : Z) (cmd : Z)
        (b : CircuitBreaker) (mem : Memory) (wd : World) :
  map_get (Breakers b) cmd = None \/ map_get (Breakers b) cmd = Some None ->
  (map_get (BreakerWhitelist mem) cmd = Some true ->
   IsTriggerBreaker dr dm cmd b mem wd = Returns (false, mem, wd)) /\
  (map_get (BreakerWhitelist mem) cmd <> Some true ->
   exists breaker,
     state breaker = CLOSED /\
     IsTriggerBreaker dr dm cmd b mem wd =
     Returns (false,
              mkMemory (heap mem ++ [breaker]) (BreakerWhitelist mem),
              tick wd)).
Proof.
  intros Hnone. split.
  - intros Hw. unfold IsTriggerBreaker. rewrite Hw. reflexivity.
  - now apply IsTriggerBreaker_without_entry.
Qed.

(** Command 289 on an empty registry, and on one that lists it as
    white. *)
Lemma unregistered_command_is_never_broken_witness :
  IsTriggerBreaker 0.5%float 20 289 (mkCircuitBreaker [])
                   (mkMemory [] [(289, true)]) (start (fun _ => 0)) =
  Returns (false, mkMemory [] [(289, true)], start (fun _ => 0)) /\
  exists breaker,
    IsTriggerBreaker 0.5%float 20 289 (mkCircuitBreaker [(7, None)])
                     (mkMemory [] []) (start (fun _ => 0)) =
    Returns (false, mkMemory [breaker] [], tick (start (fun _ => 0))).
Proof.
  split.
  - apply (unregistered_command_is_never_broken 0.5%float 20 289
             (mkCircuitBreaker []) (mkMemory [] [(289, true)])
             (start (fun _ => 0))).
    + left. reflexivity.
    + reflexivity.
  - destruct (proj2 (unregistered_command_is_never_broken 0.5%float 20 289
                       (mkCircuitBreaker [(7, None)]) (mkMemory [] [])
                       (start (fun _ => 0)) (or_introl eq_refl)))
      as (breaker & _ & E); [discriminate|].
    exists breaker. exact E.
Defined.

Lemma option_eq_dec_true (x : option bool) : x = Some true \/ x <> Some true.
Proof. destruct x as [[|]|]; [left; reflexivity | right | right]; discriminate. Qed.

Lemma IsAllowed_CLOSED (br : Breaker) (wd : World) :
  state br = CLOSED -> Breaker_IsAllowed br wd = Ok (true, br, wd).
Proof.
  intros Hs. unfold Breaker_IsAllowed, Breaker_isAllowed, bind, gets.
  rewrite Hs. reflexivity.
Qed.

(** On a registry whose entries point into the heap, [IsTriggerBreaker]
    returns: it dereferences no nil pointer, also for a command whose entry
    is nil or missing.  The white list and the map are as they were, no
    breaker but the command's own is written, and the answer is true only
    for a command off the white list whose own breaker was not CLOSED. *)
Theorem IsTriggerBreaker_returns (dr : float) (dm : Z) (cmd : Z)
        (b : CircuitBreaker) (mem : Memory) (wd : World) :
  registry_ok b mem ->
  exists r mem' wd',
    IsTriggerBreaker dr dm cmd b mem wd = Returns (r, mem', wd') /\
    registry_ok b mem' /\
    BreakerWhitelist mem' = BreakerWhitelist mem /\
    (forall a, (a < List.length (heap mem))%nat ->
               map_get (Breakers b) cmd <> Some (Some a) ->
               nth_error (heap mem') a = nth_error (heap mem) a) /\
    (r = true ->
     map_get (BreakerWhitelist mem) cmd <> Some true /\
     exists a br, map_get (Breakers b) cmd = Some (Some a) /\
                  nth_error (heap mem) a = Some br /\ state br <> CLOSED).
Proof.
  intros Hreg.
  destruct (option_eq_dec_true (map_get (BreakerWhitelist mem) cmd))
    as [Hw|Hw].
  { exists false, mem, wd. unfold IsTriggerBreaker. rewrite Hw.
    split; [reflexivity|]. split; [exact Hreg|]. split; [reflexivity|].
    split; [reflexivity | discriminate]. }
  destruct (map_get (Breakers b) cmd) as [[a|]|] eqn:Hget.
  - pose proof (Hreg cmd a Hget) as Ha.
    destruct (nth_error (heap mem) a) as [br|] eqn:Hnth;
      [|apply nth_error_None in Hnth; lia].
    destruct (IsTriggerBreaker_with_entry dr dm cmd b mem wd a br Hget Hnth Hw)
      as (allowed & br' & wd' & Ea & E).
    exists (negb allowed), (mkMemory (store_nat (heap mem) a br')
                                    (BreakerWhitelist mem)), wd'.
    split; [exact E|]. split.
    { intros c a' Hc. cbn [heap]. rewrite store_nat_length.
      exact (Hreg c a' Hc). }
    split; [reflexivity|]. split.
    { intros a' _ Hne. cbn [heap]. apply nth_error_store_nat_other.
      intros ->. now apply Hne. }
    intros Hr. split; [exact Hw|]. exists a, br.
    split; [reflexivity|]. split; [exact Hnth|].
    intros Hs. rewrite (IsAllowed_CLOSED br wd Hs) in Ea.
    injection Ea as <- _ _. discriminate.
  - destruct (IsTriggerBreaker_without_entry dr dm cmd b mem wd
                (or_intror Hget) Hw) as (br & _ & E).
    exists false, (mkMemory (heap mem ++ [br]) (BreakerWhitelist mem)), (tick wd).
    split; [exact E|]. split.
    { intros c a' Hc. cbn [heap]. rewrite length_app.
      pose proof (Hreg c a' Hc). lia. }
    split; [reflexivity|]. split; [|discriminate].
    intros a' Ha _. cbn [heap]. now rewrite nth_error_app1.
  - destruct (IsTriggerBreaker_without_entry dr dm cmd b mem wd
                (or_introl Hget) Hw) as (br & _ & E).
    exists false, (mkMemory (heap mem ++ [br]) (BreakerWhitelist mem)), (tick wd).
    split; [exact E|]. split.
    { intros c a' Hc. cbn [heap]. rewrite length_app.
      pose proof (Hreg c a' Hc). lia. }
    split; [reflexivity|]. split; [|discriminate].
    intros a' Ha _. cbn [heap]. now rewrite nth_error_app1.
Qed.

(** The rate-trip breaker, OPEN since t=0, registered for command 289 and
    asked at t=0: the command is reported as broken. *)
Lemma IsTriggerBreaker_returns_witness :
  state (breaker_of tripped) = OPEN /\
  exists mem' wd',
    IsTriggerBreaker 0.5%float 20 289 (mkCircuitBreaker [(289, Some 0%nat)])
                     (mkMemory [breaker_of tripped] []) (start (fun _ => 0)) =
    Returns (true, mem', wd').
Proof.
  split; [reflexivity|].
  assert (Hreg : registry_ok (mkCircuitBreaker [(289, Some 0%nat)])
                             (mkMemory [breaker_of tripped] [])).
  { intros cmd a H. cbn [Breakers map_get] in H.
    destruct (289 =? cmd); [|discriminate H].
    assert (a = 0%nat) by congruence. subst a. cbn [heap List.length]. lia. }
  destruct (IsTriggerBreaker_returns 0.5%float 20 289 _ _ (start (fun _ => 0))
              Hreg) as (r & mem' & wd' & E & _).
  exists mem', wd'. rewrite E.
  vm_compute in E. injection E as <- _ _. reflexivity.
Defined.

(** *** [InitCircuitBreakers] *)

Lemma InitCircuitBreakers_loop_rejected (dr : float) (dm : Z) (cmds : list Z)
      (o : Options) (cb : CircuitBreaker) (mem : Memory) (wd : World) :
  0 < BucketNums o < 100 ->
  exists cb',
    InitCircuitBreakers_loop dr dm cmds o cb mem wd = Returns (cb', mem, wd) /\
    (forall cmd, In cmd cmds -> map_get (Breakers cb') cmd = Some None) /\
    (forall cmd, ~ In cmd cmds ->
                 map_get (Breakers cb') cmd = map_get (Breakers cb) cmd).
Proof.
  intros Ho. revert cb. induction cmds as [|c cmds IH]; intros cb.
  - exists cb. simpl. split; [reflexivity|]. split; [contradiction | reflexivity].
  - cbn [InitCircuitBreakers_loop].
    rewrite (GenBreaker_rejected dr dm c o mem wd Ho).
    destruct (IH (mkCircuitBreaker (map_set (Breakers cb) c None)))
      as (cb' & E & Hin & Hout).
    exists cb'. split; [exact E|]. split.
    + intros cmd [<-|Hc].
      * destruct (in_dec Z.eq_dec c cmds) as [Hi|Hi]; [now apply Hin|].
        rewrite (Hout c Hi). cbn [Breakers]. apply map_get_set_same.
      * now apply Hin.
    + intros cmd Hn. rewrite Hout by (intros Hc; apply Hn; now right).
      cbn [Breakers]. apply map_get_set_other.
      intros <-. apply Hn. now left.
Qed.

(** Options that [NewBreaker] refuses, a number of buckets between 1 and
    99, are not reported by [InitCircuitBreakers]: it returns a registry in
    which every command has a nil breaker.  No breaker was made and the
    clock was not read. *)
Theorem rejected_options_register_nil (dr : float) (dm : Z) (cmds : list Z)
        (o : Options) (mem : Memory) (wd : World) :
  0 < BucketNums o < 100 ->
  exists b,
    InitCircuitBreakers dr dm cmds o mem wd = Returns (b, mem, wd) /\
    (forall cmd, In cmd cmds -> map_get (Breakers b) cmd = Some None) /\
    (forall cmd, ~ In cmd cmds -> map_get (Breakers b) cmd = None).
Proof.
  intros Ho. unfold InitCircuitBreakers.
  destruct (InitCircuitBreakers_loop_rejected dr dm cmds o (mkCircuitBreaker [])
              mem wd Ho) as (cb' & E & Hin & Hout).
  exists cb'. split; [exact E|]. split; [exact Hin|].
  intros cmd Hn. now rewrite (Hout cmd Hn).
Qed.

(** Fifty buckets for the commands 1, 2, 289 and 55: command 289 has a nil
    breaker. *)
Lemma rejected_options_register_nil_witness :
  exists b,
    InitCircuitBreakers 0.5%float 20 [1; 2; 289; 55]
      (mkOptions (100 * Millisecond) 50 0.5%float 0 10 0 0 0 None None None)
      (mkMemory [] []) (start (fun _ => 0)) =
    Returns (b, mkMemory [] [], start (fun _ => 0)) /\
    map_get (Breakers b) 289 = Some None.
Proof.
  destruct (rejected_options_register_nil 0.5%float 20 [1; 2; 289; 55]
              (mkOptions (100 * Millisecond) 50 0.5%float 0 10 0 0 0
                         None None None)
              (mkMemory [] []) (start (fun _ => 0)))
    as (b & E & Hin & _); [simpl; lia|].
  exists b. split; [exact E|]. apply Hin. simpl. auto.
Defined.

(** What the loop of [InitCircuitBreakers] keeps, with options that
    [NewBreaker] accepts: the entries point into the heap, and no two of
    them at the same breaker. *)
Lemma InitCircuitBreakers_loop_accepted (dr : float) (dm : Z) (cmds : list Z)
      (o : Options) (cb : CircuitBreaker) (mem : Memory) (wd : World) :
  in_int64 (BucketNums o) ->
  BucketNums o <= 0 \/ 100 <= BucketNums o ->
  registry_ok cb mem ->
  (forall c1 c2 a, map_get (Breakers cb) c1 = Some (Some a) ->
                   map_get (Breakers cb) c2 = Some (Some a) -> c1 = c2) ->
  exists cb' news wd',
    InitCircuitBreakers_loop dr dm cmds o cb mem wd =
    Returns (cb', mkMemory (heap mem ++ news) (BreakerWhitelist mem), wd') /\
    List.length news = List.length cmds /\
    ticks wd' = (ticks wd + List.length cmds)%nat /\
    wall wd' = wall wd /\ notified wd' = notified wd /\
    Forall (fun br => state br = CLOSED /\ window_ok (Container br)) news /\
    registry_ok cb' (mkMemory (heap mem ++ news) (BreakerWhitelist mem)) /\
    (forall c1 c2 a, map_get (Breakers cb') c1 = Some (Some a) ->
                     map_get (Breakers cb') c2 = Some (Some a) -> c1 = c2) /\
    (forall cmd, In cmd cmds ->
                 exists a, map_get (Breakers cb') cmd = Some (Some a) /\
                           (List.length (heap mem) <= a)%nat) /\
    (forall cmd, ~ In cmd cmds ->
                 map_get (Breakers cb') cmd = map_get (Breakers cb) cmd).
Proof.
  intros Hr Ho. revert cb mem wd.
  induction cmds as [|c cmds IH]; intros cb mem wd Hreg Hinj.
  - exists cb, [], wd. cbn [InitCircuitBreakers_loop].
    rewrite app_nil_r. destruct mem as [h wl]. cbn [heap BreakerWhitelist].
    split; [reflexivity|]. split; [reflexivity|].
    split; [simpl; lia|]. split; [reflexivity|]. split; [reflexivity|].
    split; [constructor|]. split; [exact Hreg|]. split; [exact Hinj|].
    split; [contradiction | reflexivity].
  - cbn [InitCircuitBreakers_loop].
    destruct (GenBreaker_accepted dr dm c o mem wd Ho) as (br & Hnew & Eg).
    rewrite Eg.
    assert (Hbr : state br = CLOSED /\ window_ok (Container br)).
    { assert (Hr' : in_int64 (BucketNums (with_log c o)))
        by now rewrite with_log_BucketNums.
      destruct (NewBreaker_ok dr dm (with_log c o) wd br (tick wd) Hr' Hnew).
      auto. }
    set (cb1 := mkCircuitBreaker
                  (map_set (Breakers cb) c (Some (List.length (heap mem))))).
    set (mem1 := mkMemory (heap mem ++ [br]) (BreakerWhitelist mem)).
    assert (Hreg1 : registry_ok cb1 mem1).
    { intros cmd a. unfold cb1, mem1. cbn [Breakers heap].
      rewrite length_app. cbn [List.length].
      destruct (Z.eq_dec c cmd) as [<-|Hne].
      - rewrite map_get_set_same. intros H. injection H as <-. lia.
      - rewrite map_get_set_other by exact Hne. intros H.
        pose proof (Hreg cmd a H). lia. }
    assert (Hinj1 : forall c1 c2 a,
               map_get (Breakers cb1) c1 = Some (Some a) ->
               map_get (Breakers cb1) c2 = Some (Some a) -> c1 = c2).
    { intros c1 c2 a. unfold cb1. cbn [Breakers].
      destruct (Z.eq_dec c c1) as [<-|Hn1], (Z.eq_dec c c2) as [<-|Hn2].
      - reflexivity.
      - rewrite map_get_set_same, map_get_set_other by exact Hn2.
        intros H1 H2. injection H1 as <-.
        pose proof (Hreg c2 _ H2). lia.
      - rewrite map_get_set_same, map_get_set_other by exact Hn1.
        intros H1 H2. injection H2 as <-.
        pose proof (Hreg c1 _ H1). lia.
      - rewrite !map_get_set_other by assumption. apply Hinj. }
    destruct (IH cb1 mem1 (tick wd) Hreg1 Hinj1)
      as (cb' & news & wd' & E & Hlen & Ht & Hwall & Hnot & Hall & Hreg' &
          Hinj' & Hin & Hout).
    exists cb', (br :: news), wd'.
    unfold mem1 in E, Hreg', Hin. cbn [heap BreakerWhitelist] in E, Hreg', Hin.
    rewrite <- app_assoc in E, Hreg'. cbn [app] in E, Hreg'.
    rewrite length_app in Hin. cbn [List.length] in Hin.
    split; [exact E|]. split; [simpl; lia|].
    split; [rewrite Ht; simpl; lia|]. split; [exact Hwall|].
    split; [exact Hnot|]. split; [constructor; assumption|].
    split; [exact Hreg'|]. split; [exact Hinj'|]. split.
    + intros cmd [<-|Hc].
      * destruct (in_dec Z.eq_dec c cmds) as [Hi|Hi].
        -- destruct (Hin c Hi) as (a & Ha & Hle). exists a. split; [exact Ha | lia].
        -- exists (List.length (heap mem)). rewrite (Hout c Hi).
           unfold cb1. cbn [Breakers]. rewrite map_get_set_same. auto.
      * destruct (Hin cmd Hc) as (a & Ha & Hle). exists a. split; [exact Ha | lia].
    + intros cmd Hn. rewrite Hout by (intros Hc; apply Hn; now right).
      unfold cb1. cbn [Breakers]. apply map_get_set_other.
      intros <-. apply Hn. now left.
Qed.

Lemma registry_ok_empty (mem : Memory) : registry_ok (mkCircuitBreaker []) mem.
Proof. intros cmd a H. discriminate H. Qed.

(** With options that [NewBreaker] accepts, [InitCircuitBreakers] gives
    every command of the list a breaker of its own: CLOSED, with a
    well-formed window, allocated after the breakers that were there, which
    are not touched.  No two commands share a breaker, and a command outside
    the list has no entry.  One breaker is made, and the clock read once,
    for each element of the list, also for a command that is listed
    twice. *)
Theorem each_command_gets_its_own_breaker (dr : float) (dm : Z)
        (cmds : list Z) (o : Options) (mem : Memory) (wd : World) :
  in_int64 (BucketNums o) ->
  BucketNums o <= 0 \/ 100 <= BucketNums o ->
  exists b news wd',
    InitCircuitBreakers dr dm cmds o mem wd =
    Returns (b, mkMemory (heap mem ++ news) (BreakerWhitelist mem), wd') /\
    List.length news = List.length cmds /\
    ticks wd' = (ticks wd + List.length cmds)%nat /\
    (forall cmd, In cmd cmds ->
       exists a br,
         map_get (Breakers b) cmd = Some (Some a) /\
         (List.length (heap mem) <= a)%nat /\
         nth_error (heap mem ++ news) a = Some br /\
         state br = CLOSED /\ window_ok (Container br)) /\
    (forall cmd, ~ In cmd cmds -> map_get (Breakers b) cmd = None) /\
    (forall c1 c2 a, map_get (Breakers b) c1 = Some (Some a) ->
                     map_get (Breakers b) c2 = Some (Some a) -> c1 = c2).
Proof.
  intros Hr Ho. unfold InitCircuitBreakers.
  destruct (InitCircuitBreakers_loop_accepted dr dm cmds o (mkCircuitBreaker [])
              mem wd Hr Ho (registry_ok_empty mem))
    as (b & news & wd' & E & Hlen & Ht & _ & _ & Hall & Hreg & Hinj & Hin & Hout).
  { intros c1 c2 a H. discriminate H. }
  exists b, news, wd'. split; [exact E|]. split; [exact Hlen|].
  split; [exact Ht|]. split; [|split; [|exact Hinj]].
  - intros cmd Hc. destruct (Hin cmd Hc) as (a & Ha & Hle).
    pose proof (Hreg cmd a Ha) as Hlt. cbn [heap] in Hlt.
    destruct (nth_error (heap mem ++ news) a) as [br|] eqn:Hnth;
      [|apply nth_error_None in Hnth; lia].
    exists a, br. split; [exact Ha|]. split; [exact Hle|].
    split; [exact Hnth|].
    rewrite nth_error_app2 in Hnth by exact Hle.
    apply nth_error_In in Hnth.
    rewrite Forall_forall in Hall. exact (Hall br Hnth).
  - intros cmd Hn. now rewrite (Hout cmd Hn).
Qed.

(** The commands of the design's example, with the defaults: command 289
    has the third breaker of the heap, and command 1 another one. *)
Lemma each_command_gets_its_own_breaker_witness :
  exists b mem' wd',
    InitCircuitBreakers 0.5%float 20 [1; 2; 289; 55] zero_Options
                        (mkMemory [] []) (start (fun _ => 0)) =
    Returns (b, mem', wd') /\
    List.length (heap mem') = 4%nat /\
    ticks wd' = 4%nat /\
    exists a1 a289, map_get (Breakers b) 1 = Some (Some a1) /\
                    map_get (Breakers b) 289 = Some (Some a289) /\
                    a1 <> a289.
Proof.
  assert (Hr : in_int64 (BucketNums zero_Options))
    by (unfold in_int64; simpl; lia).
  assert (Ho : BucketNums zero_Options <= 0 \/ 100 <= BucketNums zero_Options)
    by (left; simpl; lia).
  destruct (each_command_gets_its_own_breaker 0.5%float 20 [1; 2; 289; 55]
              zero_Options (mkMemory [] []) (start (fun _ => 0)) Hr Ho)
    as (b & news & wd' & E & Hlen & Ht & Hin & _ & Hinj).
  exists b, (mkMemory ([] ++ news) []), wd'.
  split; [exact E|]. split; [exact Hlen|]. split; [exact Ht|].
  destruct (Hin 1) as (a1 & _ & H1 & _); [simpl; auto|].
  destruct (Hin 289) as (a289 & _ & H289 & _); [simpl; auto|].
  exists a1, a289. split; [exact H1|]. split; [exact H289|].
  intros <-. pose proof (Hinj 1 289 a1 H1 H289). discriminate.
Defined.



(** ** The state diagram *)

Lemma Breaker_error_notifies (isTimeout : bool) (trip : TripFunc) (b : Breaker)
      (wd : World) (b' : Breaker) (wd' : World) :
  window_ok (Container b) ->
  Breaker_error isTimeout trip b wd = Ok (tt, b', wd') ->
  (state b' = state b /\ notified wd' = notified wd) \/
  (state b <> OPEN /\ state b' = OPEN /\
   notified wd' =
     (if negb (is_nil (StateChangeHandler (options b)))
      then (state b, OPEN) :: notified wd else notified wd)).
Proof.
  intros Hok.
  destruct (error_records isTimeout b wd Hok)
    as (l & bk & w1 & wd1 & Hw & E & Hr & Hn & _).
  assert (Hok1 : window_ok w1) by apply Hr.
  assert (Hnote : forall s w0 (wdx : World) b2 wd2,
             window_ok w0 -> notified wdx = notified wd ->
             (notify s OPEN;;
              t0 <- time_Now;; modify (set_openTime t0);; modify (set_state OPEN))
               (set_Container b w0) wdx = Ok (tt, b2, wd2) ->
             state b2 = OPEN /\
             notified wd2 =
               (if negb (is_nil (StateChangeHandler (options b)))
                then (s, OPEN) :: notified wd else notified wd)).
  { intros s w0 wdx b2 wd2 Hokx Hnx.
    destruct (notify_ok s OPEN (set_Container b w0) wdx Hokx)
      as (w2 & wdn & En & _ & _ & Hnn & _).
    unfold bind at 1. rewrite En. unfold bind, time_Now, modify. simpl.
    intros H. injection H as <- <-. split; [reflexivity|].
    simpl in Hnn. simpl. rewrite Hnn, Hnx.
    destruct (is_nil (StateChangeHandler (options b))); reflexivity. }
  unfold Breaker_error. unfold bind at 1. rewrite E.
  unfold bind at 1. unfold gets at 1.
  change (state (set_Container b w1)) with (state b).
  destruct (state b) eqn:Hs.
  - intros H. injection H as <- <-. left. simpl. auto.
  - intros H. right. split; [discriminate|].
    exact (Hnote HALFOPEN w1 wd1 b' wd' Hok1 Hn H).
  - destruct trip as [p|]; simpl.
    + unfold bind at 1.
      destruct (run_prog Breaker_call p (set_Container b w1) wd1)
        as [[[r b2] wd2]|] eqn:E2; [|discriminate].
      destruct (run_prog_Breaker_any p (set_Container b w1) wd1 r b2 wd2 Hok1 E2)
        as (w2 & -> & Hok2 & _ & Hn2 & _).
      destruct r.
      * intros H. right. split; [discriminate|].
        apply (Hnote CLOSED w2 wd2 b' wd' Hok2); [congruence|].
        exact H.
      * intros H. injection H as <- <-. left. simpl. split; [auto | congruence].
    + unfold bind, ret. intros H. injection H as <- <-. left. simpl. auto.
Qed.

(** The states change along the arrows of the diagram and in no other way:
    a call leaves the state as it is, or it takes one of the arrows that
    are its own.  [IsAllowed] takes OPEN to HALFOPEN, [Succeed] HALFOPEN to
    CLOSED, a reported error CLOSED or HALFOPEN to OPEN, [Reset] anything to
    CLOSED, and the accessors take none.  The handler, if there is one, is
    told once of each change that [Succeed] or an error makes, with the two
    states of the arrow, and of nothing else: the cooling timeout and
    [Reset] go unreported. *)
Theorem states_change_along_the_diagram (c : call) (b : Breaker) (wd : World)
        (b' : Breaker) (wd' : World) :
  window_ok (Container b) ->
  do_call c b wd = Ok (tt, b', wd') ->
  (state b' = state b /\ notified wd' = notified wd) \/
  (arrow c (state b) (state b') = true /\
   notified wd' =
     (if tells_handler c && negb (is_nil (StateChangeHandler (options b)))
      then (state b, state b') :: notified wd else notified wd)).
Proof.
  intros Hok.
  assert (HE : forall isTimeout trip,
             Breaker_error isTimeout trip b wd = Ok (tt, b', wd') ->
             (state b' = state b /\ notified wd' = notified wd) \/
             ((match state b, state b' with
               | (HALFOPEN | CLOSED), OPEN => true
               | _, _ => false
               end) = true /\
              notified wd' =
                (if negb (is_nil (StateChangeHandler (options b)))
                 then (state b, state b') :: notified wd else notified wd))).
  { intros isTimeout trip H.
    destruct (Breaker_error_notifies isTimeout trip b wd b' wd' Hok H)
      as [Hsame | (Hne & Ho & Hn)]; [left; exact Hsame | right].
    rewrite Ho. split; [|exact Hn].
    destruct (state b); [contradiction | reflexivity | reflexivity]. }
  assert (HR : forall R (m : method R),
             (_ <- on_Container (window_call R m);; ret tt) b wd =
             Ok (tt, b', wd') ->
             state b' = state b /\ notified wd' = notified wd).
  { intros R m. unfold bind. rewrite on_Container_eq.
    destruct (window_call_ok R m (Container b) wd Hok)
      as (r & w1 & wd1 & E & _ & _ & Hn & _).
    rewrite E. unfold ret. intros H. injection H as <- <-. auto. }
  destruct c; cbn [do_call arrow tells_handler andb].
  - unfold Breaker_IsAllowed, Breaker_isAllowed;
      unfold bind, gets, time_Now, modify, ret.
    destruct (state b) eqn:Hs; simpl.
    + destruct (Time_After _ _); intros H; injection H as <- <-; simpl.
      * left. auto.
      * right. auto.
    + destruct (Time_After _ _); intros H; injection H as <- <-; simpl;
        left; auto.
    + intros H; injection H as <- <-. left. auto.
  - unfold Breaker_Succeed. unfold bind at 1. unfold gets at 1.
    destruct (state b) eqn:Hs.
    + unfold ret. intros H. injection H as <- <-. left. auto.
    + unfold bind at 1. unfold modify at 1.
      unfold bind at 1. unfold gets at 1.
      unfold bind at 1. unfold gets at 1.
      match goal with |- context [if ?c then _ else _] => destruct c end.
      * set (b1 := set_halfopenSuccess (wrap64 (halfopenSuccess b + 1)) b).
        destruct (notify_ok HALFOPEN CLOSED b1 wd Hok)
          as (w1 & wd1 & En & Hok1 & _ & Hn1 & _).
        unfold bind at 1. rewrite En.
        destruct (window_Reset_ok w1 wd1 Hok1) as (w2 & Er & _).
        unfold bind, modify. rewrite on_Container_eq. simpl. rewrite Er.
        intros H. injection H as <- <-. right. simpl.
        split; [reflexivity|]. simpl in Hn1. rewrite Hn1.
        destruct (is_nil (StateChangeHandler (options b))); reflexivity.
      * unfold ret. intros H. injection H as <- <-. left. simpl. auto.
    + rewrite on_Container_eq.
      destruct (window_Succeed_ok (Container b) wd Hok)
        as (l & bk & w' & wd1 & _ & E & _ & Hn & _).
      rewrite E. intros H. injection H as <- <-. left. simpl. auto.
  - unfold Breaker_Fail, bind, gets. intros H.
    destruct (HE _ _ H) as [Hsame | [Ha Hn]]; [left; exact Hsame | right].
    split; [|exact Hn]. destruct (state b), (state b'); auto.
  - unfold Breaker_FailWithTrip. intros H.
    destruct (HE _ _ H) as [Hsame | [Ha Hn]]; [left; exact Hsame | right].
    split; [|exact Hn]. destruct (state b), (state b'); auto.
  - unfold Breaker_Timeout, bind, gets. intros H.
    destruct (HE _ _ H) as [Hsame | [Ha Hn]]; [left; exact Hsame | right].
    split; [|exact Hn]. destruct (state b), (state b'); auto.
  - unfold Breaker_TimeoutWithTrip. intros H.
    destruct (HE _ _ H) as [Hsame | [Ha Hn]]; [left; exact Hsame | right].
    split; [|exact Hn]. destruct (state b), (state b'); auto.
  - unfold bind, Breaker_State, gets, ret. intros H. injection H as <- <-. auto.
  - unfold Breaker_Reset, bind, modify. rewrite on_Container_eq.
    destruct (window_Reset_ok (Container b) wd Hok) as (w1 & E & _).
    rewrite E. simpl. intros H. injection H as <- <-. simpl.
    destruct (state b); [right | right | left]; auto.
  - left. exact (HR _ mFailures H).
  - left. exact (HR _ mSuccesses H).
  - left. exact (HR _ mTimeouts H).
  - left. exact (HR _ mConsecutiveErrors H).
  - left. exact (HR _ mErrorRate H).
  - left. exact (HR _ mSamples H).
  - left. exact (HR _ mCounts H).
Qed.

(** The cooling timeout of the rate-trip breaker: [IsAllowed] takes it from
    OPEN to HALFOPEN, and nobody is told. *)
Lemma states_change_along_the_diagram_witness :
  state (breaker_of tripped) = OPEN /\
  state (breaker_of probing) = HALFOPEN /\
  arrow CIsAllowed (state (breaker_of tripped)) (state (breaker_of probing)) =
    true /\
  notified (world_of probing) = notified (world_of tripped).
Proof.
  assert (Hok : window_ok (Container (breaker_of tripped))) by by_evaluation.
  assert (E : do_call CIsAllowed (breaker_of tripped) (world_of tripped) =
              Ok (tt, breaker_of probing, world_of probing))
    by (vm_compute; reflexivity).
  split; [reflexivity|]. split; [reflexivity|].
  destruct (states_change_along_the_diagram CIsAllowed _ _ _ _ Hok E)
    as [[Hs _] | [Ha Hn]]; [discriminate Hs|].
  split; [exact Ha | exact Hn].
Defined.

(** ** Probing *)

Lemma run_calls_app (cs1 cs2 : list call) (b : Breaker) (wd : World) :
  run_calls (cs1 ++ cs2) b wd =
  match run_calls cs1 b wd with
  | Ok (_, b1, wd1) => run_calls cs2 b1 wd1
  | Fault f => Fault f
  end.
Proof.
  revert b wd. induction cs1 as [|c cs1 IH]; intros b wd; [reflexivity|].
  simpl. unfold bind.
  destruct (do_call c b wd) as [[[r b1] wd1]|]; [apply IH | reflexivity].
Qed.

Lemma quiet_call_while_probing (c : call) (b : Breaker) (wd : World) :
  state b = HALFOPEN ->
  window_ok (Container b) ->
  is_quiet c = true ->
  0 <= halfopenSuccess b ->
  halfopenSuccess b + (if is_success c then 1 else 0) <
    HalfOpenSuccess (options b) ->
  HalfOpenSuccess (options b) < 2 ^ 63 ->
  exists b1 wd1,
    do_call c b wd = Ok (tt, b1, wd1) /\
    state b1 = HALFOPEN /\
    halfopenSuccess b1 = halfopenSuccess b + (if is_success c then 1 else 0) /\
    options b1 = options b /\
    window_ok (Container b1) /\
    notified wd1 = notified wd.
Proof.
  intros Hs Hok Hq H0 Hlt Hth.
  assert (HR : forall R (m : method R),
             exists b1 wd1,
               (_ <- on_Container (window_call R m);; ret tt) b wd =
               Ok (tt, b1, wd1) /\
               state b1 = HALFOPEN /\
               halfopenSuccess b1 = halfopenSuccess b + 0 /\
               options b1 = options b /\
               window_ok (Container b1) /\
               notified wd1 = notified wd).
  { intros R m. unfold bind. rewrite on_Container_eq.
    destruct (window_call_ok R m (Container b) wd Hok)
      as (r & w1 & wd1 & E & Hok1 & _ & Hn & _).
    rewrite E. exists (set_Container b w1), wd1.
    split; [reflexivity|]. simpl. rewrite Z.add_0_r. auto. }
  destruct c; try discriminate Hq; cbn [do_call is_success] in *.
  - unfold Breaker_IsAllowed, Breaker_isAllowed;
      unfold bind, gets, time_Now, modify, ret.
    rewrite Hs. simpl.
    destruct (Time_After _ _); eexists; eexists;
      (split; [reflexivity|]); simpl; rewrite Z.add_0_r; auto.
  - unfold Breaker_Succeed. unfold bind at 1. unfold gets at 1. rewrite Hs.
    unfold bind at 1. unfold modify at 1.
    unfold bind at 1. unfold gets at 1.
    unfold bind at 1. unfold gets at 1.
    cbn [halfopenSuccess set_halfopenSuccess options].
    rewrite wrap64_id by (unfold in_int64; lia).
    destruct (halfopenSuccess b + 1 =? HalfOpenSuccess (options b)) eqn:Ee;
      zbool; [lia|].
    eexists; eexists. split; [reflexivity|]. simpl. auto.
  - exists b, wd. split; [reflexivity|]. rewrite Z.add_0_r. auto.
  - exact (HR _ mFailures).
  - exact (HR _ mSuccesses).
  - exact (HR _ mTimeouts).
  - exact (HR _ mConsecutiveErrors).
  - exact (HR _ mErrorRate).
  - exact (HR _ mSamples).
  - exact (HR _ mCounts).
Qed.

Lemma quiet_calls_while_probing (cs : list call) (b : Breaker) (wd : World) :
  state b = HALFOPEN ->
  window_ok (Container b) ->
  forallb is_quiet cs = true ->
  0 <= halfopenSuccess b ->
  halfopenSuccess b + successes_in cs < HalfOpenSuccess (options b) ->
  HalfOpenSuccess (options b) < 2 ^ 63 ->
  exists b1 wd1,
    run_calls cs b wd = Ok (tt, b1, wd1) /\
    state b1 = HALFOPEN /\
    halfopenSuccess b1 = halfopenSuccess b + successes_in cs /\
    options b1 = options b /\
    window_ok (Container b1) /\
    notified wd1 = notified wd.
Proof.
  revert b wd. induction cs as [|c cs IH]; intros b wd Hs Hok Hq H0 Hlt Hth.
  - exists b, wd. split; [reflexivity|]. unfold successes_in. simpl.
    rewrite Z.add_0_r. auto.
  - cbn [forallb] in Hq. apply andb_prop in Hq. destruct Hq as [Hc Hq].
    assert (Hsplit : successes_in (c :: cs) =
                     (if is_success c then 1 else 0) + successes_in cs).
    { unfold successes_in. cbn [filter].
      destruct (is_success c); cbn [List.length]; lia. }
    assert (Hpos : 0 <= successes_in cs) by (unfold successes_in; lia).
    rewrite Hsplit in Hlt |- *.
    destruct (quiet_call_while_probing c b wd Hs Hok Hc H0)
      as (b1 & wd1 & E & Hs1 & Hh1 & Ho1 & Hok1 & Hn1); [lia | exact Hth|].
    assert (Hc0 : 0 <= (if is_success c then 1 else 0))
      by (destruct (is_success c); lia).
    destruct (IH b1 wd1 Hs1 Hok1 Hq) as (b2 & wd2 & E2 & Hs2 & Hh2 & Ho2 & Hok2 & Hn2).
    + lia.
    + rewrite Ho1, Hh1. lia.
    + rewrite Ho1. exact Hth.
    + exists b2, wd2. cbn [run_calls]. unfold bind. rewrite E.
      split; [exact E2|]. split; [exact Hs2|].
      split; [lia|]. split; [congruence|]. split; [exact Hok2 | congruence].
Qed.

Lemma closing_probe (b : Breaker) (wd : World) :
  state b = HALFOPEN ->
  window_ok (Container b) ->
  0 <= halfopenSuccess b ->
  halfopenSuccess b + 1 = HalfOpenSuccess (options b) ->
  HalfOpenSuccess (options b) < 2 ^ 63 ->
  exists b' wd',
    Breaker_Succeed b wd = Ok (tt, b', wd') /\
    state b' = CLOSED /\
    window_ok (Container b') /\
    oldest (Container b') = 0 /\ inWindow (Container b') = 1 /\
    conseErr (Container b') = 0 /\
    (exists ts, index (buckets (Container b')) 0 = Some (mkBucket 0 0 0 ts)) /\
    notified wd' =
      (if is_nil (StateChangeHandler (options b)) then notified wd
       else (HALFOPEN, CLOSED) :: notified wd).
Proof.
  intros Hs Hok H0 Heq Hth.
  unfold Breaker_Succeed. unfold bind at 1. unfold gets at 1. rewrite Hs.
  unfold bind at 1. unfold modify at 1.
  unfold bind at 1. unfold gets at 1.
  unfold bind at 1. unfold gets at 1.
  cbn [halfopenSuccess set_halfopenSuccess options].
  rewrite wrap64_id by (unfold in_int64; lia).
  rewrite Heq, Z.eqb_refl.
  set (b1 := set_halfopenSuccess (HalfOpenSuccess (options b)) b).
  destruct (notify_ok HALFOPEN CLOSED b1 wd Hok)
    as (w1 & wd1 & En & Hok1 & _ & Hn1 & _).
  unfold bind at 1. rewrite En.
  destruct (window_Reset_ok w1 wd1 Hok1)
    as (w2 & Er & Hok2 & Ho & _ & Hi & Hc & Hb & _).
  unfold bind, modify. rewrite on_Container_eq. simpl. rewrite Er.
  eexists; eexists. split; [reflexivity|]. simpl.
  split; [reflexivity|]. split; [exact Hok2|]. split; [exact Ho|].
  split; [exact Hi|]. split; [exact Hc|]. split; [eexists; exact Hb|].
  simpl in Hn1. exact Hn1.
Qed.

(** A probing breaker closes on the success that brings the count of
    successful probes to [HalfOpenSuccess], and not before: admission tests
    and readings in between neither count nor disturb.  The handler, if
    there is one, is told once, of (HALFOPEN, CLOSED), and the closed breaker
    starts with an empty window, at whatever time it is asked. *)
Theorem probes_close_the_breaker (cs : list call) (b : Breaker) (wd : World) :
  state b = HALFOPEN ->
  window_ok (Container b) ->
  forallb is_quiet cs = true ->
  0 <= halfopenSuccess b ->
  halfopenSuccess b + successes_in cs + 1 = HalfOpenSuccess (options b) ->
  HalfOpenSuccess (options b) < 2 ^ 63 ->
  exists b1 wd1 b' wd',
    run_calls cs b wd = Ok (tt, b1, wd1) /\
    state b1 = HALFOPEN /\
    run_calls (cs ++ [CSucceed]) b wd = Ok (tt, b', wd') /\
    state b' = CLOSED /\
    notified wd' =
      (if is_nil (StateChangeHandler (options b)) then notified wd
       else (HALFOPEN, CLOSED) :: notified wd) /\
    forall wd2, exists b2,
      Breaker_Counts b' wd2 = Ok ((0, 0, 0), b2, tick wd2).
Proof.
  intros Hs Hok Hq H0 Heq Hth.
  destruct (quiet_calls_while_probing cs b wd Hs Hok Hq H0)
    as (b1 & wd1 & E & Hs1 & Hh1 & Ho1 & Hok1 & Hn1); [lia | exact Hth|].
  destruct (closing_probe b1 wd1 Hs1 Hok1)
    as (b' & wd' & E' & Hs' & Hok' & Ho' & Hi' & Hc' & [ts Hb'] & Hn');
    [rewrite Hh1; unfold successes_in; lia | rewrite Ho1, Hh1; lia
    | rewrite Ho1; exact Hth |].
  exists b1, wd1, b', wd'.
  split; [exact E|]. split; [exact Hs1|].
  split.
  { rewrite run_calls_app, E. cbn [run_calls do_call]. unfold bind.
    rewrite E'. reflexivity. }
  split; [exact Hs'|]. split.
  { rewrite Hn', Ho1, Hn1. reflexivity. }
  intros wd2.
  destruct (window_Counts_of_one_empty_bucket (Container b') wd2 ts Ho' Hi' Hb')
    as (w2 & Ec & _).
  exists (set_Container b' w2). unfold Breaker_Counts.
  rewrite on_Container_eq, Ec. reflexivity.
Qed.

(** The probing rate-trip breaker, with the default of two probes: a
    success, an admission test and a reading of the samples leave it
    HALFOPEN; the next success closes it. *)
Lemma probes_close_the_breaker_witness :
  exists b1 wd1 b' wd',
    run_calls [CSucceed; CIsAllowed; CSamples]
              (breaker_of probing) (world_of probing) = Ok (tt, b1, wd1) /\
    state b1 = HALFOPEN /\
    run_calls ([CSucceed; CIsAllowed; CSamples] ++ [CSucceed])
              (breaker_of probing) (world_of probing) = Ok (tt, b', wd') /\
    state b' = CLOSED.
Proof.
  assert (Hs : state (breaker_of probing) = HALFOPEN) by reflexivity.
  assert (Hok : window_ok (Container (breaker_of probing))) by by_evaluation.
  assert (Hq : forallb is_quiet [CSucceed; CIsAllowed; CSamples] = true)
    by reflexivity.
  assert (H0 : 0 <= halfopenSuccess (breaker_of probing)) by (simpl; lia).
  assert (Heq : halfopenSuccess (breaker_of probing) +
                successes_in [CSucceed; CIsAllowed; CSamples] + 1 =
                HalfOpenSuccess (options (breaker_of probing)))
    by reflexivity.
  assert (Hth : HalfOpenSuccess (options (breaker_of probing)) < 2 ^ 63)
    by (simpl; lia).
  destruct (probes_close_the_breaker [CSucceed; CIsAllowed; CSamples]
              (breaker_of probing) (world_of probing) Hs Hok Hq H0 Heq Hth)
    as (b1 & wd1 & b' & wd' & E & Hs1 & E' & Hs' & _).
  exists b1, wd1, b', wd'. auto.
Defined.
